(** * Terminal UI animation engine: spinners, progress bars, multi-bar display

    A shallow embedding of the animation core of [ui.py]
    ([TerminalUI.spinner], [Spinner], [ProgressBar], [MultiProgress]) and
    the properties of its lifecycle, clamping and rendering.

    Conventions of the embedding:
    - Python [int] is [Z]; Python [float] is modelled by [Float.float], the
      binary64 values as exact rationals, every operation rounding to nearest,
      ties to even (the exponent range is not modelled);
    - a method [m(self, args)] is a function of the object record and of the
      [World] (terminal output, clock and other readings of the environment)
      returning the updated record and world; a method that can fail returns
      a [result];
    - what the program sends to the terminal is the list [out] of [event]s,
      oldest first: one event per call of a [TerminalUI] primitive or of
      [sys.stdout.write] / [print]. *)

From stdpp Require Import base list strings.
From Stdlib Require Import ZArith QArith Qround Qpower Lia Lqa.
From Stdlib Require Floats.SpecFloat.

(* ===================================================================== *)
(** * Part I: the program                                                  *)
(* ===================================================================== *)

(** ** Python floats *)

Module Float.
Local Open Scope Q_scope.

(** A finite binary64 value, held as the rational it denotes. *)
Definition float := Q.

(** [flog2 x] is the binary exponent of [x > 0]: [2^(flog2 x) <= x < 2^(flog2 x + 1)]. *)
Definition flog2 (x : Q) : Z :=
  let k := (Z.log2 (Qnum x) - Z.log2 (Zpos (Qden x)))%Z in
  if Qle_bool (2 ^ k) x then k else (k - 1)%Z.

(** Rounding of [x > 0] to 53 significant bits, to nearest, ties to even. *)
Definition rnd_pos (x : Q) : Q :=
  let u := 2 ^ (flog2 x - 52) in
  let y := x / u in
  let n := Qfloor y in
  let m := match (y - inject_Z n) ?= (1 # 2) with
           | Lt => n
           | Gt => (n + 1)%Z
           | Eq => if Z.even n then n else (n + 1)%Z
           end in
  inject_Z m * u.

Definition round_red (x : Q) : float :=
  Qred (match 0 ?= x with
        | Lt => rnd_pos x
        | Eq => 0
        | Gt => - rnd_pos (- x)
        end).

(** The binary64 value nearest to the rational [x]. *)
Definition round (x : Q) : float := round_red (Qred x).

(** [float(n)] for a Python int. *)
Definition of_int (n : Z) : float := round (inject_Z n).

(** [x + y], [x - y], [x * y] on floats. *)
Definition add (x y : float) : float := round (x + y).
Definition sub (x y : float) : float := round (x - y).
Definition mul (x y : float) : float := round (x * y).

(** [x < y] on floats. *)
Definition ltb (x y : float) : bool := negb (Qle_bool y x).

Definition is_zero (x : float) : bool := Qeq_bool x 0.

(** [int(x)]: truncation toward zero. *)
Definition trunc (x : float) : Z := Z.quot (Qnum x) (Zpos (Qden x)).

(** A value with a 53-bit significand: [M * 2^E] with [2^52 <= M < 2^53]. *)
Definition representable (b : Q) : Prop :=
  exists M E : Z, (2 ^ 52 <= M < 2 ^ 53)%Z /\ b == inject_Z M * 2 ^ E.

End Float.

#[global] Arguments Float.round : simpl never.
#[global] Arguments Float.of_int : simpl never.
#[global] Arguments Float.add : simpl never.
#[global] Arguments Float.sub : simpl never.
#[global] Arguments Float.mul : simpl never.
#[global] Arguments Float.ltb : simpl never.
#[global] Arguments Float.is_zero : simpl never.
#[global] Arguments Float.trunc : simpl never.

(** The reference operations of IEEE 754 binary64 of the core library
    ([SpecFloat], precision 53, maximal exponent 1024), to compare [Float]
    with. *)
Module FloatReference.
Import SpecFloat.

Definition value (x : spec_float) : Q :=
  match x with
  | S754_finite s m e =>
      Qred ((if s then -1 else 1) * inject_Z (Zpos m) * 2 ^ e)%Q
  | _ => 0%Q
  end.

Definition of_int (n : Z) : spec_float := binary_normalize 53 1024 n 0 false.

(** [Float] and the reference agree on [(a / b) * n] and on [a / b - c / d]. *)
Definition agree_scaled (a b n : Z) : bool :=
  Qeq_bool
    (value (SFmul 53 1024 (SFdiv 53 1024 (of_int a) (of_int b)) (of_int n)))
    (Float.mul (Float.round (inject_Z a / inject_Z b)%Q) (Float.of_int n)).

Definition agree_sub (a b c d : Z) : bool :=
  Qeq_bool
    (value (SFsub 53 1024 (SFdiv 53 1024 (of_int a) (of_int b))
                          (SFdiv 53 1024 (of_int c) (of_int d))))
    (Float.sub (Float.round (inject_Z a / inject_Z b)%Q)
               (Float.round (inject_Z c / inject_Z d)%Q)).

(** [f 1 && ... && f n] *)
Fixpoint all_upto (f : Z -> bool) (n : nat) : bool :=
  match n with
  | O => true
  | S m => f (Z.of_nat n) && all_upto f m
  end.

End FloatReference.

Local Open Scope string_scope.
Local Open Scope list_scope.
Local Open Scope Z_scope.

(** ** Exceptions and results *)

Inductive exn : Type :=
| ZeroDivisionError
| IndexError
| ValueError
| TypeError
| UserError (tag : string).   (* any failure raised by caller code *)

Inductive result (A : Type) : Type :=
| Ok (a : A)
| Raise (e : exn).
Arguments Ok {A} a.
Arguments Raise {A} e.

#[global] Instance result_ret : MRet result := fun A a => Ok a.

#[global] Instance result_bind : MBind result := fun A B k r =>
  match r with
  | Ok a => k a
  | Raise e => Raise e
  end.

(** [a / b] on two ints: the correctly rounded quotient. *)
Definition int_truediv (a b : Z) : result Float.float :=
  if b =? 0 then Raise ZeroDivisionError
  else Ok (Float.round (inject_Z a / inject_Z b)%Q).

(** [x / n] for a float and an int: the int is converted first. *)
Definition float_div_int (x : Float.float) (n : Z) : result Float.float :=
  let d := Float.of_int n in
  if Float.is_zero d then Raise ZeroDivisionError
  else Ok (Float.round (x / d)%Q).

(** [x / y] on two floats. *)
Definition float_div (x y : Float.float) : result Float.float :=
  if Float.is_zero y then Raise ZeroDivisionError
  else Ok (Float.round (x / y)%Q).

(** [x * n] for a float and an int. *)
Definition float_mul_int (x : Float.float) (n : Z) : Float.float :=
  Float.mul x (Float.of_int n).

(** [s * n] for a one-glyph string [s]: the glyphs of the product;
    empty when [n <= 0]. *)
Definition str_repeat (g : string) (n : Z) : list string :=
  replicate (Z.to_nat n) g.

(** ** Enumerations *)

Inductive SpinnerStyle : Type :=
| CLASSIC | DOTS | DOTS2 | DOTS3
| ARROW | TRIANGLE | SQUARE | CIRCLE | QUARTER
| MOON | CLOCK | HEARTS
| BLOCKS | BOUNCE | SNAKE
| BINARY | DNA | PULSE
| MATRIX
| WEATHER.

#[global] Instance SpinnerStyle_eq_dec : EqDecision SpinnerStyle.
Proof. solve_decision. Defined.

(** [list("ABC")]: the one-character strings of a string. *)
Fixpoint chars (s : string) : list string :=
  match s with
  | EmptyString => []
  | String c rest => String c EmptyString :: chars rest
  end.

Definition SpinnerStyle_value (s : SpinnerStyle) : list string :=
  match s with
  | CLASSIC => ["|"; "/"; "-"; "\"]
  | DOTS => ["⠋"; "⠙"; "⠹"; "⠸"; "⠼"; "⠴"; "⠦"; "⠧"; "⠇"; "⠏"]
  | DOTS2 => ["⣾"; "⣽"; "⣻"; "⢿"; "⡿"; "⣟"; "⣯"; "⣷"]
  | DOTS3 => ["⠄"; "⠆"; "⠇"; "⠋"; "⠙"; "⠸"; "⠰"; "⠠"; "⠰"; "⠸"; "⠙"; "⠋"; "⠇"; "⠆"]
  | ARROW => ["←"; "↖"; "↑"; "↗"; "→"; "↘"; "↓"; "↙"]
  | TRIANGLE => ["▲"; "▶"; "▼"; "◀"]
  | SQUARE => ["▖"; "▘"; "▝"; "▗"]
  | CIRCLE => ["◐"; "◓"; "◑"; "◒"]
  | QUARTER => ["◴"; "◷"; "◶"; "◵"]
  | MOON => ["🌑"; "🌒"; "🌓"; "🌔"; "🌕"; "🌖"; "🌗"; "🌘"]
  | CLOCK => ["🕐"; "🕑"; "🕒"; "🕓"; "🕔"; "🕕"; "🕖"; "🕗"; "🕘"; "🕙"; "🕚"; "🕛"]
  | HEARTS => ["🤍"; "🤎"; "❤️"; "🧡"; "💛"; "💚"; "💙"; "💜"]
  | BLOCKS => ["▁"; "▂"; "▃"; "▄"; "▅"; "▆"; "▇"; "█"; "▇"; "▆"; "▅"; "▄"; "▃"; "▁"]
  | BOUNCE => ["⠁"; "⠂"; "⠄"; "⠂"]
  | SNAKE => ["⣀"; "⣄"; "⣤"; "⣦"; "⣶"; "⣷"; "⣿"; "⢿"; "⡿"; "⠿"; "⢻"; "⣛";
              "⣋"; "⣍"; "⡋"; "⠋"; "⠙"; "⠹"; "⢸"; "⣸"; "⣴"; "⣤"; "⣄"; "⣀"]
  | BINARY => ["0"; "1"]
  | DNA => ["⠋"; "⠙"; "⠸"; "⠴"; "⠦"; "⠇"; "⠏"; "⠋"]
  | PULSE => ["●"; "◐"; "○"; "◑"]
  | MATRIX => chars "ABCDEFGHIJKLMNOPQRSTUVWXYZ0123456789@#$%^&*()_+-=[]{}|;:,./<>?"
  | WEATHER => ["☀️"; "⛅"; "☁️"; "🌧️"; "⛈️"; "🌦️"; "🌈"]
  end.

(** [ProgressStyle.CIRCLES] has the value of [ProgressStyle.DOTS], so in the
    source it is an alias of that member; [PCIRCLES] below is the same
    constructor. *)
Inductive ProgressStyle : Type :=
| PBLOCKS | PBLOCKS2 | PARROWS | PEQUALS | PDOTS | PPIPES | PSQUARES
| PDIAMONDS | GRADIENT.

Definition PCIRCLES : ProgressStyle := PDOTS.

#[global] Instance ProgressStyle_eq_dec : EqDecision ProgressStyle.
Proof. solve_decision. Defined.

Definition ProgressStyle_value (s : ProgressStyle) : list string :=
  match s with
  | PBLOCKS => ["█"; "░"]
  | PBLOCKS2 => ["▰"; "▱"]
  | PARROWS => [">"; "-"]
  | PEQUALS => ["="; " "]
  | PDOTS => ["●"; "○"]
  | PPIPES => ["|"; " "]
  | PSQUARES => ["■"; "□"]
  | PDIAMONDS => ["♦"; "♢"]
  | GRADIENT => ["█"; "▓"; "▒"; "░"]
  end.

(** ** The terminal and the environment *)

(** The parts of a progress line; [" ".join(parts)] is what is written. *)
Inductive part : Type :=
| PLabel (text : string)                            (* message + ":" *)
| PBar (color : string) (filled empty : list string) (* "[" color filled empty reset "]" *)
| PPercent (percentage : Z)                         (* "{percentage:3d}%" *)
| PEta (eta : Float.float)                          (* "ETA: {eta:.1f}s" *)
| PDone (elapsed : Float.float)                     (* "Done in {elapsed:.1f}s" *)
| PCount (current total : Z).                       (* "({current}/{total})" *)

Inductive event : Type :=
| HideCursor                                        (* write "\033[?25l" *)
| ShowCursor                                        (* write "\033[?25h" *)
| ClearLine                                         (* write "\r\033[K" *)
| MoveUp (lines : Z)                                (* write "\033[{lines}A" *)
| WriteFrame (color frame message suffix : string)  (* the spinner's line *)
| WriteLine (parts : list part)                     (* the progress bar's line *)
| Newline                                           (* print() *)
| Sleep (seconds : Float.float)
| ThreadStart (tid : nat)
| ThreadJoin (tid : nat)
| LockAcquire
| LockRelease.

Record World : Type := mkWorld {
  out : list event;               (* what was done so far, oldest first *)
  env_time : nat -> Float.float;  (* the n-th reading: time.time() *)
  env_alive : nat -> bool;        (* the n-th reading: Thread.is_alive() *)
  env_choice : nat -> nat;        (* the n-th reading: the draw of random.choice *)
  reads : nat;                    (* readings of the environment made so far *)
  threads : nat                   (* threads created so far *)
}.

Definition emit (e : event) (w : World) : World :=
  mkWorld (out w ++ [e]) (env_time w) (env_alive w) (env_choice w) (reads w) (threads w).

Definition next_read (w : World) : World :=
  mkWorld (out w) (env_time w) (env_alive w) (env_choice w) (S (reads w)) (threads w).

Definition time_time (w : World) : Float.float * World :=
  (env_time w (reads w), next_read w).

Definition is_alive (w : World) : bool * World :=
  (env_alive w (reads w), next_read w).

(** [random.choice(seq)] *)
Definition random_choice (seq : list string) (w : World) : result string * World :=
  match seq with
  | [] => (Raise IndexError, w)
  | _ => (match seq !! (env_choice w (reads w) mod length seq)%nat with
          | Some x => Ok x
          | None => Raise IndexError
          end, next_read w)
  end.

(** [threading.Thread(...)] followed by [start()] *)
Definition thread_start (w : World) : nat * World :=
  let tid := threads w in
  (tid, emit (ThreadStart tid)
          (mkWorld (out w) (env_time w) (env_alive w) (env_choice w) (reads w) (S tid))).

(** ** TerminalUI: themes and cursor primitives *)

Module TerminalUI.

(** One entry of [THEMES]: every theme has these ten keys. *)
Record Theme : Type := mkTheme {
  primary : string;
  secondary : string;
  success : string;
  warning : string;
  error : string;
  critical : string;
  info : string;
  accent : string;
  muted : string;
  highlight : string
}.

(** [theme.get(key, default)] *)
Definition theme_get (th : Theme) (key : string) (default : string) : string :=
  if String.eqb key "primary" then primary th
  else if String.eqb key "secondary" then secondary th
  else if String.eqb key "success" then success th
  else if String.eqb key "warning" then warning th
  else if String.eqb key "error" then error th
  else if String.eqb key "critical" then critical th
  else if String.eqb key "info" then info th
  else if String.eqb key "accent" then accent th
  else if String.eqb key "muted" then muted th
  else if String.eqb key "highlight" then highlight th
  else default.

Record t : Type := mk {
  theme : Theme;
  speed_factor : Float.float;
  debug : bool;
  width : Z
}.

Definition hide_cursor (self : t) (w : World) : World :=
  if debug self then w else emit HideCursor w.

Definition show_cursor (self : t) (w : World) : World := emit ShowCursor w.

Definition clear_line (self : t) (w : World) : World := emit ClearLine w.

Definition move_up (self : t) (lines : Z) (w : World) : World := emit (MoveUp lines) w.

End TerminalUI.

(** ** Spinner *)

Module Spinner.

Record t : Type := mk {
  ui : TerminalUI.t;
  message : string;
  style : SpinnerStyle;
  color_key : string;
  suffix : string;
  running : bool;
  thread : option nat;
  frames : list string
}.

Definition set_running (b : bool) (s : t) : t :=
  mk (ui s) (message s) (style s) (color_key s) (suffix s) b (thread s) (frames s).

Definition set_thread (th : option nat) (s : t) : t :=
  mk (ui s) (message s) (style s) (color_key s) (suffix s) (running s) th (frames s).

Definition __init__ (ui : TerminalUI.t) (message : string) (style : SpinnerStyle)
    (color_key suffix : string) : t :=
  mk ui message style color_key suffix false None (SpinnerStyle_value style).

Definition start (self : t) (w : World) : t * World :=
  if running self then (self, w)
  else
    let self := set_running true self in
    let w := TerminalUI.hide_cursor (ui self) w in
    let '(tid, w) := thread_start w in
    (set_thread (Some tid) self, w).

Definition _stop (self : t) (w : World) : t * World :=
  if negb (running self) then (self, w)
  else
    let self := set_running false self in
    let w := match thread self with
             | Some tid =>
                 let '(alive, w) := is_alive w in
                 if alive then emit (ThreadJoin tid) w else w
             | None => w
             end in
    let w := TerminalUI.clear_line (ui self) w in
    let w := TerminalUI.show_cursor (ui self) w in
    (self, w).

Definition stop (self : t) (w : World) : t * World := _stop self w.

(** The frame chosen by one turn of the loop of [_animate]. *)
Definition frame_at (self : t) (frame_index : Z) (w : World) : result string * World :=
  if decide (style self = MATRIX) then random_choice (frames self) w
  else
    let n := Z.of_nat (length (frames self)) in
    if n =? 0 then (Raise ZeroDivisionError, w)
    else (match frames self !! Z.to_nat (frame_index mod n) with
          | Some f => Ok f
          | None => Raise IndexError
          end, w).

(** One turn of the loop of [_animate], entered with [running] true:
    the next [frame_index] and the world. *)
Definition animate_step (self : t) (frame_index : Z) (w : World) : result Z * World :=
  match frame_at self frame_index w with
  | (Raise e, w) => (Raise e, w)
  | (Ok frame, w) =>
      let th := TerminalUI.theme (ui self) in
      let color := TerminalUI.theme_get th (color_key self) (TerminalUI.primary th) in
      let w := TerminalUI.clear_line (ui self) w in
      let w := emit (WriteFrame color frame (message self) (suffix self)) w in
      match float_div (Float.round (1 # 10)) (TerminalUI.speed_factor (ui self)) with
      | Raise e => (Raise e, w)
      | Ok d => (Ok (frame_index + 1), emit (Sleep d) w)
      end
  end.

Definition update_message (message : string) (s : t) : t :=
  mk (ui s) message (style s) (color_key s) (suffix s) (running s) (thread s) (frames s).

Definition update_suffix (suffix : string) (s : t) : t :=
  mk (ui s) (message s) (style s) (color_key s) suffix (running s) (thread s) (frames s).

(** The lifecycle of a session, read off the two attributes the source
    keeps: [running], and [thread], which is [None] until the first
    [start()].  [STOPPING] is the inside of [_stop], between the assignment
    of [running] and its return; no call returns in it. *)
Inductive lifecycle : Type := CREATED | RUNNING | STOPPING | STOPPED.

Definition state (self : t) : lifecycle :=
  if running self then RUNNING
  else match thread self with
       | None => CREATED
       | Some _ => STOPPED
       end.

(** Calls of [start()] and [stop()], one after the other. *)
Inductive op : Type := Start | Stop.

Definition is_start (o : op) : bool :=
  match o with Start => true | Stop => false end.

Fixpoint run (ops : list op) (self : t) (w : World) : t * World :=
  match ops with
  | [] => (self, w)
  | Start :: rest => let '(self, w) := start self w in run rest self w
  | Stop :: rest => let '(self, w) := stop self w in run rest self w
  end.

End Spinner.

(** ** ProgressBar *)

Module ProgressBar.

Record t : Type := mk {
  ui : TerminalUI.t;
  message : string;
  total : Z;
  style : ProgressStyle;
  width : Z;
  show_percentage : bool;
  show_eta : bool;
  color_key : string;
  current : Z;
  start_time : Float.float;
  last_update : Float.float
}.

Definition set_current (c : Z) (s : t) : t :=
  mk (ui s) (message s) (total s) (style s) (width s) (show_percentage s)
     (show_eta s) (color_key s) c (start_time s) (last_update s).

Definition set_last_update (x : Float.float) (s : t) : t :=
  mk (ui s) (message s) (total s) (style s) (width s) (show_percentage s)
     (show_eta s) (color_key s) (current s) (start_time s) x.

(** [width or min(40, ui.width - 30)]: [None] and [0] both select the default. *)
Definition width_or_default (ui : TerminalUI.t) (width : option Z) : Z :=
  match width with
  | Some w => if w =? 0 then Z.min 40 (TerminalUI.width ui - 30) else w
  | None => Z.min 40 (TerminalUI.width ui - 30)
  end.

Definition __init__ (ui : TerminalUI.t) (message : string) (total : Z)
    (style : ProgressStyle) (width : option Z)
    (show_percentage show_eta : bool) (color_key : string)
    (w : World) : result (t * World) :=
  let '(now, w) := time_time w in
  Ok (mk ui message total style (width_or_default ui width)
         show_percentage show_eta color_key 0 now now, w).

(** The local [percentage] of [_render]. *)
Definition percentage (self : t) : result Z :=
  if total self =? 0 then Ok 100
  else
    q ← int_truediv (current self) (total self);
    Ok (Float.trunc (float_mul_int q 100)).

(** The local [filled_width] of [_render]. *)
Definition filled_width (self : t) : result Z :=
  if 0 <? total self then
    q ← int_truediv (current self) (total self);
    Ok (Float.trunc (float_mul_int q (width self)))
  else Ok 0.

(** The fill glyph and the empty glyph of the style. *)
Definition glyphs (st : ProgressStyle) : result (string * string) :=
  if decide (st = GRADIENT) then
    match ProgressStyle_value st with
    | [fill_char; empty1; empty2; empty3] => Ok (fill_char, empty3)
    | _ => Raise ValueError
    end
  else
    match ProgressStyle_value st with
    | [fill_char; empty_char] => Ok (fill_char, empty_char)
    | _ => Raise ValueError
    end.

(** The bar body of [_render]: [(filled, empty)]. *)
Definition bar_body (self : t) : result (list string * list string) :=
  fw ← filled_width self;
  '(fill_char, empty_char) ← glyphs (style self);
  Ok (str_repeat fill_char fw, str_repeat empty_char (width self - fw)).

Definition _render (self : t) (w : World) : result World :=
  pct ← percentage self;
  '(filled, empty) ← bar_body self;
  let th := TerminalUI.theme (ui self) in
  let color := TerminalUI.theme_get th (color_key self) (TerminalUI.primary th) in
  let success_color := TerminalUI.success th in
  let bar_color := if current self =? total self then success_color else color in
  let parts := [PLabel (String.append (message self) ":"); PBar bar_color filled empty] in
  let parts := if show_percentage self then parts ++ [PPercent pct] else parts in
  '(parts, w) ←
    (if show_eta self && (0 <? current self) then
       let '(now, w) := time_time w in
       let elapsed := Float.sub now (start_time self) in
       if current self <? total self then
         r ← float_div_int elapsed (current self);
         Ok (parts ++ [PEta (float_mul_int r (total self - current self))], w)
       else Ok (parts ++ [PDone elapsed], w)
     else Ok (parts, w));
  let parts := parts ++ [PCount (current self) (total self)] in
  let w := TerminalUI.clear_line (ui self) w in
  Ok (emit (WriteLine parts) w).

Definition update (amount : Z) (self : t) (w : World) : result (t * World) :=
  let self := set_current (Z.min (current self + amount) (total self)) self in
  let '(current_time, w) := time_time w in
  if Float.ltb (Float.sub current_time (last_update self)) (Float.round (5 # 100))
     && (current self <? total self)
  then Ok (self, w)
  else
    let self := set_last_update current_time self in
    w ← _render self w;
    Ok (self, w).

Definition set_progress (current : Z) (self : t) (w : World) : result (t * World) :=
  let self := set_current (Z.min (Z.max 0 current) (total self)) self in
  w ← _render self w;
  Ok (self, w).

Definition finish (self : t) (w : World) : result (t * World) :=
  let self := set_current (total self) self in
  w ← _render self w;
  Ok (self, emit Newline w).

(** The line that [_render] writes, from the values of its locals:
    [pct] is [percentage], [filled] and [empty] the two runs of the bar,
    [tail] the part for the time (none, the ETA, or the "Done" indicator). *)
Definition line (self : t) (pct : Z) (filled empty : list string)
    (tail : list part) : list part :=
  let th := TerminalUI.theme (ui self) in
  [PLabel (String.append (message self) ":");
   PBar (if current self =? total self then TerminalUI.success th
         else TerminalUI.theme_get th (color_key self) (TerminalUI.primary th))
        filled empty]
  ++ (if show_percentage self then [PPercent pct] else [])
  ++ tail ++ [PCount (current self) (total self)].

(** What [tail] can be. *)
Definition time_part (self : t) (tail : list part) : Prop :=
  (tail = [] /\ (show_eta self && (0 <? current self)) = false) \/
  (exists x, tail = [PEta x] /\ 0 < current self < total self) \/
  (exists x, tail = [PDone x] /\ total self <= current self).

(** [self] with [current] and [last_update] replaced: the two attributes
    that [update], [set_progress] and [finish] assign. *)
Definition touched (c : Z) (x : Float.float) (self : t) : t :=
  set_last_update x (set_current c self).

(** The value of [current] after the loop [updates] below. *)
Definition clamp_sum (total : Z) (amounts : list Z) (c : Z) : Z :=
  fold_left (fun c a => Z.min (c + a) total) amounts c.

(** The caller's loop [for a in amounts: pbar.update(a)]. *)
Fixpoint updates (amounts : list Z) (self : t) (w : World) : result (t * World) :=
  match amounts with
  | [] => Ok (self, w)
  | a :: rest => '(self, w) ← update a self w; updates rest self w
  end.

End ProgressBar.

(** ** MultiProgress *)

Module MultiProgress.

(** [ManagedProgressBar(ProgressBar)]: a progress bar that also has a [name]. *)
Record ManagedProgressBar : Type := mkManaged {
  base : ProgressBar.t;
  name : string
}.

(** The keyword arguments that [add_progress] passes on: the four that
    [ProgressBar.__init__] knows, an absent one being [None], and the
    names of the others. *)
Record kwargs : Type := mkKwargs {
  kw_width : option (option Z);
  kw_show_percentage : option bool;
  kw_show_eta : option bool;
  kw_color_key : option string;
  kw_other : list string
}.

(** The bars are objects: [heap] holds the ones allocated so far and a
    reference is an index into it.  The caller who received a bar from
    [add_progress] and the registry share the object. *)
Abbreviation heap := (list ManagedProgressBar).

Record t : Type := mk {
  ui : TerminalUI.t;
  progress_bars : list (string * nat)   (* the dict, in insertion order *)
}.

Definition __init__ (ui : TerminalUI.t) : t := mk ui [].

(** [d[k] = v]: an existing key keeps its place. *)
Fixpoint dict_set (d : list (string * nat)) (k : string) (v : nat) : list (string * nat) :=
  match d with
  | [] => [(k, v)]
  | (k', v') :: rest =>
      if String.eqb k' k then (k', v) :: rest else (k', v') :: dict_set rest k v
  end.

(** [k in d] *)
Definition dict_contains (d : list (string * nat)) (k : string) : bool :=
  existsb (fun kv => String.eqb (fst kv) k) d.

(** [del d[k]] for a key that is present. *)
Fixpoint dict_del (d : list (string * nat)) (k : string) : list (string * nat) :=
  match d with
  | [] => []
  | (k', v') :: rest =>
      if String.eqb k' k then rest else (k', v') :: dict_del rest k
  end.

(** [ManagedProgressBar(ui, name, message, total, style, **kwargs)]:
    [ProgressBar.__init__] has no default for its last four parameters
    and takes no other keyword. *)
Definition ManagedProgressBar__init__ (ui : TerminalUI.t) (name message : string)
    (total : Z) (style : ProgressStyle) (kw : kwargs) (w : World)
    : result (ManagedProgressBar * World) :=
  match kw_width kw, kw_show_percentage kw, kw_show_eta kw, kw_color_key kw,
        kw_other kw with
  | Some width, Some show_percentage, Some show_eta, Some color_key, [] =>
      '(pb, w) ← ProgressBar.__init__ ui message total style width
                   show_percentage show_eta color_key w;
      Ok (mkManaged pb name, w)
  | _, _, _, _, _ => Raise TypeError
  end.

Definition add_progress (name message : string) (total : Z) (style : ProgressStyle)
    (kw : kwargs) (self : t) (h : heap) (w : World)
    : result nat * t * heap * World :=
  let w := emit LockAcquire w in
  match ManagedProgressBar__init__ (ui self) name message total style kw w with
  | Ok (pbar, w) =>
      let r := length h in
      (Ok r, mk (ui self) (dict_set (progress_bars self) name r), h ++ [pbar],
       emit LockRelease w)
  | Raise e => (Raise e, self, h, emit LockRelease w)
  end.

Definition remove_progress (name : string) (self : t) (w : World) : t * World :=
  let w := emit LockAcquire w in
  let self := if dict_contains (progress_bars self) name
              then mk (ui self) (dict_del (progress_bars self) name)
              else self in
  (self, emit LockRelease w).

(** The first loop of [render_all]: [n] times [move_up(1); clear_line()]. *)
Fixpoint clear_lines (ui : TerminalUI.t) (n : nat) (w : World) : World :=
  match n with
  | O => w
  | S n => clear_lines ui n (TerminalUI.clear_line ui (TerminalUI.move_up ui 1 w))
  end.

(** The second loop of [render_all], over the values of the dict. *)
Fixpoint render_each (h : heap) (refs : list nat) (w : World) : result unit * World :=
  match refs with
  | [] => (Ok tt, w)
  | r :: rest =>
      match h !! r with
      | None => (Raise IndexError, w)
      | Some pbar =>
          match ProgressBar._render (base pbar) w with
          | Raise e => (Raise e, w)
          | Ok w => render_each h rest (emit Newline w)
          end
      end
  end.

Definition render_all (self : t) (h : heap) (w : World) : result unit * World :=
  let w := emit LockAcquire w in
  let w := clear_lines (ui self) (length (progress_bars self)) w in
  let '(r, w) := render_each h (map snd (progress_bars self)) w in
  (r, emit LockRelease w).

(** A call [pbar.update(amount)] by the caller who holds the reference [r]. *)
Definition bar_update (r : nat) (amount : Z) (h : heap) (w : World)
    : result (heap * World) :=
  match h !! r with
  | None => Raise IndexError
  | Some pbar =>
      '(pb, w) ← ProgressBar.update amount (base pbar) w;
      Ok (<[r := mkManaged pb (name pbar)]> h, w)
  end.

(** A call [pbar.set_progress(current)] by the caller who holds [r]. *)
Definition bar_set_progress (r : nat) (current : Z) (h : heap) (w : World)
    : result (heap * World) :=
  match h !! r with
  | None => Raise IndexError
  | Some pbar =>
      '(pb, w) ← ProgressBar.set_progress current (base pbar) w;
      Ok (<[r := mkManaged pb (name pbar)]> h, w)
  end.

(** The bars of the registry, in its order. *)
Definition registered (self : t) (h : heap) : list (option ManagedProgressBar) :=
  map (fun kv => h !! snd kv) (progress_bars self).

(** Every value of the dict is an allocated object. *)
Definition wf (self : t) (h : heap) : Prop :=
  Forall (fun kv => (snd kv < length h)%nat) (progress_bars self).

(** [n] times "move up one line, clear it". *)
Definition move_up_and_clear (n : nat) : list event :=
  concat (replicate n [MoveUp 1; ClearLine]).

(** The repaint of the lines [ls]: each cleared, written, and ended by a
    newline. *)
Definition repaint (ls : list (list part)) : list event :=
  concat (map (fun l => [ClearLine; WriteLine l; Newline]) ls).

(** [l] is a line of the bar behind [kv] in the heap [h]. *)
Definition line_of (h : heap) (l : list part) (kv : string * nat) : Prop :=
  exists pbar pct filled empty tail,
    h !! snd kv = Some pbar /\
    l = ProgressBar.line (base pbar) pct filled empty tail.

(** How many [MoveUp] and how many [Newline] a list of events has. *)
Fixpoint move_ups (l : list event) : nat :=
  match l with
  | [] => O
  | MoveUp _ :: rest => S (move_ups rest)
  | _ :: rest => move_ups rest
  end.

Fixpoint newlines (l : list event) : nat :=
  match l with
  | [] => O
  | Newline :: rest => S (newlines rest)
  | _ :: rest => newlines rest
  end.

End MultiProgress.

(** ** The scoped spinner: [TerminalUI.spinner] *)

Module Scoped.

(** Calls of [start()] and [stop()] on a spinner, logged by reference. *)
Inductive call : Type :=
| CallStart (r : nat)
| CallStop (r : nat).

(** The part of the process that a spinner block touches.  Spinners are
    objects: [spinners] holds the ones allocated so far, a reference is an
    index into it, and [_active_spinners] is the list of the [TerminalUI]. *)
Record Proc : Type := mkProc {
  spinners : list Spinner.t;
  _active_spinners : list nat;
  world : World;
  calls : list call
}.

(** A computation on the process that returns or raises. *)
Definition M (A : Type) : Type := Proc -> result A * Proc.

#[global] Instance M_ret : MRet M := fun A a p => (Ok a, p).

#[global] Instance M_bind : MBind M := fun A B k m p =>
  match m p with
  | (Ok a, p) => k a p
  | (Raise e, p) => (Raise e, p)
  end.

Definition raise {A : Type} (e : exn) : M A := fun p => (Raise e, p).

(** [try: body finally: fin] *)
Definition try_finally {A : Type} (body : M A) (fin : M unit) : M A := fun p =>
  let '(r, p) := body p in
  match fin p with
  | (Ok _, p) => (r, p)
  | (Raise e, p) => (Raise e, p)
  end.

Definition log (c : call) : M unit := fun p =>
  (Ok tt, mkProc (spinners p) (_active_spinners p) (world p) (calls p ++ [c])).

(** Apply a method of [Spinner] to the object behind the reference [r]. *)
Definition on_spinner (r : nat) (f : Spinner.t -> World -> Spinner.t * World) : M unit :=
  fun p =>
    match spinners p !! r with
    | None => (Raise IndexError, p)
    | Some s =>
        let '(s, w) := f s (world p) in
        (Ok tt, mkProc (<[r := s]> (spinners p)) (_active_spinners p) w (calls p))
    end.

Definition start (r : nat) : M unit := log (CallStart r);; on_spinner r Spinner.start.

Definition stop (r : nat) : M unit := log (CallStop r);; on_spinner r Spinner.stop.

(** [Spinner(...)]: a new object; its reference is returned. *)
Definition new_spinner (s : Spinner.t) : M nat := fun p =>
  (Ok (length (spinners p)),
   mkProc (spinners p ++ [s]) (_active_spinners p) (world p) (calls p)).

(** [self._active_spinners.append(r)] *)
Definition active_append (r : nat) : M unit := fun p =>
  (Ok tt, mkProc (spinners p) (_active_spinners p ++ [r]) (world p) (calls p)).

(** [l.remove(x)]: the first occurrence goes; [None] when there is none. *)
Fixpoint list_remove (x : nat) (l : list nat) : option (list nat) :=
  match l with
  | [] => None
  | y :: rest =>
      if Nat.eqb y x then Some rest
      else match list_remove x rest with
           | Some rest' => Some (y :: rest')
           | None => None
           end
  end.

(** [self._active_spinners.remove(r)] *)
Definition active_remove (r : nat) : M unit := fun p =>
  match list_remove r (_active_spinners p) with
  | Some l => (Ok tt, mkProc (spinners p) l (world p) (calls p))
  | None => (Raise ValueError, p)
  end.

(** [with ui.spinner(message, style, color_key, suffix) as sp: body(sp)].
    The generator of the source runs up to its [yield] on entry; the block
    [body] then runs at the [yield], inside the [try]; on exit of the block,
    normal or not, the generator is resumed and its [finally] runs; a
    failure of the block is raised again after it. *)
Definition spinner {A : Type} (ui : TerminalUI.t) (message : string)
    (style : SpinnerStyle) (color_key suffix : string) (body : nat -> M A) : M A :=
  spinner_obj ← new_spinner (Spinner.__init__ ui message style color_key suffix);
  active_append spinner_obj;;
  try_finally
    (start spinner_obj;; body spinner_obj)
    (stop spinner_obj;; active_remove spinner_obj).

(** Blocks: what the caller's code does with the spinner it was given, and
    how it ends. *)
Inductive stmt : Type :=
| SStart                          (* sp.start() *)
| SStop                           (* sp.stop() *)
| SUpdateMessage (m : string)     (* sp.update_message(m) *)
| SUpdateSuffix (s : string)      (* sp.update_suffix(s) *)
| SPrint.                         (* print() *)

Inductive ending : Type :=
| FallsThrough                    (* the block runs to its end *)
| Returns (v : Z)                 (* return v, from inside the block *)
| Raises (e : exn).               (* the block raises e *)

Definition run_stmt (r : nat) (s : stmt) : M unit :=
  match s with
  | SStart => start r
  | SStop => stop r
  | SUpdateMessage m => on_spinner r (fun s w => (Spinner.update_message m s, w))
  | SUpdateSuffix x => on_spinner r (fun s w => (Spinner.update_suffix x s, w))
  | SPrint => fun p =>
      (Ok tt, mkProc (spinners p) (_active_spinners p) (emit Newline (world p)) (calls p))
  end.

Fixpoint run_stmts (r : nat) (l : list stmt) : M unit :=
  match l with
  | [] => mret tt
  | s :: rest => run_stmt r s;; run_stmts r rest
  end.

(** The value of a block: [None] when it runs to its end, [Some v] for
    [return v]. *)
Definition run_block (l : list stmt) (e : ending) (r : nat) : M (option Z) :=
  run_stmts r l;;
  match e with
  | FallsThrough => mret None
  | Returns v => mret (Some v)
  | Raises x => raise x
  end.

(** What the caller of the block sees. *)
Definition outcome (e : ending) : result (option Z) :=
  match e with
  | FallsThrough => Ok None
  | Returns v => Ok (Some v)
  | Raises x => Raise x
  end.

(** How many times [stop()] was called on [r], by the log. *)
Fixpoint count_stops (r : nat) (l : list call) : nat :=
  match l with
  | [] => O
  | CallStop r' :: rest =>
      if Nat.eqb r' r then S (count_stops r rest) else count_stops r rest
  | CallStart _ :: rest => count_stops r rest
  end.

(** How many [sp.stop()] a block contains. *)
Fixpoint count_SStop (l : list stmt) : nat :=
  match l with
  | [] => O
  | SStop :: rest => S (count_SStop rest)
  | _ :: rest => count_SStop rest
  end.

End Scoped.

(** ** Sample objects *)

Module Sample.

Definition theme : TerminalUI.Theme :=
  TerminalUI.mkTheme "white" "cyan" "green" "yellow" "red" "bright-red"
    "blue" "magenta" "grey" "bright".

Definition ui : TerminalUI.t := TerminalUI.mk theme 1%Q false 80.

(** A world where nothing has happened yet: the clock advances by one
    second at each reading, threads are found alive, and the [n]-th draw
    is [n]. *)
Definition world : World :=
  mkWorld [] (fun n => inject_Z (Z.of_nat n)) (fun _ => true) (fun n => n) 0 0.

(** A bar as [ProgressBar(ui, "job", total, BLOCKS, width, True, True, "accent")]
    leaves it, built at time 0. *)
Definition bar (total width : Z) : ProgressBar.t :=
  ProgressBar.mk ui "job" total PBLOCKS width true true "accent" 0 0%Q 0%Q.

Definition spinner (style : SpinnerStyle) : Spinner.t :=
  Spinner.__init__ ui "Loading..." style "accent" "".

Definition kw : MultiProgress.kwargs :=
  MultiProgress.mkKwargs (Some (Some 10)) (Some true) (Some false) (Some "accent") [].

Definition proc : Scoped.Proc := Scoped.mkProc [] [] world [].

(** One bar is registered and painted; two more are registered; all are
    painted.  The value is what each of the two [render_all()] did. *)
Definition two_renders : option (list event * list event) :=
  let mp := MultiProgress.__init__ ui in
  match MultiProgress.add_progress "a" "first" 10 PBLOCKS kw mp [] world with
  | (Ok _, mp, h, w0) =>
      let '(_, w1) := MultiProgress.render_all mp h w0 in
      match MultiProgress.add_progress "b" "second" 10 PBLOCKS kw mp h w1 with
      | (Ok _, mp, h, w2) =>
          match MultiProgress.add_progress "c" "third" 10 PBLOCKS kw mp h w2 with
          | (Ok _, mp, h, w3) =>
              let '(_, w4) := MultiProgress.render_all mp h w3 in
              Some (drop (length (out w0)) (out w1), drop (length (out w3)) (out w4))
          | _ => None
          end
      | _ => None
      end
  | _ => None
  end.

End Sample.

(** ** Reading the terminal *)

(** Whether the cursor shows after the events [evs], when it showed
    before them. *)
Definition cursor_visible (evs : list event) : bool :=
  fold_left (fun v e => match e with
                        | HideCursor => false
                        | ShowCursor => true
                        | _ => v
                        end) evs true.

(** What a bar that is painted [lines] times in place sends: each time
    the line is cleared and written again. *)
Definition paints (lines : list (list part)) : list event :=
  concat (map (fun l => [ClearLine; WriteLine l]) lines).

(** ** Driving a registry *)

(** [d.get(k)] *)
Fixpoint dict_get (d : list (string * nat)) (k : string) : option nat :=
  match d with
  | [] => None
  | (k', v) :: rest => if String.eqb k' k then Some v else dict_get rest k
  end.

(** The keyword arguments are the four of [ProgressBar.__init__], all of
    them and no other. *)
Definition kw_complete (kw : MultiProgress.kwargs) : bool :=
  match MultiProgress.kw_width kw, MultiProgress.kw_show_percentage kw,
        MultiProgress.kw_show_eta kw, MultiProgress.kw_color_key kw,
        MultiProgress.kw_other kw with
  | Some _, Some _, Some _, Some _, [] => true
  | _, _, _, _, _ => false
  end.

(** Calls of [add_progress] and [remove_progress], one after the other; a
    call of [add_progress] that raises is caught by the caller. *)
Inductive mp_op : Type :=
| Add (name message : string) (total : Z) (style : ProgressStyle)
      (kw : MultiProgress.kwargs)
| Remove (name : string).

Fixpoint mp_run (ops : list mp_op) (self : MultiProgress.t)
    (h : list MultiProgress.ManagedProgressBar) (w : World)
    : MultiProgress.t * list MultiProgress.ManagedProgressBar * World :=
  match ops with
  | [] => (self, h, w)
  | Add name message total style kw :: rest =>
      let '(_, self, h, w) :=
        MultiProgress.add_progress name message total style kw self h w in
      mp_run rest self h w
  | Remove name :: rest =>
      let '(self, w) := MultiProgress.remove_progress name self w in
      mp_run rest self h w
  end.

(** The invariant of the registry: names are registered once, the bars
    behind them are distinct objects, and all are allocated. *)
Definition registry_ok (self : MultiProgress.t) (h : MultiProgress.heap) : Prop :=
  NoDup (map fst (MultiProgress.progress_bars self)) /\
  NoDup (map snd (MultiProgress.progress_bars self)) /\
  MultiProgress.wf self h.

(** ** TerminalUI: construction, themes, [colorize] *)

Module UIInit.

(** The colour constants the module takes from [colorama], or, when it is
    not installed, from the mock classes, where every one is [""]. *)
Record Palette : Type := mkPalette {
  F_RED : string; F_GREEN : string; F_YELLOW : string; F_BLUE : string;
  F_MAGENTA : string; F_CYAN : string; F_WHITE : string;
  F_LIGHTRED_EX : string; F_LIGHTGREEN_EX : string; F_LIGHTYELLOW_EX : string;
  F_LIGHTBLUE_EX : string; F_LIGHTMAGENTA_EX : string; F_LIGHTCYAN_EX : string;
  F_LIGHTWHITE_EX : string; F_LIGHTBLACK_EX : string;
  B_BLACK : string; B_YELLOW : string;
  S_BRIGHT : string; S_DIM : string; S_NORMAL : string; S_RESET_ALL : string
}.

(** [MockFore], [MockBack], [MockStyle] *)
Definition mock : Palette :=
  mkPalette "" "" "" "" "" "" "" "" "" "" "" "" "" "" "" "" "" "" "" "" "".

(** One entry of [THEMES], as the dict it is in the source. *)
Definition theme_dict : Type := list (string * string).

Definition app3 (a b c : string) : string := String.append (String.append a b) c.

(** [TerminalUI.THEMES] *)
Definition THEMES (c : Palette) : list (string * theme_dict) :=
  [("default",
    [("primary", F_WHITE c); ("secondary", F_CYAN c); ("success", F_GREEN c);
     ("warning", F_YELLOW c); ("error", F_RED c);
     ("critical", String.append (F_RED c) (S_BRIGHT c)); ("info", F_BLUE c);
     ("accent", F_MAGENTA c); ("muted", F_LIGHTBLACK_EX c);
     ("highlight", S_BRIGHT c)]);
   ("matrix",
    [("primary", F_GREEN c); ("secondary", F_LIGHTGREEN_EX c);
     ("success", String.append (F_GREEN c) (S_BRIGHT c));
     ("warning", String.append (F_YELLOW c) (S_DIM c));
     ("error", String.append (F_RED c) (B_BLACK c));
     ("critical", app3 (F_RED c) (S_BRIGHT c) (B_BLACK c));
     ("info", String.append (F_GREEN c) (S_DIM c));
     ("accent", F_LIGHTGREEN_EX c); ("muted", F_LIGHTBLACK_EX c);
     ("highlight", String.append (F_GREEN c) (S_BRIGHT c))]);
   ("cyberpunk",
    [("primary", F_LIGHTCYAN_EX c); ("secondary", F_LIGHTMAGENTA_EX c);
     ("success", F_LIGHTGREEN_EX c); ("warning", F_LIGHTYELLOW_EX c);
     ("error", String.append (F_RED c) (B_YELLOW c));
     ("critical", String.append (F_LIGHTRED_EX c) (S_BRIGHT c));
     ("info", F_LIGHTBLUE_EX c); ("accent", F_LIGHTRED_EX c);
     ("muted", F_LIGHTBLACK_EX c);
     ("highlight", String.append (F_LIGHTCYAN_EX c) (S_BRIGHT c))]);
   ("retro",
    [("primary", F_YELLOW c); ("secondary", F_CYAN c); ("success", F_GREEN c);
     ("warning", F_YELLOW c); ("error", F_RED c);
     ("critical", String.append (F_RED c) (S_BRIGHT c)); ("info", F_BLUE c);
     ("accent", F_MAGENTA c); ("muted", F_LIGHTBLACK_EX c);
     ("highlight", String.append (F_YELLOW c) (S_BRIGHT c))]);
   ("minimal",
    [("primary", F_WHITE c); ("secondary", F_WHITE c); ("success", F_WHITE c);
     ("warning", F_WHITE c); ("error", F_RED c); ("critical", F_RED c);
     ("info", F_LIGHTBLACK_EX c); ("accent", F_WHITE c);
     ("muted", F_LIGHTBLACK_EX c); ("highlight", S_BRIGHT c)]);
   ("ocean",
    [("primary", F_CYAN c); ("secondary", F_BLUE c); ("success", F_GREEN c);
     ("warning", F_YELLOW c); ("error", F_RED c);
     ("critical", String.append (F_RED c) (S_BRIGHT c));
     ("info", F_LIGHTBLUE_EX c); ("accent", F_LIGHTCYAN_EX c);
     ("muted", F_LIGHTBLACK_EX c);
     ("highlight", String.append (F_CYAN c) (S_BRIGHT c))]);
   ("sunset",
    [("primary", F_LIGHTYELLOW_EX c); ("secondary", F_LIGHTRED_EX c);
     ("success", F_GREEN c); ("warning", F_YELLOW c); ("error", F_RED c);
     ("critical", String.append (F_RED c) (S_BRIGHT c));
     ("info", F_LIGHTMAGENTA_EX c); ("accent", F_LIGHTYELLOW_EX c);
     ("muted", F_LIGHTBLACK_EX c);
     ("highlight", String.append (F_LIGHTYELLOW_EX c) (S_BRIGHT c))]);
   ("neon",
    [("primary", F_LIGHTMAGENTA_EX c); ("secondary", F_LIGHTCYAN_EX c);
     ("success", F_LIGHTGREEN_EX c); ("warning", F_LIGHTYELLOW_EX c);
     ("error", F_LIGHTRED_EX c);
     ("critical", String.append (F_LIGHTRED_EX c) (S_BRIGHT c));
     ("info", F_LIGHTBLUE_EX c); ("accent", F_LIGHTMAGENTA_EX c);
     ("muted", F_LIGHTBLACK_EX c);
     ("highlight", String.append (F_LIGHTMAGENTA_EX c) (S_BRIGHT c))])].

(** [d.get(k)] on a dict with string keys. *)
Fixpoint lookup {A : Type} (d : list (string * A)) (k : string) : option A :=
  match d with
  | [] => None
  | (k', v) :: rest => if String.eqb k' k then Some v else lookup rest k
  end.

(** [d[k]]; [None] stands for the KeyError of an absent key. *)
Definition index {A : Type} (d : list (string * A)) (k : string) : option A :=
  lookup d k.

(** The theme as the record that the other classes read, when the dict
    has the ten keys. *)
Definition theme_of_dict (d : theme_dict) : option TerminalUI.Theme :=
  match lookup d "primary", lookup d "secondary", lookup d "success",
        lookup d "warning", lookup d "error", lookup d "critical",
        lookup d "info", lookup d "accent", lookup d "muted",
        lookup d "highlight" with
  | Some a, Some b, Some c, Some d0, Some e, Some f, Some g, Some h, Some i, Some j =>
      Some (TerminalUI.mkTheme a b c d0 e f g h i j)
  | _, _, _, _, _, _, _, _, _, _ => None
  end.

(** The enumeration [Theme] and its values. *)
Inductive ThemeName : Type :=
| T_DEFAULT | T_MATRIX | T_CYBERPUNK | T_RETRO | T_MINIMAL | T_OCEAN
| T_SUNSET | T_NEON.

Definition ThemeName_value (t : ThemeName) : string :=
  match t with
  | T_DEFAULT => "default" | T_MATRIX => "matrix" | T_CYBERPUNK => "cyberpunk"
  | T_RETRO => "retro" | T_MINIMAL => "minimal" | T_OCEAN => "ocean"
  | T_SUNSET => "sunset" | T_NEON => "neon"
  end.

(** [self.THEMES.get(self.theme_name, self.THEMES['default'])] *)
Definition select_theme (c : Palette) (theme_name : string) : option theme_dict :=
  default ← index (THEMES c) "default";
  Some (match lookup (THEMES c) theme_name with
        | Some d => d
        | None => default
        end).

(** [max(0.1, speed_factor)]: the first argument stays unless the second
    is greater. *)
Definition clamp_speed (speed_factor : Float.float) : Float.float :=
  if Float.ltb (Float.round (1 # 10)) speed_factor then speed_factor
  else Float.round (1 # 10).

(** What [__init__] keeps of the terminal: [columns] is what
    [shutil.get_terminal_size()] answered, [None] when it failed and the
    fallback of 80 columns applies. *)
Definition terminal_width (columns : option Z) : Z :=
  match columns with
  | Some c => c
  | None => 80
  end.

(** [TerminalUI(theme, speed_factor, debug, width)]; [theme] is a name or
    a member of [Theme].  The value is the dict of the theme and the
    interface as the other classes read it; [None] stands for a KeyError. *)
Definition __init__ (c : Palette) (theme : string + ThemeName)
    (speed_factor : Float.float) (debug : bool) (width : option Z)
    (columns : option Z) : option (theme_dict * TerminalUI.t) :=
  let theme_name := match theme with
                    | inl name => name
                    | inr t => ThemeName_value t
                    end in
  d ← select_theme c theme_name;
  th ← theme_of_dict d;
  Some (d, TerminalUI.mk th (clamp_speed speed_factor) debug
             (match width with
              | Some w => if w =? 0 then terminal_width columns else w
              | None => terminal_width columns
              end)).

(** [colorize(text, color_key)], on the dict of the theme. *)
Definition colorize (c : Palette) (d : theme_dict) (text color_key : string)
    : option string :=
  primary ← index d "primary";
  let color := match lookup d color_key with
               | Some x => x
               | None => primary
               end in
  Some (app3 color text (S_RESET_ALL c)).

End UIInit.

(** ** The scoped progress bar: [TerminalUI.progress] and its callers *)

Module ProgressScope.

(** The bar of the block, an object that the block and the manager
    share, and the world. *)
Record PState : Type := mkP {
  pbar : ProgressBar.t;
  world : World
}.

Definition M (A : Type) : Type := PState -> result A * PState.

#[global] Instance M_ret : MRet M := fun A a st => (Ok a, st).

#[global] Instance M_bind : MBind M := fun A B k m st =>
  match m st with
  | (Ok a, st) => k a st
  | (Raise e, st) => (Raise e, st)
  end.

(** [try: body finally: fin] *)
Definition try_finally {A : Type} (body : M A) (fin : M unit) : M A := fun st =>
  let '(r, st) := body st in
  match fin st with
  | (Ok _, st) => (r, st)
  | (Raise e, st) => (Raise e, st)
  end.

(** A method of the bar, called on the shared object. *)
Definition call (f : ProgressBar.t -> World -> result (ProgressBar.t * World)) : M unit :=
  fun st =>
    match f (pbar st) (world st) with
    | Ok (b, w) => (Ok tt, mkP b w)
    | Raise e => (Raise e, st)
    end.

(** [time.sleep(seconds)]: ValueError for a negative argument. *)
Definition sleep (seconds : Float.float) : M unit := fun st =>
  if Float.ltb seconds 0%Q then (Raise ValueError, st)
  else (Ok tt, mkP (pbar st) (emit (Sleep seconds) (world st))).

(** The block of [with ui.progress(...) as pbar:], from the [yield] of the
    generator on: [try: yield pbar finally: pbar.finish()]. *)
Definition block {A : Type} (body : M A) : M A :=
  try_finally body (call ProgressBar.finish).

(** [with ui.progress(message, total, style, width, show_percentage,
    show_eta, color_key) as pbar: body]: the bar is constructed, then the
    block runs.  The outer result is that of the construction. *)
Definition progress {A : Type} (ui : TerminalUI.t) (message : string) (total : Z)
    (style : ProgressStyle) (width : option Z) (show_percentage show_eta : bool)
    (color_key : string) (body : M A) (w : World) : result (result A * PState) :=
  '(b, w) ← ProgressBar.__init__ ui message total style width
              show_percentage show_eta color_key w;
  Ok (block body (mkP b w)).

(** What a caller's block does with the bar: the calls that return, in
    order.  A call that raises, as [time.sleep] of a negative number, ends
    the block: it is the ending [Raises] of [run_block]. *)
Inductive stmt : Type :=
| SUpdate (amount : Z)            (* pbar.update(amount) *)
| SSetProgress (current : Z)      (* pbar.set_progress(current) *)
| SFinish                         (* pbar.finish() *)
| SSleep (seconds : Float.float)  (* time.sleep(seconds), which returns *)
| SPrint.                         (* print() *)

Definition run_stmt (s : stmt) : M unit :=
  match s with
  | SUpdate amount => call (ProgressBar.update amount)
  | SSetProgress v => call (ProgressBar.set_progress v)
  | SFinish => call ProgressBar.finish
  | SSleep d => fun st => (Ok tt, mkP (pbar st) (emit (Sleep d) (world st)))
  | SPrint => fun st => (Ok tt, mkP (pbar st) (emit Newline (world st)))
  end.

Fixpoint run_stmts (l : list stmt) : M unit :=
  match l with
  | [] => mret tt
  | s :: rest => run_stmt s;; run_stmts rest
  end.

Definition run_block (l : list stmt) (e : Scoped.ending) : M (option Z) :=
  run_stmts l;;
  match e with
  | Scoped.FallsThrough => mret None
  | Scoped.Returns v => mret (Some v)
  | Scoped.Raises x => fun st => (Raise x, st)
  end.

(** The body of [simple_progress]:
    [for i in range(total): time.sleep(duration / total); pbar.update(1)];
    [n] is the number of turns left. *)
Fixpoint simple_loop (n : nat) (duration : Float.float) (total : Z) : M unit :=
  match n with
  | O => mret tt
  | S n =>
      (fun st => match float_div_int duration total with
                 | Ok d => sleep d st
                 | Raise e => (Raise e, st)
                 end);;
      call (ProgressBar.update 1);;
      simple_loop n duration total
  end.

(** [simple_progress(message, total, style, duration)] *)
Definition simple_progress (ui : TerminalUI.t) (message : string) (total : Z)
    (style : ProgressStyle) (duration : Float.float) (w : World)
    : result (result unit * PState) :=
  progress ui message total style None true true "accent"
    (simple_loop (Z.to_nat total) duration total) w.

(** The download loop of [software_installation_wizard]:
    [while pbar.current < size_mb: time.sleep(0.05);
       remaining = size_mb - pbar.current;
       to_download = min(chunk_size, remaining); pbar.update(to_download)].
    [fuel] bounds the number of turns; the value is [true] when the loop
    has ended and [false] when the bound was reached first. *)
Fixpoint download_loop (fuel : nat) (chunk_size size_mb : Z) : M bool := fun st =>
  if ProgressBar.current (pbar st) <? size_mb then
    match fuel with
    | O => (Ok false, st)
    | S fuel =>
        (sleep (Float.round (5 # 100));;
         call (ProgressBar.update
                 (Z.min chunk_size (size_mb - ProgressBar.current (pbar st))));;
         download_loop fuel chunk_size size_mb) st
    end
  else (Ok true, st).

(** How many times the program slept. *)
Fixpoint sleeps (l : list event) : nat :=
  match l with
  | [] => O
  | Sleep _ :: rest => S (sleeps rest)
  | _ :: rest => sleeps rest
  end.

End ProgressScope.

(** ** Interrupts: [TerminalUI._cleanup] *)

Module Cleanup.
Import Scoped.

(** [for spinner in self._active_spinners: spinner._stop()] *)
Fixpoint stop_all (refs : list nat) : M unit :=
  match refs with
  | [] => mret tt
  | r :: rest => on_spinner r Spinner._stop;; stop_all rest
  end.

(** [self.show_cursor()] *)
Definition show_cursor (ui : TerminalUI.t) : M unit := fun p =>
  (Ok tt, mkProc (spinners p) (_active_spinners p)
            (TerminalUI.show_cursor ui (world p)) (calls p)).

Definition _cleanup (ui : TerminalUI.t) : M unit := fun p =>
  (stop_all (_active_spinners p);; show_cursor ui) p.

End Cleanup.

(** ** Boxes and tables *)

Module Layout.

(** A Python [str] as the list of its characters, each held as the string
    of its bytes, so that [len] is the length of the list. *)
Abbreviation text := (list string).

Definition len (s : text) : Z := Z.of_nat (length s).

(** [c * n] for a character [c] *)
Definition times (c : string) (n : Z) : text := replicate (Z.to_nat n) c.

(** [s.ljust(w)], which is also the format [{s:<{w}}] *)
Definition ljust (s : text) (w : Z) : text := s ++ times " " (w - len s).

(** [s.center(w)]: the odd space goes to the left when [w] is odd. *)
Definition center (s : text) (w : Z) : text :=
  if w <=? len s then s
  else
    let marg := w - len s in
    let left := marg / 2 + Z.land (Z.land marg w) 1 in
    times " " left ++ s ++ times " " (marg - left).

(** [sep.join(l)] *)
Fixpoint join (sep : text) (l : list text) : text :=
  match l with
  | [] => []
  | [x] => x
  | x :: rest => x ++ sep ++ join sep rest
  end.

(** The six glyphs of a border style: [tl, tr, bl, br, h, v]. *)
Record border : Type := mkBorder {
  tl : string; tr : string; bl : string; br : string; h : string; v : string
}.

(** [borders.get(border_style, borders["single"])] *)
Definition borders_get (border_style : string) : border :=
  if String.eqb border_style "single" then mkBorder "┌" "┐" "└" "┘" "─" "│"
  else if String.eqb border_style "double" then mkBorder "╔" "╗" "╚" "╝" "═" "║"
  else if String.eqb border_style "rounded" then mkBorder "╭" "╮" "╰" "╯" "─" "│"
  else if String.eqb border_style "thick" then mkBorder "┏" "┓" "┗" "┛" "━" "┃"
  else mkBorder "┌" "┐" "└" "┘" "─" "│".

(** [max(len(line) for line in content) if content else 0] *)
Definition max_content_width (content : list text) : Z :=
  fold_right (fun line m => Z.max (len line) m) 0 content.

(** The local [box_width] of [box]. *)
Definition box_width (content : list text) (title : text) : Z :=
  Z.max (max_content_width content) (len title) + 4.

(** [box(content, title, border_style, color_key)]: the texts it prints,
    in order, each through [colorize(_, color_key)]. *)
Definition box (content : list text) (title : text) (border_style : string)
    : list text :=
  let b := borders_get border_style in
  let bw := box_width content title in
  let title_line :=
    match title with
    | [] => [tl b] ++ times (h b) (bw - 2) ++ [tr b]
    | _ => [tl b; h b; h b; " "] ++ title ++ [" "]
           ++ times (h b) (bw - len title - 6) ++ [tr b]
    end in
  [title_line]
  ++ map (fun line => [v b; " "] ++ ljust line (bw - 4) ++ [" "; v b]) content
  ++ [[bl b] ++ times (h b) (bw - 2) ++ [br b]].

(** The first loop of [table], for one row: [col_widths[i]] grows to the
    length of the [i]-th cell, for the cells that have a column. *)
Fixpoint widen_row (col_widths : list Z) (i : nat) (row : list text) : list Z :=
  match row with
  | [] => col_widths
  | cell :: rest =>
      let col_widths :=
        match col_widths !! i with
        | Some w => <[i := Z.max w (len cell)]> col_widths
        | None => col_widths
        end in
      widen_row col_widths (S i) rest
  end.

Definition col_widths (headers : list text) (rows : list (list text)) : list Z :=
  fold_left (fun ws row => widen_row ws 0 row) rows (map len headers).

(** The local [table_width] of [table]. *)
Definition table_width (headers : list text) (rows : list (list text)) : Z :=
  fold_right Z.add 0 (col_widths headers rows) + (Z.of_nat (length headers) - 1) * 3 + 4.

(** [[str(cell).ljust(col_widths[i]) for i, cell in enumerate(row)]], from
    index [i] on: IndexError when a cell has no column. *)
Fixpoint padded_row (ws : list Z) (i : nat) (row : list text) : result (list text) :=
  match row with
  | [] => Ok []
  | cell :: rest =>
      match ws !! i with
      | None => Raise IndexError
      | Some w =>
          rest' ← padded_row ws (S i) rest;
          Ok (ljust cell w :: rest')
      end
  end.

(** The loop over the rows: the lines printed, and how the loop ended. *)
Fixpoint row_lines (ws : list Z) (rows : list (list text)) : list text * result unit :=
  match rows with
  | [] => ([], Ok tt)
  | row :: rest =>
      match padded_row ws 0 row with
      | Raise e => ([], Raise e)
      | Ok cells =>
          let '(ls, r) := row_lines ws rest in
          ((["│"; " "] ++ join [" "; "│"; " "] cells ++ [" "; "│"]) :: ls, r)
      end
  end.

(** A rule of the table: [left + mid.join("─" * (w + 2) for w in col_widths) + right] *)
Definition rule (left mid right : string) (ws : list Z) : text :=
  [left] ++ join [mid] (map (fun w => times "─" (w + 2)) ws) ++ [right].

(** [table(headers, rows, title, color_key)]: the texts it prints, in
    order, and how it ended.  [zip] stops at the shorter of [headers] and
    [col_widths], which have the same length. *)
Definition table (headers : list text) (rows : list (list text)) (title : text)
    : list text * result unit :=
  match headers, rows with
  | [], _ => ([], Ok tt)
  | _, [] => ([], Ok tt)
  | _, _ =>
      let ws := col_widths headers rows in
      let tw := table_width headers rows in
      let title_lines :=
        match title with
        | [] => []
        | _ => [center title tw; times "─" tw]
        end in
      let header_line :=
        ["│"; " "]
        ++ join [" "; "│"; " "] (zip_with ljust headers ws)
        ++ [" "; "│"] in
      let '(ls, r) := row_lines ws rows in
      match r with
      | Raise e => (title_lines ++ [header_line; rule "├" "┼" "┤" ws] ++ ls, Raise e)
      | Ok _ =>
          (title_lines ++ [header_line; rule "├" "┼" "┤" ws] ++ ls
           ++ [rule "└" "┴" "┘" ws], Ok tt)
      end
  end.

End Layout.

(** ** Measuring a table *)

(** [ws'] has the columns of [ws], each at least as wide. *)
Definition widened (ws ws' : list Z) : Prop :=
  length ws' = length ws /\
  forall i w, ws !! i = Some w -> exists w', ws' !! i = Some w' /\ w <= w'.

(** [sum(col_widths)] *)
Definition total_width (ws : list Z) : Z := fold_right Z.add 0 ws.

(* ===================================================================== *)
(** * Part II: properties                                                  *)
(* ===================================================================== *)

(** ** Rounding *)

Module FloatFacts.
Import Float.
Local Open Scope Q_scope.

Lemma pow2_pos (k : Z) : 0 < 2 ^ k.
Proof. apply Qpower_0_lt. reflexivity. Qed.

Lemma pow2_succ (k : Z) : 2 ^ (k + 1) == 2 * 2 ^ k.
Proof. rewrite Qpower_plus by discriminate. simpl. ring. Qed.

Lemma pow2_mono (j k : Z) : (j <= k)%Z -> 2 ^ j <= 2 ^ k.
Proof. intros H. apply Qpower_le_compat_l; [exact H | discriminate]. Qed.

Lemma pow2_inject (k : Z) : (0 <= k)%Z -> inject_Z (2 ^ k) == 2 ^ k.
Proof. intros H. rewrite Zpower_Qpower by exact H. reflexivity. Qed.

(** [flog2] is the binary exponent. *)
Lemma flog2_spec (x : Q) :
  0 < x -> 2 ^ flog2 x <= x /\ x < 2 ^ (flog2 x + 1).
Proof.
  intros Hx. unfold flog2.
  set (a := Z.log2 (Qnum x)). set (b := Z.log2 (Zpos (Qden x))).
  assert (Hn : (0 < Qnum x)%Z).
  { destruct x as [n d]. unfold Qlt in Hx. simpl in *. lia. }
  destruct (Z.log2_spec (Qnum x) Hn) as [Ha1 Ha2]. fold a in Ha1, Ha2.
  destruct (Z.log2_spec (Zpos (Qden x)) eq_refl) as [Hb1 Hb2]. fold b in Hb1, Hb2.
  assert (Ha0 : (0 <= a)%Z) by apply Z.log2_nonneg.
  assert (Hb0 : (0 <= b)%Z) by apply Z.log2_nonneg.
  assert (HxD : x * inject_Z (Zpos (Qden x)) == inject_Z (Qnum x)).
  { destruct x as [n d]. unfold Qeq, Qmult, inject_Z. simpl. lia. }
  assert (HA1 : 2 ^ a <= inject_Z (Qnum x)).
  { rewrite <- pow2_inject by exact Ha0. rewrite <- Zle_Qle. exact Ha1. }
  assert (HA2 : inject_Z (Qnum x) < 2 * 2 ^ a).
  { rewrite <- pow2_succ, <- pow2_inject by lia. rewrite <- Zlt_Qlt. exact Ha2. }
  assert (HB1 : 2 ^ b <= inject_Z (Zpos (Qden x))).
  { rewrite <- pow2_inject by exact Hb0. rewrite <- Zle_Qle. exact Hb1. }
  assert (HB2 : inject_Z (Zpos (Qden x)) < 2 * 2 ^ b).
  { rewrite <- pow2_succ, <- pow2_inject by lia. rewrite <- Zlt_Qlt. exact Hb2. }
  assert (HP : 2 ^ (a - b) * 2 ^ b == 2 ^ a).
  { rewrite <- Qpower_plus by discriminate.
    replace (a - b + b)%Z with a by lia. reflexivity. }
  pose proof (pow2_pos a) as Pa. pose proof (pow2_pos b) as Pb.
  pose proof (pow2_pos (a - b)) as Pk.
  set (D := inject_Z (Zpos (Qden x))) in *. set (N := inject_Z (Qnum x)) in *.
  destruct (Qle_bool (2 ^ (a - b)) x) eqn:Hc.
  - apply Qle_bool_iff in Hc. split; [exact Hc|].
    rewrite pow2_succ. apply Qnot_le_lt. intros Hge.
    assert (2 * 2 ^ (a - b) * 2 ^ b <= x * D) by nra.
    nra.
  - assert (Hlt : x < 2 ^ (a - b)).
    { apply Qnot_le_lt. intros Hle. apply Qle_bool_iff in Hle. congruence. }
    replace (a - b - 1 + 1)%Z with (a - b)%Z by lia. split; [|exact Hlt].
    assert (Hh : 2 * 2 ^ (a - b - 1) == 2 ^ (a - b)).
    { rewrite <- pow2_succ. replace (a - b - 1 + 1)%Z with (a - b)%Z by lia.
      reflexivity. }
    apply Qnot_lt_le. intros Hlt2.
    assert (x * D < 2 ^ (a - b - 1) * (2 * 2 ^ b)).
    { pose proof (pow2_pos (a - b - 1)). nra. }
    nra.
Qed.

(** In units of its last place, [x > 0] lies in [[2^52, 2^53)]. *)
Lemma scaled_bounds (x : Q) :
  0 < x ->
  let u := 2 ^ (flog2 x - 52) in
  inject_Z (2 ^ 52) * u <= x /\ x < inject_Z (2 ^ 53) * u.
Proof.
  intros Hx u. destruct (flog2_spec x Hx) as [H1 H2].
  assert (E1 : inject_Z (2 ^ 52) * u == 2 ^ flog2 x).
  { unfold u. rewrite pow2_inject by lia. rewrite <- Qpower_plus by discriminate.
    replace (52 + (flog2 x - 52))%Z with (flog2 x) by lia. reflexivity. }
  assert (E2 : inject_Z (2 ^ 53) * u == 2 ^ (flog2 x + 1)).
  { unfold u. rewrite pow2_inject by lia. rewrite <- Qpower_plus by discriminate.
    replace (53 + (flog2 x - 52))%Z with (flog2 x + 1)%Z by lia. reflexivity. }
  rewrite E1, E2. split; assumption.
Qed.

(** [rnd_pos x] is one of the two neighbours of [x] on the grid of its
    binade, and the lower one when [x] is on the grid. *)
Lemma rnd_pos_cases (x : Q) :
  0 < x ->
  let u := 2 ^ (flog2 x - 52) in
  let n := Qfloor (x / u) in
  (2 ^ 52 <= n < 2 ^ 53)%Z /\
  inject_Z n * u <= x /\ x < inject_Z (n + 1) * u /\
  (rnd_pos x = inject_Z n * u \/
   (rnd_pos x = inject_Z (n + 1) * u /\ inject_Z n * u < x)).
Proof.
  intros Hx u n. pose proof (scaled_bounds x Hx) as [Hlo Hhi]. fold u in Hlo, Hhi.
  assert (Hu : 0 < u) by apply pow2_pos.
  assert (Hy : x / u * u == x) by (field; lra).
  pose proof (Qfloor_le (x / u)) as Hf1. pose proof (Qlt_floor (x / u)) as Hf2.
  fold n in Hf1, Hf2.
  assert (Hn1 : inject_Z n * u <= x) by nra.
  assert (Hn2 : x < inject_Z (n + 1) * u) by nra.
  assert (Hb : (2 ^ 52 <= n < 2 ^ 53)%Z).
  { split.
    - assert (H : inject_Z (2 ^ 52) < inject_Z (n + 1)) by nra.
      rewrite <- Zlt_Qlt in H. lia.
    - assert (H : inject_Z n < inject_Z (2 ^ 53)) by nra.
      rewrite <- Zlt_Qlt in H. exact H. }
  repeat split; try assumption; try lia.
  unfold rnd_pos. fold u. fold n.
  destruct (Qcompare_spec (x / u - inject_Z n) (1 # 2)) as [He|Hl|Hg].
  - assert (inject_Z n * u < x) by nra.
    destruct (Z.even n); [left; reflexivity | right; split; [reflexivity | assumption]].
  - left; reflexivity.
  - right. split; [reflexivity | nra].
Qed.

(** Rounding does not step over a representable value. *)
Lemma rnd_pos_le_representable (x b : Q) :
  0 < x -> representable b -> x <= b -> rnd_pos x <= b.
Proof.
  intros Hx (M & E & HM & Hb) Hxb.
  pose proof (rnd_pos_cases x Hx) as (Hn & Hn1 & Hn2 & Hr).
  pose proof (scaled_bounds x Hx) as [Hlo Hhi].
  set (e := (flog2 x - 52)%Z) in *. set (u := 2 ^ e) in *.
  set (n := Qfloor (x / u)) in *.
  assert (Hu : 0 < u) by apply pow2_pos.
  pose proof (pow2_pos E) as HE.
  assert (HM1 : inject_Z (2 ^ 52) <= inject_Z M) by (rewrite <- Zle_Qle; lia).
  assert (HM2 : inject_Z M < inject_Z (2 ^ 53)) by (rewrite <- Zlt_Qlt; lia).
  assert (H2 : inject_Z (2 ^ 53) == 2 * inject_Z (2 ^ 52)) by reflexivity.
  assert (Hup : inject_Z (n + 1) <= inject_Z (2 ^ 53)) by (rewrite <- Zle_Qle; lia).
  assert (Hnn : inject_Z (n + 1) == inject_Z n + 1) by (rewrite inject_Z_plus; reflexivity).
  assert (Hle : rnd_pos x <= inject_Z (n + 1) * u).
  { destruct Hr as [-> | [-> _]]; nra. }
  destruct (Z.lt_trichotomy e E) as [Hlt | [Heq | Hgt]].
  - assert (2 * u <= 2 ^ E).
    { unfold u. rewrite <- pow2_succ. apply pow2_mono. lia. }
    rewrite Hb. nra.
  - assert (HuE : u == 2 ^ E) by (unfold u; rewrite Heq; reflexivity).
    assert (HnM : inject_Z n <= inject_Z M) by nra.
    rewrite <- Zle_Qle in HnM.
    destruct (Z.eq_dec n M) as [Hnm | Hnm].
    + destruct Hr as [-> | [_ Hlt]].
      * rewrite Hb, Hnm. nra.
      * exfalso. rewrite Hnm in Hlt. nra.
    + assert (inject_Z (n + 1) <= inject_Z M) by (rewrite <- Zle_Qle; lia).
      rewrite Hb. nra.
  - exfalso.
    assert (2 * 2 ^ E <= u).
    { unfold u. rewrite <- pow2_succ. apply pow2_mono. lia. }
    nra.
Qed.

Lemma rnd_pos_pos (x : Q) : 0 < x -> 0 < rnd_pos x.
Proof.
  intros Hx. pose proof (rnd_pos_cases x Hx) as (Hn & _ & _ & Hr).
  set (u := 2 ^ (flog2 x - 52)) in *. set (n := Qfloor (x / u)) in *.
  assert (Hu : 0 < u) by apply pow2_pos.
  assert (0 < inject_Z n) by (change 0 with (inject_Z 0); rewrite <- Zlt_Qlt; lia).
  assert (0 < inject_Z (n + 1)) by (change 0 with (inject_Z 0); rewrite <- Zlt_Qlt; lia).
  destruct Hr as [-> | [-> _]]; nra.
Qed.

(** [round] depends on the value of its argument only. *)
Lemma round_comp (x y : Q) : x == y -> round x = round y.
Proof. intros H. unfold round. rewrite (Qred_complete x y H). reflexivity. Qed.

Lemma round_pos_eq (x : Q) : 0 < x -> round x == rnd_pos (Qred x).
Proof.
  intros Hx. unfold round, round_red.
  assert (H : 0 < Qred x) by (rewrite Qred_correct; exact Hx).
  destruct (Qcompare_spec 0 (Qred x)) as [He | Hl | Hg];
    [lra | apply Qred_correct | lra].
Qed.

Lemma round_pos (x : Q) : 0 < x -> 0 < round x.
Proof.
  intros Hx. rewrite round_pos_eq by exact Hx. apply rnd_pos_pos.
  rewrite Qred_correct. exact Hx.
Qed.

Lemma round_nonneg (x : Q) : 0 <= x -> 0 <= round x.
Proof.
  intros Hx. destruct (Qlt_le_dec 0 x) as [Hp | Hz].
  - apply Qlt_le_weak, round_pos, Hp.
  - assert (E : x == 0) by lra. rewrite (round_comp x 0 E). discriminate.
Qed.

Lemma round_le_representable (x b : Q) :
  0 <= x -> (b == 0 \/ representable b) -> x <= b -> round x <= b.
Proof.
  intros Hx Hb Hxb. destruct (Qlt_le_dec 0 x) as [Hp | Hz].
  - rewrite round_pos_eq by exact Hp. destruct Hb as [Hb | Hb]; [lra|].
    apply rnd_pos_le_representable; rewrite ?Qred_correct; assumption.
  - assert (E : x == 0) by lra. rewrite (round_comp x 0 E).
    change (round 0) with 0. lra.
Qed.

Lemma representable_one : representable 1.
Proof. exists (2 ^ 52)%Z, (-52)%Z. split; [lia | reflexivity]. Qed.

(** The ints up to [2^53] are floats. *)
Lemma representable_int (W : Z) :
  (0 < W <= 2 ^ 53)%Z -> representable (inject_Z W).
Proof.
  intros [H0 H1]. destruct (Z.eq_dec W (2 ^ 53)) as [-> | Hne].
  - exists (2 ^ 52)%Z, 1%Z. split; [lia | reflexivity].
  - destruct (Z.log2_spec W H0) as [Hl1 Hl2]. set (l := Z.log2 W) in *.
    assert (Hl0 : (0 <= l)%Z) by apply Z.log2_nonneg.
    assert (Hl52 : (l <= 52)%Z).
    { apply Z.lt_succ_r. apply (Z.pow_lt_mono_r_iff 2); [lia | lia |].
      replace (Z.succ 52) with 53%Z by lia. lia. }
    exists (W * 2 ^ (52 - l))%Z, (l - 52)%Z. split.
    + assert (E : (2 ^ 52 = 2 ^ l * 2 ^ (52 - l))%Z).
      { rewrite <- Z.pow_add_r by lia. f_equal. lia. }
      assert (E' : (2 ^ 53 = 2 ^ Z.succ l * 2 ^ (52 - l))%Z).
      { rewrite <- Z.pow_add_r by lia. f_equal. lia. }
      assert (0 < 2 ^ (52 - l))%Z by (apply Z.pow_pos_nonneg; lia).
      rewrite E at 1. rewrite E'. nia.
    + rewrite inject_Z_mult, pow2_inject by lia.
      rewrite <- Qmult_assoc, <- Qpower_plus by discriminate.
      replace (52 - l + (l - 52))%Z with 0%Z by lia. simpl. ring.
Qed.

(** [int(f)] of a float in [[0, W]] is in [[0, W]]. *)
Lemma trunc_bounds (f : Q) (W : Z) :
  0 <= f -> f <= inject_Z W -> (0 <= trunc f <= W)%Z.
Proof.
  intros H0 H1. unfold trunc.
  assert (Hn : (0 <= Qnum f)%Z).
  { destruct f as [n d]. unfold Qle in H0. simpl in *. lia. }
  rewrite Z.quot_div_nonneg by lia.
  replace (Qnum f / Z.pos (Qden f))%Z with (Qfloor f) by (destruct f; reflexivity).
  split.
  - change 0%Z with (Qfloor 0). apply Qfloor_resp_le. exact H0.
  - rewrite <- (Qfloor_Z W). apply Qfloor_resp_le. exact H1.
Qed.

(** [float(W)] does not exceed [W] when [0 <= W <= 2^53]. *)
Lemma of_int_bounds (W : Z) :
  (0 <= W <= 2 ^ 53)%Z -> 0 <= of_int W /\ of_int W <= inject_Z W.
Proof.
  intros [H0 H1]. unfold of_int.
  assert (Hq : 0 <= inject_Z W) by (change 0 with (inject_Z 0); rewrite <- Zle_Qle; lia).
  split; [apply round_nonneg, Hq|].
  apply round_le_representable; [exact Hq | | lra].
  destruct (Z.eq_dec W 0) as [-> | Hne]; [left; reflexivity|].
  right. apply representable_int. lia.
Qed.

(** [int((c / t) * W)] lies in [[0, W]] for [0 <= c <= t], [0 < t] and
    [0 <= W <= 2^53]. *)
Lemma scaled_ratio_bounds (c t W : Z) :
  (0 <= c <= t)%Z -> (0 < t)%Z -> (0 <= W <= 2 ^ 53)%Z ->
  (0 <= trunc (mul (round (inject_Z c / inject_Z t)) (of_int W)) <= W)%Z.
Proof.
  intros Hc Ht HW.
  assert (HT : 0 < inject_Z t) by (change 0 with (inject_Z 0); rewrite <- Zlt_Qlt; lia).
  assert (HC0 : 0 <= inject_Z c) by (change 0 with (inject_Z 0); rewrite <- Zle_Qle; lia).
  assert (HCT : inject_Z c <= inject_Z t) by (rewrite <- Zle_Qle; lia).
  assert (Hq0 : 0 <= inject_Z c / inject_Z t).
  { apply Qle_shift_div_l; [exact HT | lra]. }
  assert (Hq1 : inject_Z c / inject_Z t <= 1).
  { apply Qle_shift_div_r; [exact HT | lra]. }
  pose proof (round_nonneg _ Hq0) as Hr0.
  pose proof (round_le_representable _ 1 Hq0 (or_intror representable_one) Hq1) as Hr1.
  destruct (of_int_bounds W HW) as [Hw0 Hw1].
  set (q := round (inject_Z c / inject_Z t)) in *. set (wf := of_int W) in *.
  assert (Hp0 : 0 <= q * wf) by nra.
  assert (Hp1 : q * wf <= inject_Z W) by nra.
  apply trunc_bounds; unfold mul.
  - apply round_nonneg, Hp0.
  - apply round_le_representable; [exact Hp0 | | exact Hp1].
    destruct (Z.eq_dec W 0) as [-> | Hne]; [left; reflexivity|].
    right. apply representable_int. lia.
Qed.

(** The relative error of one rounding is at most [2^-53]. *)
Lemma rnd_pos_error (x : Q) :
  0 < x ->
  x - x * (1 # 9007199254740992) <= rnd_pos x /\
  rnd_pos x <= x + x * (1 # 9007199254740992).
Proof.
  intros Hx. pose proof (scaled_bounds x Hx) as [Hlo _].
  unfold rnd_pos. set (u := 2 ^ (flog2 x - 52)) in *. set (n := Qfloor (x / u)).
  assert (Hu : 0 < u) by apply pow2_pos.
  assert (Hy : x / u * u == x) by (field; lra).
  pose proof (Qfloor_le (x / u)) as Hf1. pose proof (Qlt_floor (x / u)) as Hf2.
  fold n in Hf1, Hf2.
  assert (E52 : inject_Z (2 ^ 52) == 4503599627370496) by reflexivity.
  assert (Hnn : inject_Z (n + 1) == inject_Z n + 1) by (rewrite inject_Z_plus; reflexivity).
  set (y := x / u) in *.
  assert (Hhalf : u * (1 # 2) <= x * (1 # 9007199254740992)) by nra.
  destruct (Qcompare_spec (y - inject_Z n) (1 # 2)) as [He | Hl | Hg].
  - destruct (Z.even n); [|rewrite Hnn]; split; nra.
  - split; nra.
  - rewrite Hnn. split; nra.
Qed.

Lemma round_error (x : Q) :
  0 <= x ->
  x - x * (1 # 9007199254740992) <= round x /\
  round x <= x + x * (1 # 9007199254740992).
Proof.
  intros Hx. destruct (Qlt_le_dec 0 x) as [Hp | Hz].
  - rewrite round_pos_eq by exact Hp.
    assert (Hp' : 0 < Qred x) by (rewrite Qred_correct; exact Hp).
    pose proof (rnd_pos_error (Qred x) Hp') as [H1 H2]. pose proof (Qred_correct x) as E.
    set (z := Qred x) in *. set (r := rnd_pos z) in *. split; lra.
  - assert (E : x == 0) by lra. rewrite (round_comp x 0 E).
    change (round 0) with 0. split; nra.
Qed.

(** [int(f)] is the floor of a non-negative [f]. *)
Lemma trunc_floor (f : Q) :
  0 <= f -> inject_Z (trunc f) <= f /\ f < inject_Z (trunc f) + 1.
Proof.
  intros H0. unfold trunc.
  assert (Hn : (0 <= Qnum f)%Z).
  { destruct f as [n d]. unfold Qle in H0. simpl in *. lia. }
  rewrite Z.quot_div_nonneg by lia.
  replace (Qnum f / Z.pos (Qden f))%Z with (Qfloor f) by (destruct f; reflexivity).
  pose proof (Qfloor_le f) as H1. pose proof (Qlt_floor f) as H2.
  rewrite inject_Z_plus in H2. split; [exact H1 | exact H2].
Qed.

(** A representable value rounds to itself. *)
Lemma rnd_pos_representable (b : Q) : representable b -> rnd_pos b == b.
Proof.
  intros (M & E & HM & Hb).
  assert (HM1 : inject_Z (2 ^ 52) <= inject_Z M) by (rewrite <- Zle_Qle; lia).
  assert (HM2 : inject_Z M < inject_Z (2 ^ 53)) by (rewrite <- Zlt_Qlt; lia).
  assert (E52 : inject_Z (2 ^ 52) == 4503599627370496) by reflexivity.
  assert (E53 : inject_Z (2 ^ 53) == 9007199254740992) by reflexivity.
  pose proof (pow2_pos E) as HE.
  assert (Hx : 0 < b) by (rewrite Hb; nra).
  pose proof (rnd_pos_cases b Hx) as (Hn & Hn1 & Hn2 & Hr).
  pose proof (scaled_bounds b Hx) as [Hlo Hhi].
  set (e := (flog2 b - 52)%Z) in *. set (u := 2 ^ e) in *.
  set (n := Qfloor (b / u)) in *.
  assert (Hu : 0 < u) by apply pow2_pos.
  assert (Hnn : inject_Z (n + 1) == inject_Z n + 1) by (rewrite inject_Z_plus; reflexivity).
  assert (HeE : e = E).
  { destruct (Z.lt_trichotomy e E) as [Hlt | [Heq | Hgt]]; [exfalso | exact Heq | exfalso].
    - assert (2 * u <= 2 ^ E).
      { unfold u. rewrite <- pow2_succ. apply pow2_mono. lia. }
      rewrite Hb in Hhi. nra.
    - assert (2 * 2 ^ E <= u).
      { unfold u. rewrite <- pow2_succ. apply pow2_mono. lia. }
      rewrite Hb in Hlo. nra. }
  assert (HuE : u == 2 ^ E) by (unfold u; rewrite HeE; reflexivity).
  assert (HnM : n = M).
  { assert (H1 : inject_Z n <= inject_Z M) by (rewrite Hb in Hn1; nra).
    assert (H2 : inject_Z M < inject_Z (n + 1)) by (rewrite Hb in Hn2; nra).
    rewrite <- Zle_Qle in H1. rewrite <- Zlt_Qlt in H2. lia. }
  destruct Hr as [Hr | [_ Hlt]].
  - rewrite Hr, Hb, HnM, HuE. reflexivity.
  - exfalso. rewrite Hb, HnM, HuE in Hlt. lra.
Qed.

Lemma round_representable (b : Q) : representable b -> round b == b.
Proof.
  intros Hb.
  assert (Hx : 0 < b).
  { destruct Hb as (M & E & HM & Hb). pose proof (pow2_pos E) as HE.
    assert (HM1 : inject_Z (2 ^ 52) <= inject_Z M) by (rewrite <- Zle_Qle; lia).
    assert (E52 : inject_Z (2 ^ 52) == 4503599627370496) by reflexivity.
    rewrite Hb. nra. }
  rewrite round_pos_eq by exact Hx.
  assert (Hb' : representable (Qred b)).
  { destruct Hb as (M & E & HM & Hb). exists M, E. split; [exact HM|].
    rewrite Qred_correct. exact Hb. }
  rewrite (rnd_pos_representable _ Hb'). apply Qred_correct.
Qed.

(** [float(W)] is [W] when [0 <= W <= 2^53]. *)
Lemma of_int_exact (W : Z) : (0 <= W <= 2 ^ 53)%Z -> of_int W == inject_Z W.
Proof.
  intros HW. unfold of_int. destruct (Z.eq_dec W 0) as [-> | Hne]; [reflexivity|].
  apply round_representable, representable_int. lia.
Qed.

Lemma trunc_int (f : Q) (k : Z) : f == inject_Z k -> trunc f = k.
Proof.
  intros E. unfold trunc. unfold Qeq in E. cbn [inject_Z Qnum Qden] in E.
  rewrite Z.mul_1_r in E. rewrite E. apply Z.quot_mul. discriminate.
Qed.

(** [int((c / t) * W)] is within one of the exact floor of [c * W / t],
    for [0 <= c <= t], [0 < t] and [0 <= W <= 2^51]. *)
Lemma scaled_ratio_near_floor (c t W : Z) :
  (0 <= c <= t)%Z -> (0 < t)%Z -> (0 <= W <= 2 ^ 51)%Z ->
  (c * W / t - 1 <= trunc (mul (round (inject_Z c / inject_Z t)) (of_int W))
   <= c * W / t + 1)%Z.
Proof.
  intros Hc Ht HW.
  assert (HT : 0 < inject_Z t) by (change 0 with (inject_Z 0); rewrite <- Zlt_Qlt; lia).
  assert (HC0 : 0 <= inject_Z c) by (change 0 with (inject_Z 0); rewrite <- Zle_Qle; lia).
  assert (HCT : inject_Z c <= inject_Z t) by (rewrite <- Zle_Qle; lia).
  assert (HW0 : 0 <= inject_Z W) by (change 0 with (inject_Z 0); rewrite <- Zle_Qle; lia).
  assert (HW1 : inject_Z W <= 2251799813685248).
  { change 2251799813685248 with (inject_Z (2 ^ 51)). rewrite <- Zle_Qle. lia. }
  assert (Hq0 : 0 <= inject_Z c / inject_Z t).
  { apply Qle_shift_div_l; [exact HT | lra]. }
  assert (Hq1 : inject_Z c / inject_Z t <= 1).
  { apply Qle_shift_div_r; [exact HT | lra]. }
  assert (HW53 : (0 <= W <= 2 ^ 53)%Z) by lia.
  pose proof (of_int_exact W HW53) as Hwf.
  destruct (round_error _ Hq0) as [Hr1 Hr2].
  pose proof (round_nonneg _ Hq0) as Hr0.
  set (x := inject_Z c / inject_Z t) in *. set (q := round x) in *.
  assert (Hp0 : 0 <= q * of_int W) by (rewrite Hwf; nra).
  destruct (round_error _ Hp0) as [Hp1 Hp2].
  pose proof (round_nonneg _ Hp0) as Hp.
  fold (mul q (of_int W)) in Hp1, Hp2, Hp.
  set (p := mul q (of_int W)) in *. rewrite Hwf in Hp1, Hp2.
  destruct (trunc_floor p Hp) as [Hf1 Hf2]. set (k := trunc p) in *.
  assert (Hlow : x * inject_Z W - 1 < p) by nra.
  assert (Hupp : p < x * inject_Z W + 1) by nra.
  assert (Hxw : x * inject_Z W * inject_Z t == inject_Z (c * W)).
  { unfold x. rewrite inject_Z_mult. field. lra. }
  pose proof (Z.div_mod (c * W) t ltac:(lia)) as Hdm.
  pose proof (Z.mod_pos_bound (c * W) t Ht) as Hmod.
  set (F := (c * W / t)%Z) in *. set (R := ((c * W) mod t)%Z) in *.
  assert (HF : inject_Z (c * W) == inject_Z t * inject_Z F + inject_Z R).
  { rewrite <- inject_Z_mult, <- inject_Z_plus. rewrite <- Hdm. reflexivity. }
  assert (HR0 : 0 <= inject_Z R) by (change 0 with (inject_Z 0); rewrite <- Zle_Qle; lia).
  assert (HR1 : inject_Z R < inject_Z t) by (rewrite <- Zlt_Qlt; lia).
  split.
  - assert (H : inject_Z F < inject_Z k + 2) by nra.
    change 2 with (inject_Z 2) in H. rewrite <- inject_Z_plus, <- Zlt_Qlt in H. lia.
  - assert (H : inject_Z k < inject_Z F + 2) by nra.
    change 2 with (inject_Z 2) in H. rewrite <- inject_Z_plus, <- Zlt_Qlt in H. lia.
Qed.

(** [int((0 / t) * W)] is 0 and [int((t / t) * W)] is [W]. *)
Lemma scaled_ratio_ends (t W : Z) :
  (0 < t)%Z -> (0 <= W <= 2 ^ 53)%Z ->
  trunc (mul (round (inject_Z 0 / inject_Z t)) (of_int W)) = 0%Z /\
  trunc (mul (round (inject_Z t / inject_Z t)) (of_int W)) = W.
Proof.
  intros Ht HW. pose proof (of_int_exact W HW) as Hwf. split.
  - apply trunc_int. unfold mul.
    assert (E : inject_Z 0 / inject_Z t == 0) by (unfold Qdiv; ring).
    rewrite (round_comp _ _ E). change (round 0) with 0.
    assert (E2 : 0 * of_int W == 0) by ring. rewrite (round_comp _ _ E2). reflexivity.
  - apply trunc_int. unfold mul.
    assert (E : inject_Z t / inject_Z t == 1).
    { field. intros H. unfold Qeq in H. simpl in H. lia. }
    rewrite (round_comp _ _ E). change (round 1) with 1.
    assert (E2 : 1 * of_int W == inject_Z W) by (rewrite Hwf; ring).
    rewrite (round_comp _ _ E2). fold (of_int W). exact Hwf.
Qed.

(** [t / t] is [1.0]. *)
Lemma round_self_ratio (t : Z) : t <> 0%Z -> round (inject_Z t / inject_Z t) = 1.
Proof.
  intros Ht.
  assert (E : inject_Z t / inject_Z t == 1).
  { field. intros H. apply Ht. unfold Qeq in H. simpl in H. lia. }
  rewrite (round_comp _ _ E). reflexivity.
Qed.

(** [Float] agrees with the reference operations on every
    [(c / t) * 40], [(c / t) * 100] and [(-c / t) * 100] with
    [1 <= c, t <= 40], and on sample differences. *)
Example float_agrees_with_reference :
  FloatReference.all_upto (fun c =>
    FloatReference.all_upto (fun t =>
      FloatReference.agree_scaled c t 40 && FloatReference.agree_scaled c t 100
      && FloatReference.agree_scaled (- c) t 100) 40) 40 = true /\
  FloatReference.all_upto (fun c =>
    FloatReference.agree_sub (c * 31 + 7) 1000 (c * c + 3) 777) 100 = true.
Proof. split; vm_compute; reflexivity. Qed.

(** Rounding is visible: [int((29 / 100) * 100)] is 28, as in the source
    language, and [0.05] is not one twentieth. *)
Example float_rounding_is_visible :
  trunc (mul (round (29 # 100)) (of_int 100)) = 28%Z /\
  ~ round (5 # 100) == 5 # 100.
Proof. split; [vm_compute; reflexivity | vm_compute; discriminate]. Qed.

End FloatFacts.

(** ** ProgressBar: rendering *)

Module ProgressBarFacts.
Import ProgressBar.

Lemma int_truediv_ok (a b : Z) :
  b <> 0 -> int_truediv a b = Ok (Float.round (inject_Z a / inject_Z b)%Q).
Proof. intros H. unfold int_truediv. apply Z.eqb_neq in H. rewrite H. reflexivity. Qed.

Lemma of_int_not_zero (n : Z) : 0 < n -> Float.is_zero (Float.of_int n) = false.
Proof.
  intros H. unfold Float.is_zero, Float.of_int.
  assert (Hp : (0 < Float.round (inject_Z n))%Q).
  { apply FloatFacts.round_pos. change 0%Q with (inject_Z 0).
    rewrite <- Zlt_Qlt. exact H. }
  destruct (Qeq_bool (Float.round (inject_Z n)) 0) eqn:E; [|reflexivity].
  apply Qeq_bool_iff in E. rewrite E in Hp. discriminate.
Qed.

Lemma float_div_int_ok (x : Float.float) (n : Z) :
  0 < n -> exists r, float_div_int x n = Ok r.
Proof.
  intros H. unfold float_div_int. rewrite (of_int_not_zero n H). eauto.
Qed.

Lemma glyphs_ok (st : ProgressStyle) : exists f e, glyphs st = Ok (f, e).
Proof. destruct st; vm_compute; eauto. Qed.

Lemma percentage_ok (self : t) : exists p, percentage self = Ok p.
Proof.
  unfold percentage. destruct (total self =? 0) eqn:E; [eauto|].
  apply Z.eqb_neq in E. rewrite (int_truediv_ok _ _ E). simpl. eauto.
Qed.

Lemma filled_width_ok (self : t) : exists fw, filled_width self = Ok fw.
Proof.
  unfold filled_width. destruct (0 <? total self) eqn:E; [|eauto].
  apply Z.ltb_lt in E. rewrite int_truediv_ok by lia. simpl. eauto.
Qed.

Lemma bar_body_ok (self : t) :
  exists fw f e, filled_width self = Ok fw /\ glyphs (style self) = Ok (f, e) /\
    bar_body self = Ok (str_repeat f fw, str_repeat e (width self - fw)).
Proof.
  destruct (filled_width_ok self) as [fw Hfw].
  destruct (glyphs_ok (style self)) as (f & e & Hg).
  exists fw, f, e. repeat split; try assumption.
  unfold bar_body. rewrite Hfw. simpl. rewrite Hg. reflexivity.
Qed.

(** [_render] never fails; it clears the line and writes one line. *)
Lemma render_spec (self : t) (w : World) :
  exists pct filled empty tail w',
    percentage self = Ok pct /\ bar_body self = Ok (filled, empty) /\
    time_part self tail /\
    _render self w = Ok w' /\
    out w' = out w ++ [ClearLine; WriteLine (line self pct filled empty tail)].
Proof.
  destruct (percentage_ok self) as [pct Hp].
  destruct (bar_body_ok self) as (fw & f & e & _ & _ & Hb).
  unfold _render, line. rewrite Hp, Hb. simpl.
  destruct (show_eta self && (0 <? current self)) eqn:Heta.
  - apply andb_true_iff in Heta as [_ Hc]. apply Z.ltb_lt in Hc.
    destruct (current self <? total self) eqn:Hlt.
    + apply Z.ltb_lt in Hlt.
      destruct (float_div_int_ok (Float.sub (env_time w (reads w)) (start_time self))
                  (current self) Hc) as [r Hr].
      simpl. rewrite Hr. simpl.
      eexists pct, _, _, [PEta _], _. repeat split; try reflexivity.
      * right; left. eexists. split; [reflexivity | lia].
      * simpl. destruct (show_percentage self); simpl; rewrite <- ?app_assoc; reflexivity.
    + apply Z.ltb_ge in Hlt. simpl.
      eexists pct, _, _, [PDone _], _. repeat split; try reflexivity.
      * right; right. eexists. split; [reflexivity | lia].
      * simpl. destruct (show_percentage self); simpl; rewrite <- ?app_assoc; reflexivity.
  - simpl. eexists pct, _, _, [], _. repeat split; try reflexivity.
    + left. split; [reflexivity | exact Heta].
    + simpl. destruct (show_percentage self); simpl; rewrite <- ?app_assoc; reflexivity.
Qed.

Lemma touched_touched (c c' : Z) (x x' : Float.float) (self : t) :
  touched c' x' (touched c x self) = touched c' x' self.
Proof. reflexivity. Qed.

(** [update] either returns before rendering, which it can do only below
    [total], or renders. *)
Lemma update_spec (amount : Z) (self : t) (w : World) :
  let c := Z.min (current self + amount) (total self) in
  (update amount self w = Ok (touched c (last_update self) self, next_read w)
   /\ c < total self) \/
  (exists w', update amount self w = Ok (touched c (env_time w (reads w)) self, w') /\
     _render (touched c (env_time w (reads w)) self) (next_read w) = Ok w').
Proof.
  intros c. unfold update. fold c. cbv beta iota zeta delta [time_time].
  change (current (set_current c self)) with c.
  change (total (set_current c self)) with (total self).
  change (last_update (set_current c self)) with (last_update self).
  destruct (Float.ltb _ _ && (c <? total self)) eqn:E.
  - left. apply andb_true_iff in E as [_ E]. apply Z.ltb_lt in E.
    split; [reflexivity | exact E].
  - right.
    destruct (render_spec (touched c (env_time w (reads w)) self) (next_read w))
      as (? & ? & ? & ? & w' & _ & _ & _ & Hr & _).
    exists w'. split; [|exact Hr].
    unfold touched in Hr. rewrite Hr. reflexivity.
Qed.

Lemma set_progress_spec (v : Z) (self : t) (w : World) :
  let c := Z.min (Z.max 0 v) (total self) in
  exists w', set_progress v self w = Ok (touched c (last_update self) self, w') /\
    _render (touched c (last_update self) self) w = Ok w'.
Proof.
  intros c.
  destruct (render_spec (touched c (last_update self) self) w)
    as (? & ? & ? & ? & w' & _ & _ & _ & Hr & _).
  exists w'. split; [|exact Hr].
  unfold set_progress. fold c. unfold touched in Hr.
  change (set_current c self) with (set_last_update (last_update self) (set_current c self)).
  rewrite Hr. reflexivity.
Qed.

Lemma finish_spec (self : t) (w : World) :
  exists w', finish self w
             = Ok (touched (total self) (last_update self) self, emit Newline w') /\
    _render (touched (total self) (last_update self) self) w = Ok w'.
Proof.
  destruct (render_spec (touched (total self) (last_update self) self) w)
    as (? & ? & ? & ? & w' & _ & _ & _ & Hr & _).
  exists w'. split; [|exact Hr].
  unfold finish. unfold touched in Hr.
  change (set_current (total self) self)
    with (set_last_update (last_update self) (set_current (total self) self)).
  rewrite Hr. reflexivity.
Qed.

Lemma updates_spec (amounts : list Z) (self : t) (w : World) :
  exists x w', updates amounts self w
               = Ok (touched (clamp_sum (total self) amounts (current self)) x self, w').
Proof.
  revert self w. induction amounts as [|a rest IH]; intros self w.
  - exists (last_update self), w. destruct self; reflexivity.
  - cbn [updates].
    destruct (update_spec a self w) as [[Hu _] | (w1 & Hu & _)]; rewrite Hu; simpl;
      match goal with |- context [updates rest ?s ?w0] =>
        destruct (IH s w0) as (x & w' & Hr); rewrite Hr; exists x, w'; reflexivity
      end.
Qed.

Lemma updates_app (l1 l2 : list Z) (self : t) (w : World) :
  updates (l1 ++ l2) self w = ('(s, w1) ← updates l1 self w; updates l2 s w1).
Proof.
  revert self w. induction l1 as [|a rest IH]; intros self w; [reflexivity|].
  cbn [app updates]. destruct (update a self w) as [[s w1]|e]; simpl; [apply IH | reflexivity].
Qed.

Lemma clamp_sum_le (total : Z) (amounts : list Z) (c : Z) :
  c <= total -> clamp_sum total amounts c <= total.
Proof.
  revert c. induction amounts as [|a rest IH]; intros c Hc; simpl; [exact Hc|].
  apply IH. lia.
Qed.

Lemma clamp_sum_nonneg (total : Z) (amounts : list Z) (c : Z) :
  0 <= total -> 0 <= c -> Forall (fun a => 0 <= a) amounts ->
  0 <= clamp_sum total amounts c.
Proof.
  intros Ht. revert c. induction amounts as [|a rest IH]; intros c Hc Ha; simpl; [exact Hc|].
  inversion Ha; subst. apply IH; [lia | assumption].
Qed.

Lemma clamp_sum_at_total (total : Z) (amounts : list Z) :
  Forall (fun a => 0 <= a) amounts -> clamp_sum total amounts total = total.
Proof.
  induction amounts as [|a rest IH]; intros Ha; simpl; [reflexivity|].
  inversion Ha; subst. replace (Z.min (total + a) total) with total by lia.
  apply IH. assumption.
Qed.

Lemma clamp_sum_ones (total : Z) (n : nat) (c : Z) :
  c + Z.of_nat n <= total -> clamp_sum total (replicate n 1) c = c + Z.of_nat n.
Proof.
  revert c. induction n as [|n IH]; intros c Hc; simpl; [lia|].
  replace (Z.min (c + 1) total) with (c + 1) by lia.
  fold (clamp_sum total (replicate n 1) (c + 1)). rewrite IH by lia. lia.
Qed.

(** At [current = total <> 0] the percentage is 100. *)
Lemma percentage_full (self : t) :
  current self = total self -> percentage self = Ok 100.
Proof.
  intros Hc. unfold percentage. destruct (total self =? 0) eqn:E; [reflexivity|].
  apply Z.eqb_neq in E. rewrite Hc, (int_truediv_ok _ _ E). simpl.
  rewrite (FloatFacts.round_self_ratio _ E). reflexivity.
Qed.

End ProgressBarFacts.

(** ** ProgressBar: the clamp at [total] *)

Section UpdateClamp.
Import ProgressBar ProgressBarFacts.

Lemma replicate_snoc {A : Type} (n : nat) (x : A) :
  replicate (S n) x = replicate n x ++ [x].
Proof. induction n as [|n IH]; [reflexivity|]. simpl in *. rewrite <- IH. reflexivity. Qed.

(** An update that reaches [total] renders, and the line shows 100. *)
Lemma update_reaching_total (amount : Z) (self : t) (w : World) :
  total self <= current self + amount ->
  exists x w' filled empty tail,
    update amount self w = Ok (touched (total self) x self, w') /\
    out w' = out w ++
      [ClearLine; WriteLine (line (touched (total self) x self) 100 filled empty tail)].
Proof.
  intros Hreach.
  destruct (update_spec amount self w) as [[_ Hlt] | (w' & Hu & Hr)]; [lia|].
  replace (Z.min (current self + amount) (total self)) with (total self) in * by lia.
  destruct (render_spec (touched (total self) (env_time w (reads w)) self) (next_read w))
    as (pct & filled & empty & tail & w2 & Hp & _ & _ & Hr2 & Hout).
  rewrite percentage_full in Hp by reflexivity. inversion Hp; subst pct.
  rewrite Hr in Hr2. inversion Hr2; subst w2.
  exists (env_time w (reads w)), w', filled, empty, tail. split; [exact Hu | exact Hout].
Qed.

(** C2: [update] sets [current] to [min(current + amount, total)], so for
    [total > 0] and non-negative amounts [current] stays within
    [[0, total]]; [total] calls of [update(1)] on a new bar end with
    [current = total] and a last render whose percentage is 100 (shown
    when the bar shows percentages); further updates leave
    [current = total]. *)
Theorem C2_update_clamps_at_total (self : ProgressBar.t) (w : World) :
  0 < total self -> current self = 0 ->
  (forall amount, exists self' w',
     update amount self w = Ok (self', w') /\
     current self' = Z.min (current self + amount) (total self) /\
     total self' = total self) /\
  (forall amounts, Forall (fun a => 0 <= a) amounts ->
     exists self' w', updates amounts self w = Ok (self', w') /\
       total self' = total self /\ 0 <= current self' <= total self) /\
  (exists self' w' before filled empty tail,
     updates (replicate (Z.to_nat (total self)) 1) self w = Ok (self', w') /\
     total self' = total self /\ current self' = total self /\
     percentage self' = Ok 100 /\
     out w' = before ++ [ClearLine; WriteLine (line self' 100 filled empty tail)] /\
     (forall amounts w1, Forall (fun a => 0 <= a) amounts ->
        exists self'' w'', updates amounts self' w1 = Ok (self'', w'') /\
          current self'' = total self)).
Proof.
  intros Ht Hc. split; [|split].
  - intros amount.
    destruct (update_spec amount self w) as [[Hu _] | (w' & Hu & _)];
      rewrite Hu; eexists _, _; (split; [reflexivity | split; reflexivity]).
  - intros amounts Ha. destruct (updates_spec amounts self w) as (x & w' & Hu).
    rewrite Hu. eexists _, _. split; [reflexivity|]. split; [reflexivity|].
    change (current (touched ?c x self)) with c. cbn [touched set_last_update set_current current].
    split.
    + apply clamp_sum_nonneg; [lia | lia | exact Ha].
    + apply clamp_sum_le. lia.
  - destruct (Z.to_nat (total self)) as [|n] eqn:En; [lia|].
    rewrite replicate_snoc, updates_app.
    destruct (updates_spec (replicate n 1) self w) as (x & w1 & Hu). rewrite Hu.
    cbn [mbind result_bind].
    rewrite clamp_sum_ones by lia.
    set (s1 := touched (current self + Z.of_nat n) x self).
    cbn [updates].
    destruct (update_reaching_total 1 s1 w1) as (x2 & w2 & filled & empty & tail & Hu2 & Hout).
    { unfold s1. cbn [touched set_last_update set_current current total]. lia. }
    rewrite Hu2. cbn [mbind result_bind].
    change (total s1) with (total self) in *.
    change (touched (total self) x2 s1) with (touched (total self) x2 self) in *.
    eexists _, _, (out w1), filled, empty, tail.
    split; [reflexivity|]. split; [reflexivity|]. split; [reflexivity|].
    split; [apply percentage_full; reflexivity|].
    split; [exact Hout|].
    intros amounts w3 Ha.
    destruct (updates_spec amounts (touched (total self) x2 self) w3) as (x3 & w4 & Hu3).
    rewrite Hu3. eexists _, _. split; [reflexivity|].
    cbn [touched set_last_update set_current current total].
    apply clamp_sum_at_total. exact Ha.
Qed.

(** A bar with [total = 3]: three updates of one fill it. *)
Lemma C2_update_clamps_at_total_witness :
  0 < total (Sample.bar 3 10) /\ current (Sample.bar 3 10) = 0 /\
  exists self' w',
    updates [1; 1; 1] (Sample.bar 3 10) Sample.world = Ok (self', w') /\
    current self' = 3.
Proof.
  split; [reflexivity|]. split; [reflexivity|].
  destruct (C2_update_clamps_at_total (Sample.bar 3 10) Sample.world eq_refl eq_refl)
    as (_ & _ & (self' & w' & _ & _ & _ & _ & Hu & _ & Hc & _)).
  exists self', w'. split; [exact Hu | exact Hc].
Defined.

End UpdateClamp.

(** ** ProgressBar: an empty job, finishing, construction, the bar *)

Section ProgressBarClaims.
Import ProgressBar ProgressBarFacts.

Lemma percentage_zero_total (self : t) : total self = 0 -> percentage self = Ok 100.
Proof. intros H. unfold percentage. rewrite H. reflexivity. Qed.

Lemma render_zero_total (self : t) (w : World) :
  total self = 0 ->
  exists w' filled empty tail,
    _render self w = Ok w' /\
    out w' = out w ++ [ClearLine; WriteLine (line self 100 filled empty tail)] /\
    (tail = [] \/ exists x, tail = [PDone x]).
Proof.
  intros Ht.
  destruct (render_spec self w) as (pct & filled & empty & tail & w' & Hp & _ & Htl & Hr & Hout).
  rewrite (percentage_zero_total self Ht) in Hp. inversion Hp; subst pct.
  exists w', filled, empty, tail. split; [exact Hr|]. split; [exact Hout|].
  destruct Htl as [[-> _] | [(x & _ & Hx) | (x & -> & _)]]; [left; reflexivity | lia | right; eauto].
Qed.

(** C3: with [total = 0] the percentage is 100 and the fill width 0, with
    no division; every render, by [_render] itself or through [update],
    [set_progress] or [finish], succeeds and writes a line whose
    percentage is 100 (shown when the bar shows percentages) and which has
    no ETA, the only other place that divides. *)
Theorem C3_zero_total_renders_100 (self : ProgressBar.t) (w : World) :
  total self = 0 ->
  percentage self = Ok 100 /\ filled_width self = Ok 0 /\
  (exists w' filled empty tail,
     _render self w = Ok w' /\
     out w' = out w ++ [ClearLine; WriteLine (line self 100 filled empty tail)] /\
     (tail = [] \/ exists x, tail = [PDone x])) /\
  (forall amount, exists self' w',
     update amount self w = Ok (self', w') /\ total self' = 0 /\
     (out w' = out w \/
      exists filled empty tail,
        out w' = out w ++ [ClearLine; WriteLine (line self' 100 filled empty tail)])) /\
  (forall v, exists self' w' filled empty tail,
     set_progress v self w = Ok (self', w') /\ total self' = 0 /\
     out w' = out w ++ [ClearLine; WriteLine (line self' 100 filled empty tail)]) /\
  (exists self' w' filled empty tail,
     finish self w = Ok (self', w') /\ total self' = 0 /\
     out w' = out w ++ [ClearLine; WriteLine (line self' 100 filled empty tail); Newline]).
Proof.
  intros Ht. split; [exact (percentage_zero_total self Ht)|].
  split; [unfold filled_width; rewrite Ht; reflexivity|].
  split; [exact (render_zero_total self w Ht)|].
  split; [|split].
  - intros amount.
    destruct (update_spec amount self w) as [[Hu _] | (w' & Hu & Hr)].
    + eexists _, _. split; [exact Hu|]. split; [exact Ht|]. left. reflexivity.
    + eexists _, w'. split; [exact Hu|]. split; [exact Ht|]. right.
      destruct (render_zero_total
                  (touched (Z.min (current self + amount) (total self))
                     (env_time w (reads w)) self) (next_read w) Ht)
        as (w2 & f & e & tl & Hr2 & Hout & _).
      rewrite Hr in Hr2. inversion Hr2; subst w2. exists f, e, tl. exact Hout.
  - intros v. destruct (set_progress_spec v self w) as (w' & Hs & Hr).
    destruct (render_zero_total
                (touched (Z.min (Z.max 0 v) (total self)) (last_update self) self) w Ht)
      as (w2 & f & e & tl & Hr2 & Hout & _).
    rewrite Hr in Hr2. inversion Hr2; subst w2.
    eexists _, w', f, e, tl. split; [exact Hs|]. split; [exact Ht | exact Hout].
  - destruct (finish_spec self w) as (w' & Hf & Hr).
    destruct (render_zero_total (touched (total self) (last_update self) self) w Ht)
      as (w2 & f & e & tl & Hr2 & Hout & _).
    rewrite Hr in Hr2. inversion Hr2; subst w2.
    eexists _, _, f, e, tl. split; [exact Hf|]. split; [exact Ht|].
    cbn [emit out]. rewrite Hout, <- app_assoc. reflexivity.
Qed.

(** A bar with [total = 0] renders at 100. *)
Lemma C3_zero_total_renders_100_witness :
  total (Sample.bar 0 10) = 0 /\ percentage (Sample.bar 0 10) = Ok 100.
Proof.
  split; [reflexivity|].
  exact (proj1 (C3_zero_total_renders_100 (Sample.bar 0 10) Sample.world eq_refl)).
Defined.

(** C5, as the claim has it, fails here: the second [finish()] on a bar
    renders the line again and prints a second newline. *)
Lemma C5_second_finish_writes_again :
  exists s1 w1 s2 w2 l1 l2,
    finish (Sample.bar 3 10) Sample.world = Ok (s1, w1) /\
    finish s1 w1 = Ok (s2, w2) /\
    out w1 = [ClearLine; WriteLine l1; Newline] /\
    out w2 = [ClearLine; WriteLine l1; Newline; ClearLine; WriteLine l2; Newline] /\
    out w2 <> out w1.
Proof.
  eexists _, _, _, _, _, _.
  split; [vm_compute; reflexivity|]. split; [vm_compute; reflexivity|].
  split; [reflexivity|]. split; [reflexivity|]. discriminate.
Qed.

(** C5, amended: [finish()] sets [current = total], renders and prints one
    newline, at every call: a second call leaves the bar as the first
    left it, and renders the line and prints a newline once more. *)
Theorem C5_finish_renders_each_time (self : ProgressBar.t) (w : World) :
  exists s1 w1 pct filled empty tail,
    finish self w = Ok (s1, w1) /\
    s1 = set_current (total self) self /\ current s1 = total s1 /\
    out w1 = out w ++ [ClearLine; WriteLine (line s1 pct filled empty tail); Newline] /\
    exists w2 pct' filled' empty' tail',
      finish s1 w1 = Ok (s1, w2) /\
      out w2 = out w1 ++
        [ClearLine; WriteLine (line s1 pct' filled' empty' tail'); Newline].
Proof.
  assert (Hfin : forall (s : t) (w0 : World), exists w1 pct filled empty tail,
            finish s w0 = Ok (set_current (total s) s, w1) /\
            out w1 = out w0 ++
              [ClearLine; WriteLine (line (set_current (total s) s) pct filled empty tail);
               Newline]).
  { intros s w0. destruct (finish_spec s w0) as (w' & Hf & Hr).
    destruct (render_spec (touched (total s) (last_update s) s) w0)
      as (pct & f & e & tl & w2 & _ & _ & _ & Hr2 & Hout).
    rewrite Hr in Hr2. inversion Hr2; subst w2.
    eexists _, pct, f, e, tl. split; [exact Hf|].
    cbn [emit out]. rewrite Hout, <- app_assoc. reflexivity. }
  destruct (Hfin self w) as (w1 & pct & f & e & tl & Hf1 & Hout1).
  destruct (Hfin (set_current (total self) self) w1) as (w2 & pct' & f' & e' & tl' & Hf2 & Hout2).
  exists (set_current (total self) self), w1, pct, f, e, tl.
  split; [exact Hf1|]. split; [reflexivity|]. split; [reflexivity|]. split; [exact Hout1|].
  exists w2, pct', f', e', tl'. split; [exact Hf2 | exact Hout2].
Qed.

(** C6, as the claim has it, fails here: a bar with a negative [total]
    is constructed. *)
Lemma C6_negative_total_is_constructed :
  exists self w',
    __init__ Sample.ui "job" (-5) PBLOCKS None true true "accent" Sample.world
      = Ok (self, w') /\
    total self = -5.
Proof. eexists _, _. split; [vm_compute; reflexivity | reflexivity]. Qed.

(** C6, amended: the constructor checks nothing: whatever [total] is, also
    a negative one, the bar is constructed, with that [total], at
    [current = 0], and nothing is written. *)
Theorem C6_construction_accepts_any_total
    (ui : TerminalUI.t) (message : string) (total : Z) (style : ProgressStyle)
    (width : option Z) (show_percentage show_eta : bool) (color_key : string)
    (w : World) :
  exists self w',
    __init__ ui message total style width show_percentage show_eta color_key w
      = Ok (self, w') /\
    ProgressBar.total self = total /\ current self = 0 /\ out w' = out w.
Proof. eexists _, _. split; [reflexivity|]. repeat split. Qed.

Lemma glyphs_of_value (st : ProgressStyle) :
  exists fill_char empty_char,
    glyphs st = Ok (fill_char, empty_char) /\
    head (ProgressStyle_value st) = Some fill_char /\
    last (ProgressStyle_value st) = Some empty_char.
Proof. destruct st; eexists _, _; vm_compute; repeat split. Qed.

(** C9, as the claim has it, fails here: at 29 of 100 on a bar 100 wide
    the floor of [current * W / total] is 29, and the bar has 28 fill
    glyphs: [29 / 100] rounds below 0.29 and the product below 29. *)
Lemma C9_filled_can_miss_the_floor :
  filled_width (set_current 29 (Sample.bar 100 100)) = Ok 28 /\
  29 * 100 / 100 = 29 /\
  exists fill_char empty_char,
    bar_body (set_current 29 (Sample.bar 100 100))
    = Ok (replicate 28 fill_char, replicate 72 empty_char).
Proof.
  split; [vm_compute; reflexivity|]. split; [reflexivity|].
  eexists _, _. vm_compute. reflexivity.
Qed.

(** C9, amended: for [total > 0], [0 <= current <= total] and a width [W]
    from 0 to [2^53], the bar body is [filled] fill glyphs followed by
    [W - filled] empty glyphs, [W] glyphs in all, where
    [filled = int((current / total) * W)] as the source computes it, in
    floats: it lies in [[0, W]], is 0 at [current = 0] and [W] at
    [current = total], and for [W <= 2^51] is within one of the floor of
    [current * W / total].  The fill glyph is the first of the style's
    tuple and the empty glyph its last, so the fourth for GRADIENT. *)
Theorem C9_bar_body_is_width_glyphs (self : ProgressBar.t) :
  0 < total self -> 0 <= current self <= total self -> 0 <= width self <= 2 ^ 53 ->
  exists fill_char empty_char filled,
    head (ProgressStyle_value (style self)) = Some fill_char /\
    last (ProgressStyle_value (style self)) = Some empty_char /\
    filled_width self = Ok filled /\
    filled = Float.trunc
               (Float.mul (Float.round (inject_Z (current self) / inject_Z (total self))%Q)
                          (Float.of_int (width self))) /\
    0 <= filled <= width self /\
    (width self <= 2 ^ 51 ->
     current self * width self / total self - 1 <= filled
     <= current self * width self / total self + 1) /\
    (current self = 0 -> filled = 0) /\
    (current self = total self -> filled = width self) /\
    bar_body self = Ok (replicate (Z.to_nat filled) fill_char,
                        replicate (Z.to_nat (width self - filled)) empty_char) /\
    length (replicate (Z.to_nat filled) fill_char
            ++ replicate (Z.to_nat (width self - filled)) empty_char)
      = Z.to_nat (width self) /\
    forall w, exists w' pct tail,
      _render self w = Ok w' /\
      out w' = out w ++
        [ClearLine;
         WriteLine (line self pct (replicate (Z.to_nat filled) fill_char)
                      (replicate (Z.to_nat (width self - filled)) empty_char) tail)].
Proof.
  intros Ht Hc Hw.
  destruct (glyphs_of_value (style self)) as (f & e & Hg & Hhd & Hlast).
  pose proof (FloatFacts.scaled_ratio_bounds (current self) (total self) (width self)
                Hc Ht Hw) as Hb.
  pose proof (FloatFacts.scaled_ratio_near_floor (current self) (total self) (width self)
                Hc Ht) as Hnear.
  pose proof (FloatFacts.scaled_ratio_ends (total self) (width self) Ht Hw) as [He0 He1].
  set (fw := Float.trunc
               (Float.mul (Float.round (inject_Z (current self) / inject_Z (total self))%Q)
                          (Float.of_int (width self)))) in *.
  assert (Hfw : filled_width self = Ok fw).
  { unfold filled_width. apply Z.ltb_lt in Ht. rewrite Ht. apply Z.ltb_lt in Ht.
    rewrite int_truediv_ok by lia. reflexivity. }
  assert (Hbody : bar_body self = Ok (replicate (Z.to_nat fw) f,
                                      replicate (Z.to_nat (width self - fw)) e)).
  { unfold bar_body. rewrite Hfw. cbn [mbind result_bind]. rewrite Hg. reflexivity. }
  exists f, e, fw.
  split; [exact Hhd|]. split; [exact Hlast|]. split; [exact Hfw|]. split; [reflexivity|].
  split; [exact Hb|]. split; [intros Hw51; apply Hnear; lia|].
  split; [intros E; unfold fw; rewrite E; exact He0|].
  split; [intros E; unfold fw; rewrite E; exact He1|].
  split; [exact Hbody|]. split.
  - rewrite length_app, !length_replicate. lia.
  - intros w.
    destruct (render_spec self w) as (pct & fl & em & tl & w' & _ & Hb2 & _ & Hr & Hout).
    rewrite Hbody in Hb2. inversion Hb2; subst fl em.
    exists w', pct, tl. split; [exact Hr | exact Hout].
Qed.

(** A bar at 1 of 4 with width 8 has two fill glyphs and six empty ones. *)
Lemma C9_bar_body_is_width_glyphs_witness :
  0 < total (set_current 1 (Sample.bar 4 8)) /\
  0 <= current (set_current 1 (Sample.bar 4 8)) <= total (set_current 1 (Sample.bar 4 8)) /\
  0 <= width (set_current 1 (Sample.bar 4 8)) <= 2 ^ 53 /\
  exists fill_char empty_char filled,
    bar_body (set_current 1 (Sample.bar 4 8))
      = Ok (replicate (Z.to_nat filled) fill_char,
            replicate (Z.to_nat (8 - filled)) empty_char).
Proof.
  assert (H1 : 0 < total (set_current 1 (Sample.bar 4 8))) by reflexivity.
  assert (H2 : 0 <= current (set_current 1 (Sample.bar 4 8))
               <= total (set_current 1 (Sample.bar 4 8))) by (cbn; lia).
  assert (H3 : 0 <= width (set_current 1 (Sample.bar 4 8)) <= 2 ^ 53) by (cbn; lia).
  split; [exact H1|]. split; [exact H2|]. split; [exact H3|].
  destruct (C9_bar_body_is_width_glyphs (set_current 1 (Sample.bar 4 8)) H1 H2 H3)
    as (f & e & fw & _ & _ & _ & _ & _ & _ & _ & _ & Hb & _).
  exists f, e, fw. exact Hb.
Defined.

(** C10, as the claim has it, fails here: on a bar with [total = -5],
    which the constructor accepts, [set_progress(3)] leaves
    [current = -5]. *)
Lemma C10_set_progress_can_go_negative :
  exists self' w',
    set_progress 3 (Sample.bar (-5) 10) Sample.world = Ok (self', w') /\
    current self' = -5.
Proof. eexists _, _. split; [vm_compute; reflexivity | reflexivity]. Qed.

(** C10, amended: on every bar [update(amount)] leaves
    [current = min(current + amount, total)], with no clamp at 0: from
    [current = 0] with [total > 0] a negative amount makes [current]
    negative.  [set_progress(v)] leaves [current = min(max(0, v), total)],
    whatever [current] was: within [[0, total]] when [total >= 0], and
    equal to [total], so negative, when [total < 0]. *)
Theorem C10_update_has_no_lower_clamp (self : ProgressBar.t) (w : World) :
  (forall amount, exists self' w',
     update amount self w = Ok (self', w') /\
     current self' = Z.min (current self + amount) (total self)) /\
  (0 < total self -> current self = 0 ->
   (forall amount, amount < 0 ->
      exists self' w', update amount self w = Ok (self', w') /\
        current self' = amount /\ current self' < 0) /\
   (exists self' w', update (-1) self w = Ok (self', w') /\ current self' = -1)) /\
  (forall v, exists self' w',
     set_progress v self w = Ok (self', w') /\
     current self' = Z.min (Z.max 0 v) (total self) /\
     (0 <= total self -> 0 <= current self' <= total self) /\
     (total self < 0 -> current self' = total self /\ current self' < 0)).
Proof.
  assert (Hupd : forall amount, exists self' w',
            update amount self w = Ok (self', w') /\
            current self' = Z.min (current self + amount) (total self)).
  { intros amount.
    destruct (update_spec amount self w) as [[Hu _] | (w' & Hu & _)];
      rewrite Hu; eexists _, _; (split; [reflexivity|]);
      cbn [touched set_last_update set_current current]; reflexivity. }
  split; [exact Hupd|]. split.
  - intros Ht Hc.
    assert (Hneg : forall amount, amount < 0 ->
              exists self' w', update amount self w = Ok (self', w') /\
                current self' = amount /\ current self' < 0).
    { intros amount Ha. destruct (Hupd amount) as (s & w' & Hu & Hs).
      exists s, w'. split; [exact Hu|]. lia. }
    split; [exact Hneg|].
    destruct (Hneg (-1) eq_refl) as (s & w' & Hu & Hs & _). eauto.
  - intros v. destruct (set_progress_spec v self w) as (w' & Hs & _).
    eexists _, w'. split; [exact Hs|].
    cbn [touched set_last_update set_current current]. lia.
Qed.

(** On a new bar with [total = 3], [update(-1)] leaves [current = -1]. *)
Lemma C10_update_has_no_lower_clamp_witness :
  0 < total (Sample.bar 3 10) /\ current (Sample.bar 3 10) = 0 /\
  exists self' w',
    update (-1) (Sample.bar 3 10) Sample.world = Ok (self', w') /\ current self' = -1.
Proof.
  split; [reflexivity|]. split; [reflexivity|].
  exact (proj2 (proj1 (proj2 (C10_update_has_no_lower_clamp (Sample.bar 3 10) Sample.world))
                 eq_refl eq_refl)).
Defined.

End ProgressBarClaims.

(** ** Spinner: frames and lifecycle *)

Section SpinnerClaims.
Import Spinner.

Lemma style_value_nonempty (st : SpinnerStyle) : (0 < length (SpinnerStyle_value st))%nat.
Proof. destruct st; vm_compute; lia. Qed.

(** C8: for a style other than MATRIX, with [N] frames, the loop selects
    at index [k + N] the frame it selects at index [k], whatever the
    environment is; a frame is always found. *)
Theorem C8_frames_are_periodic (self : Spinner.t) (k : Z) (w1 w2 : World) :
  style self <> MATRIX ->
  frames self = SpinnerStyle_value (style self) ->
  exists frame,
    frame_at self k w1 = (Ok frame, w1) /\
    frame_at self (k + Z.of_nat (length (frames self))) w2 = (Ok frame, w2).
Proof.
  intros Hs Hf. unfold frame_at.
  destruct (decide (style self = MATRIX)) as [E | _]; [contradiction|].
  pose proof (style_value_nonempty (style self)) as Hn. rewrite <- Hf in Hn.
  set (n := Z.of_nat (length (frames self))).
  assert (Hn0 : 0 < n) by (unfold n; lia).
  assert (E0 : (n =? 0) = false) by (apply Z.eqb_neq; lia). rewrite E0.
  assert (Ek : (k + n) mod n = k mod n).
  { rewrite <- (Z.mul_1_l n) at 1. apply Z_mod_plus_full. }
  rewrite Ek.
  pose proof (Z.mod_pos_bound k n Hn0) as Hb.
  destruct (frames self !! Z.to_nat (k mod n)) as [f|] eqn:El.
  - exists f. split; reflexivity.
  - apply lookup_ge_None in El. unfold n in *. lia.
Qed.

(** The DOTS spinner has ten frames: frame 13 is frame 3. *)
Lemma C8_frames_are_periodic_witness :
  style (Sample.spinner DOTS) <> MATRIX /\
  frames (Sample.spinner DOTS) = SpinnerStyle_value (style (Sample.spinner DOTS)) /\
  exists frame,
    frame_at (Sample.spinner DOTS) 3 Sample.world = (Ok frame, Sample.world) /\
    frame_at (Sample.spinner DOTS) 13 Sample.world = (Ok frame, Sample.world).
Proof.
  assert (H1 : style (Sample.spinner DOTS) <> MATRIX) by discriminate.
  split; [exact H1|]. split; [reflexivity|].
  exact (C8_frames_are_periodic (Sample.spinner DOTS) 3 Sample.world Sample.world
           H1 eq_refl).
Defined.

Lemma run_app (ops1 ops2 : list op) (self : t) (w : World) :
  run (ops1 ++ ops2) self w = let '(s, w1) := run ops1 self w in run ops2 s w1.
Proof.
  revert self w. induction ops1 as [|o rest IH]; intros self w; [reflexivity|].
  destruct o; cbn [app run].
  - destruct (start self w) as [s w1]. apply IH.
  - destruct (stop self w) as [s w1]. apply IH.
Qed.

Lemma start_running (self : t) (w : World) :
  running (fst (start self w)) = true /\
  (running self = true -> thread (fst (start self w)) = thread self) /\
  (running self = false -> thread (fst (start self w)) = Some (threads w)).
Proof.
  unfold start. destruct (running self) eqn:E.
  - simpl. repeat split; intros; congruence.
  - unfold thread_start, TerminalUI.hide_cursor. simpl.
    destruct (TerminalUI.debug (ui self)); simpl; repeat split; intros; congruence.
Qed.

Lemma stop_not_running (self : t) (w : World) :
  running (fst (stop self w)) = false /\ thread (fst (stop self w)) = thread self.
Proof.
  unfold stop, _stop. destruct (running self) eqn:E; simpl; [|split; [exact E | reflexivity]].
  destruct (thread self); simpl; [|split; reflexivity].
  destruct (env_alive w (reads w)); split; reflexivity.
Qed.

(** While a spinner runs it has a thread; it has one from the first
    [start()] on. *)
Lemma run_thread (ops : list op) (self : t) (w : World) :
  (running self = true -> thread self <> None) ->
  let s := fst (run ops self w) in
  (running s = true -> thread s <> None) /\
  (thread s = None <-> thread self = None /\ existsb is_start ops = false).
Proof.
  revert self w. induction ops as [|o rest IH]; intros self w Hinv; cbn [run].
  - simpl. split; [exact Hinv | tauto].
  - destruct o.
    + pose proof (start_running self w) as (Hr & Ht1 & Ht2).
      destruct (start self w) as [s1 w1]. cbn [fst] in *.
      assert (Hi1 : running s1 = true -> thread s1 <> None).
      { intros _. destruct (running self) eqn:E.
        - rewrite Ht1 by reflexivity. apply Hinv. reflexivity.
        - rewrite Ht2 by reflexivity. discriminate. }
      destruct (IH s1 w1 Hi1) as [Ha Hb]. split; [exact Ha|].
      cbn [existsb is_start orb]. rewrite Hb. split; [|intros [_ H]; discriminate].
      intros [H _]. exfalso. apply Hi1; assumption.
    + pose proof (stop_not_running self w) as (Hr & Ht).
      destruct (stop self w) as [s1 w1]. cbn [fst] in *.
      assert (Hi1 : running s1 = true -> thread s1 <> None) by (rewrite Hr; discriminate).
      destruct (IH s1 w1 Hi1) as [Ha Hb]. split; [exact Ha|].
      cbn [existsb is_start orb]. rewrite Hb, Ht. tauto.
Qed.



End SpinnerClaims.

(** ** The scoped spinner *)

Section ScopedClaims.
Import Scoped.

Lemma count_stops_app (r : nat) (l1 l2 : list call) :
  count_stops r (l1 ++ l2) = (count_stops r l1 + count_stops r l2)%nat.
Proof.
  induction l1 as [|c rest IH]; [reflexivity|].
  destruct c as [r' | r']; cbn [app count_stops]; [exact IH|].
  destruct (Nat.eqb r' r); rewrite IH; reflexivity.
Qed.

(** A method applied through a valid reference returns; the heap keeps
    its size, the list of active spinners and the log are untouched. *)
Lemma on_spinner_ok (r : nat) (f : Spinner.t -> World -> Spinner.t * World) (p : Proc) :
  (r < length (spinners p))%nat ->
  exists p' s,
    on_spinner r f p = (Ok tt, p') /\
    spinners p !! r = Some s /\
    spinners p' = <[r := fst (f s (world p))]> (spinners p) /\
    length (spinners p') = length (spinners p) /\
    _active_spinners p' = _active_spinners p /\ calls p' = calls p.
Proof.
  intros Hr. unfold on_spinner.
  destruct (spinners p !! r) as [s|] eqn:E; [|apply lookup_ge_None in E; lia].
  destruct (f s (world p)) as [s' w'] eqn:Ef.
  eexists _, s. split; [reflexivity|]. cbn [spinners _active_spinners calls fst].
  rewrite length_insert, ?Ef. repeat split; reflexivity.
Qed.

Lemma run_stmt_ok (r : nat) (s : stmt) (p : Proc) :
  (r < length (spinners p))%nat ->
  exists p',
    run_stmt r s p = (Ok tt, p') /\
    length (spinners p') = length (spinners p) /\
    _active_spinners p' = _active_spinners p /\
    count_stops r (calls p')
      = (count_stops r (calls p) + count_SStop [s])%nat.
Proof.
  intros Hr. destruct s; cbn [run_stmt count_SStop].
  - unfold start, log, mbind, M_bind. cbn beta iota.
    destruct (on_spinner_ok r Spinner.start
                (mkProc (spinners p) (_active_spinners p) (world p) (calls p ++ [CallStart r])) Hr)
      as (p' & s & Ho & _ & _ & Hl & Ha & Hc).
    rewrite Ho. exists p'. split; [reflexivity|]. split; [exact Hl|]. split; [exact Ha|].
    rewrite Hc. cbn [calls]. rewrite count_stops_app. cbn. lia.
  - unfold stop, log, mbind, M_bind. cbn beta iota.
    destruct (on_spinner_ok r Spinner.stop
                (mkProc (spinners p) (_active_spinners p) (world p) (calls p ++ [CallStop r])) Hr)
      as (p' & s & Ho & _ & _ & Hl & Ha & Hc).
    rewrite Ho. exists p'. split; [reflexivity|]. split; [exact Hl|]. split; [exact Ha|].
    rewrite Hc. cbn [calls]. rewrite count_stops_app. cbn [count_stops].
    rewrite Nat.eqb_refl. lia.
  - destruct (on_spinner_ok r (fun s w => (Spinner.update_message m s, w)) p Hr)
      as (p' & s & Ho & _ & _ & Hl & Ha & Hc).
    rewrite Ho. exists p'. rewrite Hc. repeat split; try assumption. lia.
  - destruct (on_spinner_ok r (fun s0 w => (Spinner.update_suffix s s0, w)) p Hr)
      as (p' & s' & Ho & _ & _ & Hl & Ha & Hc).
    rewrite Ho. exists p'. rewrite Hc. repeat split; try assumption. lia.
  - eexists. split; [reflexivity|]. cbn [spinners _active_spinners calls].
    repeat split. lia.
Qed.

Lemma count_SStop_cons (s : stmt) (l : list stmt) :
  count_SStop (s :: l) = (count_SStop [s] + count_SStop l)%nat.
Proof. destruct s; reflexivity. Qed.

Lemma run_stmts_ok (r : nat) (l : list stmt) (p : Proc) :
  (r < length (spinners p))%nat ->
  exists p',
    run_stmts r l p = (Ok tt, p') /\
    length (spinners p') = length (spinners p) /\
    _active_spinners p' = _active_spinners p /\
    count_stops r (calls p') = (count_stops r (calls p) + count_SStop l)%nat.
Proof.
  revert p. induction l as [|s rest IH]; intros p Hr.
  - exists p. cbn. repeat split. lia.
  - destruct (run_stmt_ok r s p Hr) as (p1 & H1 & Hl1 & Ha1 & Hc1).
    assert (Hr1 : (r < length (spinners p1))%nat) by lia.
    destruct (IH p1 Hr1) as (p2 & H2 & Hl2 & Ha2 & Hc2).
    exists p2. cbn [run_stmts]. unfold mbind, M_bind. rewrite H1, H2.
    split; [reflexivity|]. split; [lia|]. split; [congruence|].
    rewrite (count_SStop_cons s rest). lia.
Qed.

Lemma list_remove_last (x : nat) (l : list nat) :
  exists l', list_remove x (l ++ [x]) = Some l'.
Proof.
  induction l as [|y rest [l' IH]]; cbn [app list_remove].
  - rewrite Nat.eqb_refl. eauto.
  - destruct (Nat.eqb y x); [eauto|]. rewrite IH. eauto.
Qed.

(** C1: whatever the block does with the spinner and however it ends
    (it runs to its end, returns early, or raises), the spinner block
    calls [stop()] once after the block: that call is the last one logged,
    the calls of [stop()] on the spinner are those of the block plus one
    (exactly one when the block itself calls none), the spinner is left not
    running, and the caller sees the block's own ending: the value it
    returned, or the failure it raised, unchanged. *)
Theorem C1_scoped_spinner_stops_on_every_exit
    (ui : TerminalUI.t) (message : string) (style : SpinnerStyle)
    (color_key suffix : string) (body : list stmt) (e : ending) (p : Proc) :
  let r := length (spinners p) in
  exists p' before s,
    spinner ui message style color_key suffix (run_block body e) p = (outcome e, p') /\
    calls p' = before ++ [CallStop r] /\
    count_stops r (calls p') = (count_stops r (calls p) + count_SStop body + 1)%nat /\
    spinners p' !! r = Some s /\ Spinner.running s = false.
Proof.
  intros r. unfold spinner, new_spinner, active_append, try_finally, mbind, M_bind.
  cbn beta iota. cbn [spinners _active_spinners world calls].
  set (p0 := mkProc (spinners p ++ [Spinner.__init__ ui message style color_key suffix])
               (_active_spinners p ++ [r]) (world p) (calls p)).
  assert (Hr0 : (r < length (spinners p0))%nat).
  { unfold p0, r. cbn [spinners]. rewrite length_app. simpl. lia. }
  destruct (run_stmt_ok r SStart p0 Hr0) as (p1 & H1 & Hl1 & Ha1 & Hc1).
  cbn [run_stmt] in H1. fold r. fold p0. rewrite H1.
  assert (Hr1 : (r < length (spinners p1))%nat) by lia.
  destruct (run_stmts_ok r body p1 Hr1) as (p2 & H2 & Hl2 & Ha2 & Hc2).
  assert (Hr2 : (r < length (spinners p2))%nat) by lia.
  assert (Hbody : run_block body e r p1 = (outcome e, p2)).
  { unfold run_block, mbind, M_bind. rewrite H2. destruct e; reflexivity. }
  rewrite Hbody.
  unfold stop, log, mbind, M_bind. cbn beta iota.
  set (p3 := mkProc (spinners p2) (_active_spinners p2) (world p2) (calls p2 ++ [CallStop r])).
  destruct (on_spinner_ok r Spinner.stop p3 Hr2) as (p4 & s & Ho & Hs & Hsp & Hl4 & Ha4 & Hc4).
  rewrite Ho. unfold active_remove.
  assert (Hact : _active_spinners p4 = _active_spinners p ++ [r]).
  { rewrite Ha4. unfold p3. cbn [_active_spinners]. rewrite Ha2, Ha1. reflexivity. }
  destruct (list_remove_last r (_active_spinners p)) as [l' Hrem].
  rewrite Hact, Hrem.
  cbn beta iota zeta.
  exists (mkProc (spinners p4) l' (world p4) (calls p4)), (calls p2),
    (fst (Spinner.stop s (world p3))).
  split; [reflexivity|]. cbn [calls spinners].
  split; [rewrite Hc4; reflexivity|].
  split.
  { rewrite Hc4. unfold p3. cbn [calls]. rewrite count_stops_app, Hc2, Hc1.
    unfold p0. cbn [calls count_stops count_SStop]. rewrite Nat.eqb_refl. lia. }
  split; [rewrite Hsp; apply list_lookup_insert_eq; exact Hr2|].
  apply stop_not_running.
Qed.

End ScopedClaims.

(** ** MultiProgress *)

Section MultiProgressClaims.
Import MultiProgress.

Lemma clear_lines_out (ui : TerminalUI.t) (n : nat) (w : World) :
  out (clear_lines ui n w) = out w ++ move_up_and_clear n.
Proof.
  revert w. induction n as [|n IH]; intros w.
  - cbn. rewrite app_nil_r. reflexivity.
  - cbn [clear_lines]. rewrite IH. unfold move_up_and_clear. cbn [replicate concat].
    cbn [TerminalUI.clear_line TerminalUI.move_up emit out].
    rewrite <- !app_assoc. reflexivity.
Qed.

Lemma render_each_spec (h : heap) (d : list (string * nat)) (w : World) :
  Forall (fun kv => (snd kv < length h)%nat) d ->
  exists w' lines,
    render_each h (map snd d) w = (Ok tt, w') /\
    out w' = out w ++ repaint lines /\
    Forall2 (line_of h) lines d.
Proof.
  revert w. induction d as [|kv rest IH]; intros w Hwf.
  - exists w, []. cbn. rewrite app_nil_r. repeat split. constructor.
  - inversion Hwf as [|? ? Hkv Hrest]; subst.
    cbn [map render_each].
    destruct (h !! snd kv) as [pbar|] eqn:El; [|apply lookup_ge_None in El; lia].
    destruct (ProgressBarFacts.render_spec (base pbar) w)
      as (pct & f & e & tl & w1 & _ & _ & _ & Hr & Hout).
    rewrite Hr.
    destruct (IH (emit Newline w1) Hrest) as (w2 & lines & Hre & Hout2 & Hf).
    exists w2, (ProgressBar.line (base pbar) pct f e tl :: lines).
    split; [exact Hre|]. split.
    + rewrite Hout2. cbn [emit out]. rewrite Hout. unfold repaint. cbn [map concat].
      rewrite <- !app_assoc. reflexivity.
    + constructor; [|exact Hf]. exists pbar, pct, f, e, tl. split; [exact El | reflexivity].
Qed.

Lemma move_ups_move_up_and_clear (n : nat) : move_ups (move_up_and_clear n) = n.
Proof. induction n as [|n IH]; [reflexivity|]. cbn. f_equal. exact IH. Qed.

Lemma dict_set_fresh (d : list (string * nat)) (k : string) (v : nat) :
  dict_contains d k = false -> dict_set d k v = d ++ [(k, v)].
Proof.
  induction d as [|[k' v'] rest IH]; intros H; [reflexivity|].
  cbn [dict_contains existsb fst] in H. apply orb_false_iff in H as [Hk Hrest].
  cbn [dict_set app]. rewrite Hk. f_equal. apply IH. exact Hrest.
Qed.

(** C7, as the claim has it, fails here: the first [render_all()] painted
    one line; two bars were then added, and the second [render_all()]
    moves up and clears three times, once per bar now registered. *)
Lemma C7_moves_up_once_per_registered_bar :
  exists first second,
    Sample.two_renders = Some (first, second) /\
    newlines first = 1%nat /\ move_ups second = 3%nat.
Proof. eexists _, _. split; [vm_compute; reflexivity|]. split; reflexivity. Qed.

(** C7, amended: [render_all()] takes the lock, moves up and clears once
    per bar registered at the time of the call (three times for three
    bars), whatever the call before painted, then paints every registered
    bar in the order of the registry, each line ended by a newline, and
    releases the lock.  The order is the order of insertion: a bar added
    under a new name goes last, and an [update] of a bar through the
    caller's reference leaves the registry as it is. *)
Theorem C7_render_all_repaints_in_registry_order
    (self : MultiProgress.t) (h : heap) (w : World) :
  wf self h ->
  let n := length (progress_bars self) in
  (exists w' lines,
     render_all self h w = (Ok tt, w') /\
     out w' = out w ++ [LockAcquire] ++ move_up_and_clear n ++ repaint lines
                    ++ [LockRelease] /\
     Forall2 (line_of h) lines (progress_bars self)) /\
  move_ups (move_up_and_clear n) = n /\
  (forall name message total style kw r self' h' w',
     add_progress name message total style kw self h w = (Ok r, self', h', w') ->
     dict_contains (progress_bars self) name = false ->
     progress_bars self' = progress_bars self ++ [(name, r)] /\ wf self' h') /\
  (forall r amount h' w',
     bar_update r amount h w = Ok (h', w') ->
     wf self h' /\
     exists w'' lines,
       render_all self h' w' = (Ok tt, w'') /\
       out w'' = out w' ++ [LockAcquire] ++ move_up_and_clear n ++ repaint lines
                        ++ [LockRelease] /\
       Forall2 (line_of h') lines (progress_bars self)).
Proof.
  intros Hwf n.
  assert (Hrender : forall h0 w0, wf self h0 ->
            exists w' lines,
              render_all self h0 w0 = (Ok tt, w') /\
              out w' = out w0 ++ [LockAcquire] ++ move_up_and_clear n ++ repaint lines
                              ++ [LockRelease] /\
              Forall2 (line_of h0) lines (progress_bars self)).
  { intros h0 w0 Hwf0. unfold render_all.
    destruct (render_each_spec h0 (progress_bars self)
                (clear_lines (ui self) (length (progress_bars self)) (emit LockAcquire w0))
                Hwf0) as (w1 & lines & Hre & Hout & Hf).
    rewrite Hre. exists (emit LockRelease w1), lines. split; [reflexivity|].
    split; [|exact Hf].
    cbn [emit out]. rewrite Hout, clear_lines_out. cbn [emit out]. fold n.
    rewrite <- !app_assoc. reflexivity. }
  split; [exact (Hrender h w Hwf)|].
  split; [apply move_ups_move_up_and_clear|].
  split.
  - intros name message total style kw r self' h' w' Hadd Hfresh.
    unfold add_progress in Hadd.
    destruct (ManagedProgressBar__init__ (ui self) name message total style kw
                (emit LockAcquire w)) as [[pbar w1]|e]; inversion Hadd; subst.
    cbn [progress_bars]. split; [apply dict_set_fresh; exact Hfresh|].
    unfold wf. cbn [progress_bars]. rewrite (dict_set_fresh _ _ _ Hfresh).
    apply Forall_app. split.
    + eapply Forall_impl; [exact Hwf|]. intros kv Hkv. cbn beta in *.
      rewrite length_app. lia.
    + constructor; [|constructor]. cbn [snd]. rewrite length_app. cbn. lia.
  - intros r amount h' w' Hupd.
    assert (Hwf' : wf self h').
    { unfold bar_update in Hupd. destruct (h !! r) as [pbar|]; [|discriminate].
      destruct (ProgressBar.update amount (base pbar) w) as [[pb w1]|e];
        [|discriminate].
      cbn [mbind result_bind] in Hupd. inversion Hupd; subst. unfold wf.
      eapply Forall_impl; [exact Hwf|]. intros kv Hkv. cbn beta in *.
      rewrite length_insert. exact Hkv. }
    split; [exact Hwf'|]. exact (Hrender h' w' Hwf').
Qed.

(** A registry with one bar, after [add_progress]. *)
Lemma C7_render_all_repaints_in_registry_order_witness :
  wf (mk Sample.ui [("a", 0%nat)])
     [mkManaged (Sample.bar 10 10) "a"] /\
  move_ups (move_up_and_clear 1) = 1%nat.
Proof.
  assert (H : wf (mk Sample.ui [("a", 0%nat)]) [mkManaged (Sample.bar 10 10) "a"]).
  { constructor; [cbn; lia | constructor]. }
  split; [exact H|].
  exact (proj1 (proj2 (C7_render_all_repaints_in_registry_order
                         (mk Sample.ui [("a", 0%nat)])
                         [mkManaged (Sample.bar 10 10) "a"] Sample.world H))).
Defined.

End MultiProgressClaims.

(* ===================================================================== *)
(** * Part III: further properties of the code                             *)
(* ===================================================================== *)

(** ** Spinner: the cursor, the frames *)

Section SpinnerMore.
Import Spinner.

Lemma cursor_visible_app (l1 l2 : list event) :
  cursor_visible (l1 ++ l2)
  = fold_left (fun v e => match e with
                          | HideCursor => false
                          | ShowCursor => true
                          | _ => v
                          end) l2 (cursor_visible l1).
Proof. unfold cursor_visible. apply fold_left_app. Qed.

Lemma start_cursor (self : t) (w : World) :
  let '(s1, w1) := start self w in
  ui s1 = ui self /\
  cursor_visible (out w1)
  = (if running self then cursor_visible (out w)
     else if TerminalUI.debug (ui self) then cursor_visible (out w) else false).
Proof.
  unfold start. destruct (running self); [split; reflexivity|].
  unfold thread_start, TerminalUI.hide_cursor. cbn [set_running ui].
  destruct (TerminalUI.debug (ui self)); cbn [emit out set_thread ui];
    (split; [reflexivity|]); rewrite ?cursor_visible_app; reflexivity.
Qed.

Lemma stop_cursor (self : t) (w : World) :
  let '(s1, w1) := stop self w in
  ui s1 = ui self /\
  cursor_visible (out w1) = (if running self then true else cursor_visible (out w)).
Proof.
  unfold stop, _stop. destruct (running self); cbn [negb]; [|split; reflexivity].
  cbn [set_running ui thread]. unfold is_alive, TerminalUI.clear_line, TerminalUI.show_cursor.
  destruct (thread self); [destruct (env_alive w (reads w))|];
    cbn [emit out next_read]; (split; [reflexivity|]);
    rewrite ?cursor_visible_app; reflexivity.
Qed.

(** X1: under any sequence of [start()] and [stop()] on a spinner that is
    not running, on a terminal whose cursor shows, the cursor is hidden
    exactly while the spinner runs and [debug] is off: every [stop()]
    leaves it showing, and a [debug] interface never hides it. *)
Theorem X1_cursor_hidden_only_while_running
    (self : Spinner.t) (ops : list op) (w : World) :
  running self = false -> cursor_visible (out w) = true ->
  let '(s, w') := run ops self w in
  cursor_visible (out w') = negb (running s && negb (TerminalUI.debug (ui self))).
Proof.
  intros Hr Hv.
  assert (G : forall ops s0 w0,
            ui s0 = ui self ->
            cursor_visible (out w0)
            = negb (running s0 && negb (TerminalUI.debug (ui self))) ->
            let '(s, w') := run ops s0 w0 in
            cursor_visible (out w')
            = negb (running s && negb (TerminalUI.debug (ui self)))).
  { clear. induction ops as [|o rest IH]; intros s0 w0 Hu Hc; cbn [run]; [exact Hc|].
    destruct o.
    - pose proof (start_cursor s0 w0) as Hs. pose proof (start_running s0 w0) as (Hr1 & _).
      destruct (start s0 w0) as [s1 w1]. cbn [fst] in Hr1. destruct Hs as [Hu1 Hc1].
      apply IH; [congruence|]. rewrite Hc1, Hr1, Hc, Hu.
      destruct (running s0), (TerminalUI.debug (ui self)); reflexivity.
    - pose proof (stop_cursor s0 w0) as Hs. pose proof (stop_not_running s0 w0) as (Hr1 & _).
      destruct (stop s0 w0) as [s1 w1]. cbn [fst] in Hr1. destruct Hs as [Hu1 Hc1].
      apply IH; [congruence|]. rewrite Hc1, Hr1, Hc.
      destruct (running s0), (TerminalUI.debug (ui self)); reflexivity. }
  apply G; [reflexivity|]. rewrite Hv, Hr. reflexivity.
Qed.

(** Started, stopped, started: the cursor is hidden. *)
Lemma X1_cursor_hidden_only_while_running_witness :
  running (Sample.spinner DOTS) = false /\
  cursor_visible (out Sample.world) = true /\
  cursor_visible (out (snd (run [Start; Stop; Start] (Sample.spinner DOTS) Sample.world)))
  = false.
Proof.
  split; [reflexivity|]. split; [reflexivity|].
  pose proof (X1_cursor_hidden_only_while_running (Sample.spinner DOTS)
                [Start; Stop; Start] Sample.world eq_refl eq_refl) as H.
  destruct (run [Start; Stop; Start] (Sample.spinner DOTS) Sample.world) as [s w'] eqn:E.
  cbn [snd]. rewrite H.
  replace s with (fst (run [Start; Stop; Start] (Sample.spinner DOTS) Sample.world))
    by (rewrite E; reflexivity).
  reflexivity.
Defined.

(** The frame of a turn of the loop, for a spinner as [__init__] makes it. *)
Lemma frame_at_found (self : Spinner.t) (k : Z) (w : World) :
  frames self = SpinnerStyle_value (style self) ->
  exists frame w',
    frame_at self k w = (Ok frame, w') /\
    In frame (SpinnerStyle_value (style self)) /\
    out w' = out w.
Proof.
  intros Hf. pose proof (style_value_nonempty (style self)) as Hn. rewrite <- Hf in Hn.
  unfold frame_at. destruct (decide (style self = MATRIX)) as [E | E].
  - unfold random_choice. destruct (frames self) as [|f0 rest] eqn:Efr; [simpl in Hn; lia|].
    rewrite <- Efr in *.
    destruct (frames self !! (env_choice w (reads w) mod length (frames self))%nat)
      as [f|] eqn:El.
    + exists f, (next_read w). split; [reflexivity|]. split; [|reflexivity].
      rewrite <- Hf. apply list_elem_of_In. eapply list_elem_of_lookup_2. exact El.
    + apply lookup_ge_None in El.
      pose proof (Nat.mod_upper_bound (env_choice w (reads w)) (length (frames self))).
      lia.
  - set (n := Z.of_nat (length (frames self))).
    assert (Hn0 : 0 < n) by (unfold n; lia).
    assert (E0 : (n =? 0) = false) by (apply Z.eqb_neq; lia). rewrite E0.
    pose proof (Z.mod_pos_bound k n Hn0) as Hb.
    destruct (frames self !! Z.to_nat (k mod n)) as [f|] eqn:El.
    + exists f, w. split; [reflexivity|]. split; [|reflexivity].
      rewrite <- Hf. apply list_elem_of_In. eapply list_elem_of_lookup_2. exact El.
    + apply lookup_ge_None in El. unfold n in *. lia.
Qed.

(** X2: for every style, MATRIX included, the loop finds a frame, and the
    frame is one of the glyphs of the style: neither the modulo nor the
    random choice fails. *)
Theorem X2_frame_is_a_glyph_of_the_style (self : Spinner.t) (k : Z) (w : World) :
  frames self = SpinnerStyle_value (style self) ->
  exists frame w',
    frame_at self k w = (Ok frame, w') /\
    In frame (SpinnerStyle_value (style self)) /\
    out w' = out w.
Proof. exact (frame_at_found self k w). Qed.

(** The MATRIX spinner draws a glyph. *)
Lemma X2_frame_is_a_glyph_of_the_style_witness :
  frames (Sample.spinner MATRIX) = SpinnerStyle_value (style (Sample.spinner MATRIX)) /\
  exists frame w', frame_at (Sample.spinner MATRIX) 7 Sample.world = (Ok frame, w').
Proof.
  split; [reflexivity|].
  destruct (X2_frame_is_a_glyph_of_the_style (Sample.spinner MATRIX) 7 Sample.world eq_refl)
    as (f & w' & H & _). exists f, w'. exact H.
Defined.

End SpinnerMore.

(** ** Rounding of negative values *)

Module FloatFactsNeg.
Import Float FloatFacts.
Local Open Scope Q_scope.

(** Rounding does not step over a representable value from above either:
    a value in [[W, 0]] rounds into [[W, 0]] for an int [-2^53 <= W <= 0]. *)
Lemma round_bounds_neg (y : Q) (W : Z) :
  (- 2 ^ 53 <= W <= 0)%Z -> inject_Z W <= y -> y <= 0 ->
  inject_Z W <= round y /\ round y <= 0.
Proof.
  intros HW Hlo Hhi. destruct (Qlt_le_dec y 0) as [Hneg | Hz].
  - unfold round, round_red.
    assert (Hr : Qred y < 0) by (rewrite Qred_correct; exact Hneg).
    destruct (Qcompare_spec 0 (Qred y)) as [He | Hl | Hg]; [lra | lra |].
    rewrite Qred_correct.
    assert (Hp : 0 < - Qred y) by lra.
    pose proof (rnd_pos_pos _ Hp) as H0.
    assert (HWneg : (W < 0)%Z).
    { destruct (Z.eq_dec W 0) as [-> | ?]; [|lia].
      change (inject_Z 0) with 0 in Hlo. lra. }
    assert (Hrep : representable (inject_Z (- W))) by (apply representable_int; lia).
    assert (Hle : - Qred y <= inject_Z (- W)).
    { rewrite Qred_correct, inject_Z_opp. lra. }
    pose proof (rnd_pos_le_representable _ _ Hp Hrep Hle) as H1.
    rewrite inject_Z_opp in H1. split; lra.
  - assert (E : y == 0) by lra. rewrite (round_comp y 0 E). change (round 0) with 0.
    split; [|lra]. change 0 with (inject_Z 0). rewrite <- Zle_Qle. lia.
Qed.

(** A negative value rounds to a negative value. *)
Lemma round_neg (y : Q) : y < 0 -> round y < 0.
Proof.
  intros Hneg. unfold round, round_red.
  assert (Hr : Qred y < 0) by (rewrite Qred_correct; exact Hneg).
  destruct (Qcompare_spec 0 (Qred y)) as [He | Hl | Hg]; [lra | lra |].
  rewrite Qred_correct.
  assert (Hp : 0 < - Qred y) by lra.
  pose proof (rnd_pos_pos _ Hp) as H0. lra.
Qed.

(** [int(f)] of a float in [[W, 0]] is in [[W, 0]]. *)
Lemma trunc_bounds_neg (f : Q) (W : Z) :
  inject_Z W <= f -> f <= 0 -> (W <= trunc f <= 0)%Z.
Proof.
  intros H0 H1. unfold trunc.
  assert (Hn : (Qnum f <= 0)%Z).
  { destruct f as [n d]. unfold Qle in H1. simpl in *. lia. }
  replace (Qnum f) with (- - Qnum f)%Z by lia.
  rewrite Z.quot_opp_l by lia. rewrite Z.quot_div_nonneg by lia.
  replace (- Qnum f / Z.pos (Qden f))%Z with (Qfloor (- f)) by (destruct f; reflexivity).
  assert (Hf0 : (0 <= Qfloor (- f))%Z).
  { change 0%Z with (Qfloor 0). apply Qfloor_resp_le. lra. }
  assert (Hf1 : (Qfloor (- f) <= - W)%Z).
  { rewrite <- (Qfloor_Z (- W)). apply Qfloor_resp_le. rewrite inject_Z_opp. lra. }
  lia.
Qed.

(** [int((c / t) * W)] lies in [[W, 0]] for [0 <= c <= t], [0 < t] and
    [-2^53 <= W <= 0]. *)
Lemma scaled_ratio_bounds_neg (c t W : Z) :
  (0 <= c <= t)%Z -> (0 < t)%Z -> (- 2 ^ 53 <= W <= 0)%Z ->
  (W <= trunc (mul (round (inject_Z c / inject_Z t)) (of_int W)) <= 0)%Z.
Proof.
  intros Hc Ht HW.
  assert (HT : 0 < inject_Z t) by (change 0 with (inject_Z 0); rewrite <- Zlt_Qlt; lia).
  assert (HC0 : 0 <= inject_Z c) by (change 0 with (inject_Z 0); rewrite <- Zle_Qle; lia).
  assert (HCT : inject_Z c <= inject_Z t) by (rewrite <- Zle_Qle; lia).
  assert (Hq0 : 0 <= inject_Z c / inject_Z t).
  { apply Qle_shift_div_l; [exact HT | lra]. }
  assert (Hq1 : inject_Z c / inject_Z t <= 1).
  { apply Qle_shift_div_r; [exact HT | lra]. }
  pose proof (round_nonneg _ Hq0) as Hr0.
  pose proof (round_le_representable _ 1 Hq0 (or_intror representable_one) Hq1) as Hr1.
  assert (HW0 : inject_Z W <= 0) by (change 0 with (inject_Z 0); rewrite <- Zle_Qle; lia).
  destruct (round_bounds_neg (inject_Z W) W HW (Qle_refl _) HW0) as [Hw0 Hw1].
  fold (of_int W) in Hw0, Hw1.
  set (q := round (inject_Z c / inject_Z t)) in *. set (wf := of_int W) in *.
  assert (Hp0 : inject_Z W <= q * wf) by nra.
  assert (Hp1 : q * wf <= 0) by nra.
  destruct (round_bounds_neg (q * wf) W HW Hp0 Hp1) as [Ha Hb].
  apply trunc_bounds_neg; assumption.
Qed.

End FloatFactsNeg.

(** ** ProgressBar: percentages, painting in place, narrow terminals *)

Section ProgressBarMore.
Import ProgressBar ProgressBarFacts.

(** X4: for [total > 0] and [0 <= current <= total] the percentage, as
    computed in floats, is an int from 0 to 100. *)
Theorem X4_percentage_is_within_0_100 (self : ProgressBar.t) :
  0 < total self -> 0 <= current self <= total self ->
  exists p, percentage self = Ok p /\ 0 <= p <= 100.
Proof.
  intros Ht Hc. unfold percentage.
  assert (E : (total self =? 0) = false) by (apply Z.eqb_neq; lia). rewrite E.
  rewrite int_truediv_ok by lia. cbn [mbind result_bind].
  eexists. split; [reflexivity|].
  apply (FloatFacts.scaled_ratio_bounds (current self) (total self) 100); lia.
Qed.

(** One third of the way: 33 per cent. *)
Lemma X4_percentage_is_within_0_100_witness :
  0 < total (set_current 1 (Sample.bar 3 10)) /\
  0 <= current (set_current 1 (Sample.bar 3 10)) <= total (set_current 1 (Sample.bar 3 10)) /\
  exists p, percentage (set_current 1 (Sample.bar 3 10)) = Ok p /\ 0 <= p <= 100.
Proof.
  assert (H1 : 0 < total (set_current 1 (Sample.bar 3 10))) by reflexivity.
  assert (H2 : 0 <= current (set_current 1 (Sample.bar 3 10))
               <= total (set_current 1 (Sample.bar 3 10))) by (cbn; lia).
  split; [exact H1|]. split; [exact H2|].
  exact (X4_percentage_is_within_0_100 (set_current 1 (Sample.bar 3 10)) H1 H2).
Defined.

(** X5: a loop of updates only repaints the bar's line: what it sends is
    a sequence of clear-line and write pairs, at most one per update, with
    no newline and no cursor movement, so the bar stays on its line. *)
Theorem X5_updates_paint_in_place (amounts : list Z) (self : ProgressBar.t) (w : World) :
  exists self' w' lines,
    updates amounts self w = Ok (self', w') /\
    out w' = out w ++ paints lines /\
    (length lines <= length amounts)%nat /\
    MultiProgress.newlines (paints lines) = O /\
    MultiProgress.move_ups (paints lines) = O.
Proof.
  assert (Hcount : forall lines, MultiProgress.newlines (paints lines) = O /\
                                 MultiProgress.move_ups (paints lines) = O).
  { induction lines as [|l rest [IH1 IH2]]; [split; reflexivity|].
    unfold paints in *. cbn [map concat app MultiProgress.newlines MultiProgress.move_ups].
    split; assumption. }
  assert (G : forall amounts self w, exists self' w' lines,
            updates amounts self w = Ok (self', w') /\
            out w' = out w ++ paints lines /\ (length lines <= length amounts)%nat).
  { clear amounts self w. induction amounts as [|a rest IH]; intros self w.
    - exists self, w, []. cbn. rewrite app_nil_r. repeat split. lia.
    - cbn [updates].
      destruct (update_spec a self w) as [[Hu _] | (w1 & Hu & Hr)]; rewrite Hu;
        cbn [mbind result_bind].
      + match goal with |- context [updates rest ?s ?w0] =>
          destruct (IH s w0) as (s2 & w2 & lines & H2 & Hout & Hlen) end.
        exists s2, w2, lines. split; [exact H2|]. split; [exact Hout|]. cbn. lia.
      + match goal with |- context [updates rest ?s ?w0] =>
          destruct (IH s w0) as (s2 & w2 & lines & H2 & Hout & Hlen) end.
        match type of Hr with _render ?s ?w0 = _ =>
          destruct (render_spec s w0) as (pct & f & e & tl & w3 & _ & _ & _ & Hr3 & Hout3) end.
        rewrite Hr in Hr3. inversion Hr3; subst w3.
        eexists s2, w2, (_ :: lines). split; [exact H2|]. split.
        * rewrite Hout, Hout3. unfold paints. cbn [map concat next_read out].
          rewrite <- !app_assoc. reflexivity.
        * cbn. lia. }
  destruct (G amounts self w) as (s' & w' & lines & H & Hout & Hlen).
  destruct (Hcount lines) as [Hn Hm].
  exists s', w', lines. repeat split; assumption.
Qed.

(** X12: on a terminal of at most 30 columns the default width,
    [min(40, ui.width - 30)], is zero or negative; a bar of such a width
    renders without failure, with an empty body. *)
Theorem X12_narrow_terminal_gives_empty_bar (self : ProgressBar.t) (w : World) :
  0 < total self -> 0 <= current self <= total self ->
  - 2 ^ 53 <= width self <= 0 ->
  (forall ui, TerminalUI.width ui <= 30 ->
     width_or_default ui None <= 0 /\ width_or_default ui (Some 0) <= 0) /\
  bar_body self = Ok ([], []) /\
  exists w' pct tail,
    _render self w = Ok w' /\
    out w' = out w ++ [ClearLine; WriteLine (line self pct [] [] tail)].
Proof.
  intros Ht Hc Hw.
  pose proof (FloatFactsNeg.scaled_ratio_bounds_neg (current self) (total self) (width self)
                Hc Ht Hw) as Hb.
  assert (Hbody : bar_body self = Ok ([], [])).
  { unfold bar_body, filled_width. apply Z.ltb_lt in Ht. rewrite Ht. apply Z.ltb_lt in Ht.
    rewrite int_truediv_ok by lia. cbn [mbind result_bind].
    destruct (glyphs_ok (style self)) as (f & e & Hg). rewrite Hg.
    unfold str_repeat, float_mul_int.
    set (fw := Float.trunc _) in *.
    replace (Z.to_nat fw) with O by lia.
    replace (Z.to_nat (width self - fw)) with O by lia. reflexivity. }
  split; [|split; [exact Hbody|]].
  - intros ui Hui. unfold width_or_default. cbn. lia.
  - destruct (render_spec self w) as (pct & fl & em & tl & w' & _ & Hb2 & _ & Hr & Hout).
    rewrite Hbody in Hb2. inversion Hb2; subst fl em.
    exists w', pct, tl. split; [exact Hr | exact Hout].
Qed.

(** A bar whose width came out as -10. *)
Lemma X12_narrow_terminal_gives_empty_bar_witness :
  0 < total (Sample.bar 4 (-10)) /\
  0 <= current (Sample.bar 4 (-10)) <= total (Sample.bar 4 (-10)) /\
  - 2 ^ 53 <= width (Sample.bar 4 (-10)) <= 0 /\
  bar_body (Sample.bar 4 (-10)) = Ok ([], []).
Proof.
  assert (H1 : 0 < total (Sample.bar 4 (-10))) by reflexivity.
  assert (H2 : 0 <= current (Sample.bar 4 (-10)) <= total (Sample.bar 4 (-10)))
    by (cbn; lia).
  assert (H3 : - 2 ^ 53 <= width (Sample.bar 4 (-10)) <= 0) by (cbn; lia).
  split; [exact H1|]. split; [exact H2|]. split; [exact H3|].
  exact (proj1 (proj2 (X12_narrow_terminal_gives_empty_bar (Sample.bar 4 (-10))
                         Sample.world H1 H2 H3))).
Defined.

End ProgressBarMore.

(** ** MultiProgress: the registry *)

Section MultiProgressMore.
Import MultiProgress.

(** What [add_progress] does, by the keywords it is given. *)
Lemma add_progress_cases
    (name message : string) (total : Z) (style : ProgressStyle) (kw : kwargs)
    (self : MultiProgress.t) (h : heap) (w : World) :
  exists res self' h' w',
    add_progress name message total style kw self h w = (res, self', h', w') /\
    out w' = out w ++ [LockAcquire; LockRelease] /\
    (kw_complete kw = false ->
       res = Raise TypeError /\ self' = self /\ h' = h) /\
    (kw_complete kw = true ->
       res = Ok (length h) /\
       dict_get (progress_bars self') name = Some (length h) /\
       exists pbar, h' = h ++ [pbar] /\ MultiProgress.name pbar = name /\
         ProgressBar.total (base pbar) = total /\ ProgressBar.current (base pbar) = 0).
Proof.
  unfold add_progress, ManagedProgressBar__init__, kw_complete.
  destruct (kw_width kw) as [wd|], (kw_show_percentage kw) as [sp|],
    (kw_show_eta kw) as [se|], (kw_color_key kw) as [ck|], (kw_other kw) as [|o os];
    try (eexists _, _, _, _; split; [reflexivity|];
         split; [cbn [emit out]; rewrite <- app_assoc; reflexivity|];
         split; [intros _; repeat split | discriminate]).
  unfold ProgressBar.__init__. cbn [time_time mbind result_bind].
  eexists _, _, _, _. split; [reflexivity|].
  split; [cbn [emit out next_read]; rewrite <- app_assoc; reflexivity|].
  split; [discriminate|]. intros _. split; [reflexivity|]. split.
  - cbn [progress_bars]. generalize (length h). generalize (progress_bars self).
    induction l as [|[k v] rest IH]; intros n; cbn [dict_set dict_get].
    + rewrite String.eqb_refl. reflexivity.
    + destruct (String.eqb k name) eqn:E; cbn [dict_get]; rewrite E; [reflexivity | apply IH].
  - eexists. split; [reflexivity|]. repeat split.
Qed.

(** X9: [add_progress] succeeds exactly when its keyword arguments are
    [width], [show_percentage], [show_eta] and [color_key], for which
    [ProgressBar.__init__] has no default, all four and no other;
    otherwise, one of them missing or another keyword passed, it raises
    TypeError and registers nothing.  Either way it paints nothing and
    releases the lock it took.  On success the new bar is a new object, at
    [current = 0], registered under its name. *)
Theorem X9_add_progress_takes_exactly_its_four_keywords
    (name message : string) (total : Z) (style : ProgressStyle) (kw : kwargs)
    (self : MultiProgress.t) (h : heap) (w : World) :
  exists res self' h' w',
    add_progress name message total style kw self h w = (res, self', h', w') /\
    out w' = out w ++ [LockAcquire; LockRelease] /\
    (kw_complete kw = false ->
       res = Raise TypeError /\ self' = self /\ h' = h) /\
    (kw_complete kw = true ->
       res = Ok (length h) /\
       dict_get (progress_bars self') name = Some (length h) /\
       exists pbar, h' = h ++ [pbar] /\ MultiProgress.name pbar = name /\
         ProgressBar.total (base pbar) = total /\ ProgressBar.current (base pbar) = 0).
Proof. exact (add_progress_cases name message total style kw self h w). Qed.

Lemma dict_set_keys_present (d : list (string * nat)) (k : string) (v : nat) :
  dict_contains d k = true -> map fst (dict_set d k v) = map fst d.
Proof.
  induction d as [|[k' v'] rest IH]; intros H; [discriminate|].
  cbn [dict_contains existsb fst] in H. cbn [dict_set].
  destruct (String.eqb k' k) eqn:E; [reflexivity|].
  cbn [orb] in H. cbn [map fst]. f_equal. apply IH. exact H.
Qed.

Lemma dict_contains_In (d : list (string * nat)) (k : string) :
  dict_contains d k = true <-> In k (map fst d).
Proof.
  induction d as [|[k' v'] rest IH]; cbn [dict_contains existsb map fst In].
  - split; [discriminate | tauto].
  - rewrite orb_true_iff, String.eqb_eq. fold (dict_contains rest k). rewrite IH. tauto.
Qed.

Lemma dict_set_values (d : list (string * nat)) (k : string) (v : nat) :
  forall x, In x (map snd (dict_set d k v)) -> x = v \/ In x (map snd d).
Proof.
  induction d as [|[k' v'] rest IH]; intros x; cbn [dict_set map snd In].
  - intros [H | []]. left. congruence.
  - destruct (String.eqb k' k); cbn [map snd In].
    + intros [H | H]; [left; congruence | right; right; exact H].
    + intros [H | H]; [right; left; exact H|]. destruct (IH x H); [left | right; right]; assumption.
Qed.

Lemma dict_set_values_nodup (d : list (string * nat)) (k : string) (v : nat) :
  NoDup (map snd d) -> ~ In v (map snd d) -> NoDup (map snd (dict_set d k v)).
Proof.
  induction d as [|[k' v'] rest IH]; intros Hn Hv; cbn [dict_set map snd].
  - constructor; [apply not_elem_of_nil | constructor].
  - cbn [map snd] in Hn, Hv. apply NoDup_cons in Hn as [Hn1 Hn2].
    rewrite list_elem_of_In in Hn1.
    destruct (String.eqb k' k); cbn [map snd].
    + apply NoDup_cons. split; [|exact Hn2]. rewrite list_elem_of_In. cbn in Hv. tauto.
    + apply NoDup_cons. split.
      * rewrite list_elem_of_In. intros H. destruct (dict_set_values _ _ _ _ H) as [-> | H'].
        -- apply Hv. left. reflexivity.
        -- contradiction.
      * apply IH; [exact Hn2|]. cbn in Hv. tauto.
Qed.

Lemma dict_del_filter (d : list (string * nat)) (k : string) :
  NoDup (map fst d) ->
  dict_del d k = List.filter (fun kv => negb (String.eqb (fst kv) k)) d.
Proof.
  induction d as [|[k' v'] rest IH]; intros Hn; [reflexivity|].
  cbn [map fst] in Hn. apply NoDup_cons in Hn as [Hn1 Hn2].
  cbn [dict_del List.filter fst]. destruct (String.eqb k' k) eqn:E; cbn [negb].
  - apply String.eqb_eq in E. subst k'.
    symmetry. apply forallb_filter_id. apply forallb_forall. intros [k2 v2] Hin.
    cbn [fst]. apply negb_true_iff. apply String.eqb_neq. intros ->.
    apply Hn1. rewrite list_elem_of_In. apply in_map_iff. exists (k, v2). split; [reflexivity | exact Hin].
  - f_equal. apply IH. exact Hn2.
Qed.

Lemma filter_keeps (d : list (string * nat)) (f : string * nat -> bool) :
  (NoDup (map fst d) -> NoDup (map fst (List.filter f d))) /\
  (NoDup (map snd d) -> NoDup (map snd (List.filter f d))) /\
  (forall x, In x (List.filter f d) -> In x d).
Proof.
  assert (Hin : forall x, In x (List.filter f d) -> In x d).
  { intros x H. apply filter_In in H. tauto. }
  split; [|split; [|exact Hin]].
  - induction d as [|kv rest IH]; intros Hn; [constructor|].
    cbn [map] in Hn. apply NoDup_cons in Hn as [Hn1 Hn2]. cbn [List.filter].
    assert (Hin' : forall x, In x (List.filter f rest) -> In x rest).
    { intros x H. apply filter_In in H. tauto. }
    destruct (f kv); [|apply IH; assumption]. cbn [map]. apply NoDup_cons. split.
    + rewrite list_elem_of_In in *. intros H. apply Hn1. apply in_map_iff in H as (x & Hx & Hi).
      apply in_map_iff. exists x. split; [exact Hx | apply Hin'; exact Hi].
    + apply IH; assumption.
  - induction d as [|kv rest IH]; intros Hn; [constructor|].
    cbn [map] in Hn. apply NoDup_cons in Hn as [Hn1 Hn2]. cbn [List.filter].
    assert (Hin' : forall x, In x (List.filter f rest) -> In x rest).
    { intros x H. apply filter_In in H. tauto. }
    destruct (f kv); [|apply IH; assumption]. cbn [map]. apply NoDup_cons. split.
    + rewrite list_elem_of_In in *. intros H. apply Hn1. apply in_map_iff in H as (x & Hx & Hi).
      apply in_map_iff. exists x. split; [exact Hx | apply Hin'; exact Hi].
    + apply IH; assumption.
Qed.

Lemma add_progress_keeps_registry
    (name message : string) (total : Z) (style : ProgressStyle) (kw : kwargs)
    (self : MultiProgress.t) (h : heap) (w : World) :
  registry_ok self h ->
  let '(_, self', h', _) := add_progress name message total style kw self h w in
  registry_ok self' h'.
Proof.
  intros (Hk & Hv & Hwf). unfold add_progress.
  destruct (ManagedProgressBar__init__ (ui self) name message total style kw
              (emit LockAcquire w)) as [[pbar w1]|e]; [|repeat split; assumption].
  assert (Hfresh : ~ In (length h) (map snd (progress_bars self))).
  { intros H. apply in_map_iff in H as (kv & Hkv & Hin).
    unfold wf in Hwf. rewrite Forall_forall in Hwf.
    pose proof (Hwf kv (proj2 (list_elem_of_In _ _) Hin)). lia. }
  split; [|split]; cbn [progress_bars].
  - destruct (dict_contains (progress_bars self) name) eqn:E.
    + rewrite dict_set_keys_present by exact E. exact Hk.
    + rewrite dict_set_fresh by exact E. rewrite map_app. cbn [map fst].
      apply NoDup_app. split; [exact Hk|]. split; [|apply NoDup_singleton].
      intros x Hx Hx'. apply list_elem_of_singleton in Hx'. subst x.
      rewrite list_elem_of_In in Hx. apply dict_contains_In in Hx. congruence.
  - apply dict_set_values_nodup; assumption.
  - unfold wf. cbn [progress_bars]. apply Forall_forall. intros kv Hin.
    rewrite length_app. cbn [length].
    rewrite list_elem_of_In in Hin.
    assert (Hs : In (snd kv) (map snd (dict_set (progress_bars self) name (length h)))).
    { apply in_map. exact Hin. }
    destruct (dict_set_values _ _ _ _ Hs) as [-> | H']; [lia|].
    apply in_map_iff in H' as (kv' & Hkv' & Hin').
    unfold wf in Hwf. rewrite Forall_forall in Hwf.
    pose proof (Hwf kv' (proj2 (list_elem_of_In _ _) Hin')). lia.
Qed.

Lemma remove_progress_spec (name : string) (self : MultiProgress.t) (w : World) :
  NoDup (map fst (progress_bars self)) ->
  let '(self', w') := remove_progress name self w in
  progress_bars self'
  = List.filter (fun kv => negb (String.eqb (fst kv) name)) (progress_bars self) /\
  out w' = out w ++ [LockAcquire; LockRelease].
Proof.
  intros Hk. unfold remove_progress. cbn [emit out]. rewrite <- app_assoc. split; [|reflexivity].
  destruct (dict_contains (progress_bars self) name) eqn:E; cbn [progress_bars].
  - apply dict_del_filter. exact Hk.
  - symmetry. apply forallb_filter_id. apply forallb_forall. intros kv Hin.
    apply negb_true_iff. apply String.eqb_neq. intros Heq.
    assert (H : dict_contains (progress_bars self) name = true).
    { apply dict_contains_In. apply in_map_iff. exists kv. split; assumption. }
    congruence.
Qed.

Lemma mp_run_keeps_registry (ops : list mp_op) (self : MultiProgress.t) (h : heap) (w : World) :
  registry_ok self h ->
  let '(self', h', _) := mp_run ops self h w in registry_ok self' h'.
Proof.
  revert self h w. induction ops as [|o rest IH]; intros self h w Hok; cbn [mp_run];
    [exact Hok|].
  destruct o as [name message total style kw | name].
  - pose proof (add_progress_keeps_registry name message total style kw self h w Hok) as H.
    destruct (add_progress name message total style kw self h w) as [[[res self1] h1] w1].
    apply IH. exact H.
  - destruct Hok as (Hk & Hv & Hwf).
    pose proof (remove_progress_spec name self w Hk) as H.
    destruct (remove_progress name self w) as [self1 w1]. destruct H as [Hp _].
    apply IH. destruct (filter_keeps (progress_bars self)
                          (fun kv => negb (String.eqb (fst kv) name))) as (F1 & F2 & F3).
    unfold registry_ok, wf. rewrite Hp. split; [apply F1; exact Hk|].
    split; [apply F2; exact Hv|].
    apply Forall_forall. intros kv Hin. rewrite list_elem_of_In in Hin. apply F3 in Hin.
    unfold wf in Hwf. rewrite Forall_forall in Hwf. apply Hwf. apply list_elem_of_In. exact Hin.
Qed.

(** X10: after any sequence of [add_progress] and [remove_progress] on a
    new [MultiProgress], every name is registered once, the registered
    bars are distinct allocated objects, and [remove_progress(name)] paints
    nothing and leaves exactly the other entries, in their order: the name
    is registered no more, and removing a name that is not registered
    changes nothing. *)
Theorem X10_registry_under_add_and_remove
    (ui : TerminalUI.t) (ops : list mp_op) (name : string) (w : World) :
  let '(self, h, w1) := mp_run ops (__init__ ui) [] w in
  registry_ok self h /\
  let '(self', w2) := remove_progress name self w1 in
  progress_bars self'
  = List.filter (fun kv => negb (String.eqb (fst kv) name)) (progress_bars self) /\
  dict_get (progress_bars self') name = None /\
  (forall other, other <> name ->
     dict_get (progress_bars self') other = dict_get (progress_bars self) other) /\
  (dict_contains (progress_bars self) name = false ->
     progress_bars self' = progress_bars self) /\
  out w2 = out w1 ++ [LockAcquire; LockRelease].
Proof.
  assert (Hinit : registry_ok (__init__ ui) []).
  { repeat split; cbn; constructor. }
  pose proof (mp_run_keeps_registry ops (__init__ ui) [] w Hinit) as Hok.
  destruct (mp_run ops (__init__ ui) [] w) as [[self h] w1].
  split; [exact Hok|]. destruct Hok as (Hk & _ & _).
  pose proof (remove_progress_spec name self w1 Hk) as H.
  assert (Hnochange : dict_contains (progress_bars self) name = false ->
            fst (remove_progress name self w1) = self).
  { intros E. unfold remove_progress. rewrite E. reflexivity. }
  destruct (remove_progress name self w1) as [self' w2]. destruct H as [Hp Hout].
  split; [exact Hp|]. rewrite Hp. split; [|split; [|split; [|exact Hout]]].
  - generalize (progress_bars self). induction l as [|[k v] rest IH]; [reflexivity|].
    cbn [List.filter fst]. destruct (String.eqb k name) eqn:E; cbn [negb]; [exact IH|].
    cbn [dict_get]. rewrite E. exact IH.
  - intros other Hne. generalize (progress_bars self).
    induction l as [|[k v] rest IH]; [reflexivity|].
    cbn [List.filter fst dict_get]. destruct (String.eqb k name) eqn:E; cbn [negb].
    + apply String.eqb_eq in E. subst k.
      assert (E2 : String.eqb name other = false) by (apply String.eqb_neq; congruence).
      rewrite E2. exact IH.
    + cbn [dict_get]. destruct (String.eqb k other); [reflexivity | exact IH].
  - intros E. rewrite <- Hp. pose proof (Hnochange E) as H. cbn [fst] in H. rewrite H.
    reflexivity.
Qed.

(** X11: [add_progress] under a name that is registered, with all its
    keywords, puts a new bar in the place of the old one: the names and
    their order are as before, the name now leads to the new object, and
    the old object is registered no more, so [render_all] paints it no
    more; the caller who still holds it updates a bar that is not shown. *)
Theorem X11_add_under_registered_name_replaces
    (ui : TerminalUI.t) (ops : list mp_op)
    (name message : string) (total : Z) (style : ProgressStyle) (kw : kwargs)
    (w : World) :
  let '(self, h, w1) := mp_run ops (__init__ ui) [] w in
  forall old, dict_get (progress_bars self) name = Some old -> kw_complete kw = true ->
  let '(_, self', h', _) := add_progress name message total style kw self h w1 in
  map fst (progress_bars self') = map fst (progress_bars self) /\
  dict_get (progress_bars self') name = Some (length h) /\
  old <> length h /\
  ~ In old (map snd (progress_bars self')) /\
  h' !! old = h !! old.
Proof.
  assert (Hinit : registry_ok (__init__ ui) []).
  { repeat split; cbn; constructor. }
  pose proof (mp_run_keeps_registry ops (__init__ ui) [] w Hinit) as Hok.
  destruct (mp_run ops (__init__ ui) [] w) as [[self h] w1].
  intros old Hold Hkw. destruct Hok as (Hk & Hv & Hwf).
  destruct (add_progress_cases name message total style kw self h w1)
    as (res & self' & h' & w' & Hadd & _ & _ & Hsucc).
  destruct (Hsucc Hkw) as (Hres & Hget & pbar & Hh & _).
  assert (Hself : progress_bars self' = dict_set (progress_bars self) name (length h)).
  { unfold add_progress in Hadd.
    destruct (ManagedProgressBar__init__ (MultiProgress.ui self) name message total style kw
                (emit LockAcquire w1)) as [[pb w2]|e].
    - injection Hadd as _ Hs _ _. rewrite <- Hs. reflexivity.
    - injection Hadd as Hr _ _ _. rewrite <- Hr in Hres. discriminate. }
  rewrite Hadd.
  assert (Hin_old : In (name, old) (progress_bars self)).
  { clear - Hold. induction (progress_bars self) as [|[k v] rest IH]; [discriminate|].
    cbn [dict_get] in Hold. destruct (String.eqb k name) eqn:E.
    - apply String.eqb_eq in E. inversion Hold; subst. left. reflexivity.
    - right. apply IH. exact Hold. }
  assert (Hold_lt : (old < length h)%nat).
  { unfold wf in Hwf. rewrite Forall_forall in Hwf.
    exact (Hwf (name, old) (proj2 (list_elem_of_In _ _) Hin_old)). }
  assert (Hcont : dict_contains (progress_bars self) name = true).
  { apply dict_contains_In. apply in_map_iff. exists (name, old). split; [reflexivity | exact Hin_old]. }
  split; [rewrite Hself; apply dict_set_keys_present; exact Hcont|].
  split; [exact Hget|]. split; [lia|]. split.
  - rewrite Hself. clear - Hk Hv Hold Hold_lt.
    revert Hk Hv Hold. generalize (progress_bars self).
    induction l as [|[k v] rest IH]; intros Hk Hv Hold; [discriminate|].
    cbn [map fst snd] in Hk, Hv. apply NoDup_cons in Hk as [Hk1 Hk2].
    apply NoDup_cons in Hv as [Hv1 Hv2].
    cbn [dict_get] in Hold. cbn [dict_set]. destruct (String.eqb k name) eqn:E.
    + inversion Hold; subst v. cbn [map snd In]. intros [H | H]; [lia|].
      apply Hv1. apply list_elem_of_In. exact H.
    + cbn [map snd In]. intros [H | H].
      * subst v. apply Hv1. apply list_elem_of_In.
        clear - Hold. induction rest as [|[k2 v2] r IH2]; [discriminate|].
        cbn [dict_get] in Hold. cbn [map snd In]. destruct (String.eqb k2 name).
        -- inversion Hold. left. reflexivity.
        -- right. apply IH2. exact Hold.
      * exact (IH Hk2 Hv2 Hold H).
  - rewrite Hh. apply lookup_app_l. exact Hold_lt.
Qed.

(** A registry with ["a"] and ["b"]; ["a"] is added again. *)
Lemma X11_add_under_registered_name_replaces_witness :
  dict_get
    (progress_bars
       (fst (fst (mp_run [Add "a" "first" 10 PBLOCKS Sample.kw;
                          Add "b" "second" 10 PBLOCKS Sample.kw]
                    (__init__ Sample.ui) [] Sample.world)))) "a" = Some 0%nat /\
  kw_complete Sample.kw = true /\
  map fst
    (progress_bars
       (fst (fst (mp_run [Add "a" "first" 10 PBLOCKS Sample.kw;
                          Add "b" "second" 10 PBLOCKS Sample.kw;
                          Add "a" "again" 5 PBLOCKS Sample.kw]
                    (__init__ Sample.ui) [] Sample.world))))
  = ["a"; "b"].
Proof.
  split; [reflexivity|]. split; [reflexivity|].
  pose proof (X11_add_under_registered_name_replaces Sample.ui
                [Add "a" "first" 10 PBLOCKS Sample.kw; Add "b" "second" 10 PBLOCKS Sample.kw]
                "a" "again" 5 PBLOCKS Sample.kw Sample.world) as H.
  cbv beta iota zeta delta [mp_run] in H.
  destruct (add_progress "a" "first" 10 PBLOCKS Sample.kw (__init__ Sample.ui) [] Sample.world)
    as [[[r1 s1] h1] w1] eqn:E1.
  destruct (add_progress "b" "second" 10 PBLOCKS Sample.kw s1 h1 w1)
    as [[[r2 s2] h2] w2] eqn:E2.
  assert (Hs2 : map fst (progress_bars s2) = ["a"; "b"] /\
                dict_get (progress_bars s2) "a" = Some 0%nat).
  { unfold add_progress in E1. cbn in E1. inversion E1; subst.
    unfold add_progress in E2. cbn in E2. inversion E2; subst. split; reflexivity. }
  destruct Hs2 as [Hnames Hget].
  specialize (H 0%nat Hget eq_refl).
  cbn [mp_run]. rewrite E1, E2.
  destruct (add_progress "a" "again" 5 PBLOCKS Sample.kw s2 h2 w2) as [[[r3 s3] h3] w3].
  cbn [fst]. destruct H as (Hm & _). rewrite Hm. exact Hnames.
Defined.

End MultiProgressMore.

(** ** TerminalUI: construction, speed, themes *)

Section UIInitMore.
Import UIInit.

Lemma lookup_In {A : Type} (d : list (string * A)) (k : string) (v : A) :
  lookup d k = Some v -> In v (map snd d).
Proof.
  induction d as [|[k' v'] rest IH]; [discriminate|]. cbn [lookup map snd In].
  destruct (String.eqb k' k); [intros H; inversion H; left; reflexivity|].
  intros H. right. apply IH. exact H.
Qed.

(** Every theme of the table has the ten keys. *)
Lemma themes_are_complete (c : Palette) (d : theme_dict) :
  In d (map snd (THEMES c)) -> exists th, theme_of_dict d = Some th.
Proof.
  cbn [THEMES map snd In].
  intros [H | [H | [H | [H | [H | [H | [H | [H | []]]]]]]]]; subst d; eexists; reflexivity.
Qed.

Lemma select_theme_ok (c : Palette) (theme_name : string) :
  exists d th,
    select_theme c theme_name = Some d /\ theme_of_dict d = Some th /\
    In d (map snd (THEMES c)) /\
    (lookup (THEMES c) theme_name = None -> lookup (THEMES c) "default" = Some d).
Proof.
  unfold select_theme, index.
  assert (Hd : exists d0, lookup (THEMES c) "default" = Some d0) by (eexists; reflexivity).
  destruct Hd as [d0 Hd]. rewrite Hd. cbn [mbind option_bind].
  destruct (lookup (THEMES c) theme_name) as [d|] eqn:E.
  - pose proof (lookup_In _ _ _ E) as Hin. destruct (themes_are_complete c d Hin) as [th Hth].
    exists d, th. repeat split; try assumption. discriminate.
  - pose proof (lookup_In _ _ _ Hd) as Hin. destruct (themes_are_complete c d0 Hin) as [th Hth].
    exists d0, th. repeat split; try assumption.
Qed.

Lemma tenth_pos : (0 < Float.round (1 # 10))%Q.
Proof. vm_compute. reflexivity. Qed.

Lemma clamp_speed_ge (speed_factor : Float.float) :
  (Float.round (1 # 10) <= clamp_speed speed_factor)%Q.
Proof.
  unfold clamp_speed, Float.ltb.
  destruct (Qle_bool speed_factor (Float.round (1 # 10))) eqn:E; cbn [negb].
  - apply Qle_refl.
  - apply Qlt_le_weak. apply Qnot_le_lt. intros H. apply Qle_bool_iff in H. congruence.
Qed.

(** X3: whatever [speed_factor] the caller asks for, the interface keeps
    at least 0.1, so a turn of the spinner's loop never divides by zero:
    it clears the line, writes a frame of the style with the message and
    the suffix, and sleeps for [0.1 / speed_factor], which is more than 0
    and at most one second; construction itself succeeds for every theme
    name. *)
Theorem X3_spinner_turn_sleeps_at_most_a_second
    (c : Palette) (theme : string + ThemeName) (speed_factor : Float.float)
    (debug : bool) (width columns : option Z) :
  exists d ui,
    __init__ c theme speed_factor debug width columns = Some (d, ui) /\
    (Float.round (1 # 10) <= TerminalUI.speed_factor ui)%Q /\
    forall (self : Spinner.t) (k : Z) (w : World),
      Spinner.ui self = ui ->
      Spinner.frames self = SpinnerStyle_value (Spinner.style self) ->
      exists frame color delay w0 w',
        Spinner.frame_at self k w = (Ok frame, w0) /\
        Spinner.animate_step self k w = (Ok (k + 1), w') /\
        out w' = out w ++ [ClearLine;
                           WriteFrame color frame (Spinner.message self)
                             (Spinner.suffix self);
                           Sleep delay] /\
        (0 < delay)%Q /\ (delay <= 1)%Q.
Proof.
  unfold __init__.
  destruct (select_theme_ok c (match theme with inl n => n | inr t => ThemeName_value t end))
    as (d & th & Hs & Hth & _ & _).
  rewrite Hs. cbn [mbind option_bind]. rewrite Hth. cbn [mbind option_bind].
  eexists d, _. split; [reflexivity|]. cbn [TerminalUI.speed_factor].
  split; [apply clamp_speed_ge|].
  intros self k w Hui Hf.
  destruct (frame_at_found self k w Hf) as (frame & w0 & Hfr & _ & Hout0).
  unfold Spinner.animate_step. rewrite Hfr, Hui. cbn [TerminalUI.speed_factor TerminalUI.theme].
  pose proof (clamp_speed_ge speed_factor) as Hge. pose proof tenth_pos as Hp.
  set (sf := clamp_speed speed_factor) in *.
  assert (Hsf : (0 < sf)%Q) by lra.
  unfold float_div, Float.is_zero.
  destruct (Qeq_bool sf 0) eqn:Ez.
  { apply Qeq_bool_iff in Ez. lra. }
  assert (Hq0 : (0 < Float.round (1 # 10) / sf)%Q).
  { apply Qlt_shift_div_l; [exact Hsf | lra]. }
  assert (Hq1 : (Float.round (1 # 10) / sf <= 1)%Q).
  { apply Qle_shift_div_r; [exact Hsf | lra]. }
  eexists frame, _, _, w0, _. split; [reflexivity|]. split; [reflexivity|].
  split.
  - cbn [emit out TerminalUI.clear_line]. rewrite Hout0, <- !app_assoc. reflexivity.
  - split; [apply FloatFacts.round_pos; exact Hq0|].
    apply FloatFacts.round_le_representable;
      [lra | right; apply FloatFacts.representable_one | exact Hq1].
Qed.

(** An interface asked for speed 0 keeps 0.1; one turn of a DOTS spinner. *)
Lemma X3_spinner_turn_sleeps_at_most_a_second_witness :
  exists d ui,
    __init__ mock (inr T_CYBERPUNK) 0%Q false None None = Some (d, ui) /\
    Spinner.ui (Spinner.__init__ ui "Loading..." DOTS "accent" "") = ui /\
    exists r w', Spinner.animate_step
                   (Spinner.__init__ ui "Loading..." DOTS "accent" "") 0 Sample.world
                 = (Ok r, w').
Proof.
  destruct (X3_spinner_turn_sleeps_at_most_a_second mock (inr T_CYBERPUNK) 0%Q false
              None None) as (d & ui & Hi & _ & Hturn).
  exists d, ui. split; [exact Hi|]. split; [reflexivity|].
  destruct (Hturn (Spinner.__init__ ui "Loading..." DOTS "accent" "") 0 Sample.world
              eq_refl eq_refl) as (f & col & dl & w0 & w' & _ & Ha & _).
  exists (0 + 1), w'. exact Ha.
Defined.

Lemma append_empty_r (s : string) : String.append s "" = s.
Proof.
  induction s as [|a s IH]; [reflexivity|].
  change (String.append (String a s) "") with (String a (String.append s "")).
  rewrite IH. reflexivity.
Qed.

(** Without [colorama] every colour of every theme is empty. *)
Lemma mock_themes_are_empty (d : theme_dict) :
  In d (map snd (THEMES mock)) -> Forall (fun kv => snd kv = "") d.
Proof.
  cbn [THEMES map snd In].
  intros [H | [H | [H | [H | [H | [H | [H | [H | []]]]]]]]]; subst d;
    repeat constructor.
Qed.

Lemma lookup_Forall {A : Type} (P : A -> Prop) (d : list (string * A)) (k : string) (v : A) :
  Forall (fun kv => P (snd kv)) d -> lookup d k = Some v -> P v.
Proof.
  induction d as [|[k' v'] rest IH]; [discriminate|]. intros Hf. cbn [lookup].
  apply Forall_cons in Hf as [Hv Hrest].
  destruct (String.eqb k' k); [intros H; inversion H; subst; exact Hv | apply IH; exact Hrest].
Qed.

(** X16: every theme name, known or not, selects a theme that has all ten
    keys, an unknown name the default one: neither construction nor
    [colorize] can raise KeyError, and a colour key that the theme lacks is
    painted as [primary].  When [colorama] is missing, so that every colour
    constant is empty, [colorize] returns its text unchanged, for every
    theme and key. *)
Theorem X16_themes_are_complete_and_degrade
    (c : Palette) (theme_name text color_key : string) :
  exists d th primary,
    select_theme c theme_name = Some d /\
    theme_of_dict d = Some th /\
    (lookup (THEMES c) theme_name = None -> lookup (THEMES c) "default" = Some d) /\
    lookup d "primary" = Some primary /\
    colorize c d text color_key
    = Some (app3 (match lookup d color_key with Some x => x | None => primary end)
                 text (S_RESET_ALL c)) /\
    forall d', select_theme mock theme_name = Some d' ->
      colorize mock d' text color_key = Some text.
Proof.
  destruct (select_theme_ok c theme_name) as (d & th & Hs & Hth & Hin & Hdef).
  assert (Hp : exists primary, lookup d "primary" = Some primary).
  { unfold theme_of_dict in Hth. destruct (lookup d "primary") as [p|]; [eauto | discriminate]. }
  destruct Hp as [primary Hp].
  exists d, th, primary. split; [exact Hs|]. split; [exact Hth|]. split; [exact Hdef|].
  split; [exact Hp|]. split.
  - unfold colorize, index. rewrite Hp. reflexivity.
  - intros d' Hs'.
    destruct (select_theme_ok mock theme_name) as (d2 & th2 & Hs2 & Hth2 & Hin2 & _).
    rewrite Hs' in Hs2. inversion Hs2; subst d2.
    pose proof (mock_themes_are_empty d' Hin2) as Hempty.
    assert (Hp' : exists p, lookup d' "primary" = Some p).
    { unfold theme_of_dict in Hth2.
      destruct (lookup d' "primary") as [p|]; [eauto | discriminate]. }
    destruct Hp' as [p Hp'].
    assert (Ep : p = "") by exact (lookup_Forall (fun v => v = "") d' "primary" p Hempty Hp').
    unfold colorize, index. rewrite Hp'. cbn [mbind option_bind]. f_equal.
    destruct (lookup d' color_key) as [x|] eqn:Ex.
    + rewrite (lookup_Forall (fun v => v = "") d' color_key x Hempty Ex).
      unfold app3. cbn. apply append_empty_r.
    + rewrite Ep. unfold app3. cbn. apply append_empty_r.
Qed.

End UIInitMore.

(** ** The scoped progress bar *)

Section ProgressScopeMore.
Import ProgressBar ProgressBarFacts ProgressScope.

Lemma sleeps_app (l1 l2 : list event) : sleeps (l1 ++ l2) = (sleeps l1 + sleeps l2)%nat.
Proof.
  induction l1 as [|e rest IH]; [reflexivity|].
  destruct e; cbn [app sleeps]; rewrite ?IH; reflexivity.
Qed.

(** What a render adds has no sleep in it. *)
Lemma render_out (self : ProgressBar.t) (w w' : World) :
  _render self w = Ok w' ->
  exists l, out w' = out w ++ [ClearLine; WriteLine l] /\ sleeps (out w') = sleeps (out w).
Proof.
  intros H. destruct (render_spec self w) as (pct & f & e & tl & w2 & _ & _ & _ & Hr & Hout).
  rewrite H in Hr. inversion Hr; subst w2. eexists. split; [exact Hout|].
  rewrite Hout, sleeps_app. cbn. lia.
Qed.

(** [finish()] on the shared bar. *)
Lemma call_finish (st : PState) :
  exists st' filled empty tail,
    call finish st = (Ok tt, st') /\
    total (pbar st') = total (pbar st) /\ current (pbar st') = total (pbar st) /\
    out (world st') = out (world st) ++
      [ClearLine; WriteLine (line (pbar st') 100 filled empty tail); Newline] /\
    (tail = [] \/ exists x, tail = [PDone x]) /\
    sleeps (out (world st')) = sleeps (out (world st)).
Proof.
  destruct (finish_spec (pbar st) (world st)) as (w' & Hf & Hr).
  destruct (render_spec (touched (total (pbar st)) (last_update (pbar st)) (pbar st))
              (world st)) as (pct & f & e & tl & w2 & Hp & _ & Htl & Hr2 & Hout).
  rewrite Hr in Hr2. inversion Hr2; subst w2.
  rewrite percentage_full in Hp by reflexivity. inversion Hp; subst pct.
  unfold call. rewrite Hf. eexists _, f, e, tl. split; [reflexivity|].
  cbn [pbar world emit out]. split; [reflexivity|]. split; [reflexivity|].
  split; [rewrite Hout, <- app_assoc; reflexivity|]. split.
  - destruct Htl as [[-> _] | [(x & _ & Hx) | (x & -> & _)]];
      [left; reflexivity | | right; eauto].
    cbn [touched set_last_update set_current current total] in Hx. lia.
  - rewrite Hout, !sleeps_app. cbn. lia.
Qed.

Lemma call_update (amount : Z) (st : PState) :
  exists st',
    call (update amount) st = (Ok tt, st') /\
    total (pbar st') = total (pbar st) /\
    current (pbar st') = Z.min (current (pbar st) + amount) (total (pbar st)) /\
    sleeps (out (world st')) = sleeps (out (world st)).
Proof.
  unfold call.
  destruct (update_spec amount (pbar st) (world st)) as [[Hu _] | (w' & Hu & Hr)]; rewrite Hu.
  - eexists. split; [reflexivity|]. repeat split.
  - destruct (render_out _ _ _ Hr) as (l & _ & Hs).
    eexists. split; [reflexivity|]. cbn [pbar world]. repeat split. exact Hs.
Qed.

Lemma call_set_progress (v : Z) (st : PState) :
  exists st',
    call (set_progress v) st = (Ok tt, st') /\ total (pbar st') = total (pbar st).
Proof.
  unfold call. destruct (set_progress_spec v (pbar st) (world st)) as (w' & Hs & _).
  rewrite Hs. eexists. split; reflexivity.
Qed.

Lemma run_stmts_total (l : list stmt) (st : PState) :
  exists st', run_stmts l st = (Ok tt, st') /\ total (pbar st') = total (pbar st).
Proof.
  revert st. induction l as [|s rest IH]; intros st; [exists st; split; reflexivity|].
  assert (H1 : exists st1, run_stmt s st = (Ok tt, st1) /\ total (pbar st1) = total (pbar st)).
  { destruct s; cbn [run_stmt].
    - destruct (call_update amount st) as (st1 & H & Ht & _). eauto.
    - apply call_set_progress.
    - destruct (call_finish st) as (st1 & ? & ? & ? & H & Ht & _). eauto.
    - eexists. split; reflexivity.
    - eexists. split; reflexivity. }
  destruct H1 as (st1 & H1 & Ht1). destruct (IH st1) as (st2 & H2 & Ht2).
  exists st2. cbn [run_stmts]. unfold mbind, M_bind. rewrite H1, H2.
  split; [reflexivity | congruence].
Qed.

(** X6: whatever the block does with the bar and however it ends (it
    runs to its end, returns early, or raises), the progress block calls
    [finish()] after it: the bar is left at [current = total], the last
    thing written is its line at 100 per cent, with the "Done" indicator or
    no time at all but never an ETA, followed by a newline, and the caller
    sees the block's own value or failure.  So a block that fails halfway
    still leaves a bar that reads complete. *)
Theorem X6_progress_block_finishes_on_every_exit
    (ui : TerminalUI.t) (message : string) (total : Z) (style : ProgressStyle)
    (width : option Z) (show_percentage show_eta : bool) (color_key : string)
    (body : list stmt) (e : Scoped.ending) (w : World) :
  exists st' before filled empty tail,
    progress ui message total style width show_percentage show_eta color_key
      (run_block body e) w = Ok (Scoped.outcome e, st') /\
    ProgressBar.total (pbar st') = total /\
    current (pbar st') = total /\
    out (world st') = before ++
      [ClearLine; WriteLine (line (pbar st') 100 filled empty tail); Newline] /\
    (tail = [] \/ exists x, tail = [PDone x]).
Proof.
  unfold progress, __init__. cbn [time_time mbind result_bind].
  set (st0 := mkP _ _).
  destruct (run_stmts_total body st0) as (st1 & H1 & Ht1).
  assert (Hbody : run_block body e st0 = (Scoped.outcome e, st1)).
  { unfold run_block, mbind, M_bind. rewrite H1. destruct e; reflexivity. }
  destruct (call_finish st1) as (st2 & f & em & tl & Hf & Ht2 & Hc2 & Hout & Htl & _).
  exists st2, (out (ProgressScope.world st1)), f, em, tl.
  split; [|split; [|split; [|split]]].
  - unfold block, try_finally. rewrite Hbody, Hf. reflexivity.
  - rewrite Ht2, Ht1. reflexivity.
  - rewrite Hc2, Ht1. reflexivity.
  - exact Hout.
  - exact Htl.
Qed.

(** [time.sleep] returns exactly for a non-negative argument. *)
Lemma sleep_nonneg (d : Float.float) (st : PState) :
  (0 <= d)%Q -> sleep d st = (Ok tt, mkP (pbar st) (emit (Sleep d) (world st))).
Proof.
  intros H. unfold sleep, Float.ltb.
  assert (E : Qle_bool 0 d = true) by (apply Qle_bool_iff; exact H).
  rewrite E. reflexivity.
Qed.

Lemma sleep_neg (d : Float.float) (st : PState) :
  (d < 0)%Q -> sleep d st = (Raise ValueError, st).
Proof.
  intros H. unfold sleep, Float.ltb.
  destruct (Qle_bool 0 d) eqn:E; [|reflexivity].
  apply Qle_bool_iff in E. lra.
Qed.

(** [duration / total] has the sign of [duration] when [total > 0]. *)
Lemma float_div_int_sign (x : Float.float) (n : Z) :
  0 < n ->
  exists d, float_div_int x n = Ok d /\
    ((0 <= x)%Q -> (0 <= d)%Q) /\ ((x < 0)%Q -> (d < 0)%Q).
Proof.
  intros H. unfold float_div_int. rewrite (of_int_not_zero n H). eexists. split; [reflexivity|].
  assert (Hp : (0 < Float.of_int n)%Q).
  { apply FloatFacts.round_pos. change 0%Q with (inject_Z 0).
    rewrite <- Zlt_Qlt. exact H. }
  split; intros Hx.
  - apply FloatFacts.round_nonneg. apply Qle_shift_div_l; [exact Hp | lra].
  - apply FloatFactsNeg.round_neg. apply Qlt_shift_div_r; [exact Hp | lra].
Qed.

Lemma simple_loop_spec (n : nat) (duration : Float.float) (total : Z) (st : PState) :
  (n = O \/ (0 < total /\ (0 <= duration)%Q)) ->
  exists st',
    simple_loop n duration total st = (Ok tt, st') /\
    ProgressBar.total (pbar st') = ProgressBar.total (pbar st) /\
    sleeps (out (world st')) = (sleeps (out (world st)) + n)%nat.
Proof.
  revert st. induction n as [|n IH]; intros st Hn.
  - exists st. cbn. repeat split. lia.
  - assert (Ht : 0 < total /\ (0 <= duration)%Q) by (destruct Hn; [discriminate | assumption]).
    destruct Ht as [Ht Hd0].
    destruct (float_div_int_sign duration total Ht) as (d & Hd & Hpos & _).
    cbn [simple_loop]. unfold mbind, M_bind. rewrite Hd.
    rewrite sleep_nonneg by (apply Hpos; exact Hd0).
    set (st1 := mkP _ _).
    destruct (call_update 1 st1) as (st2 & H2 & Ht2 & _ & Hs2). rewrite H2.
    destruct (IH st2 (or_intror (conj Ht Hd0))) as (st3 & H3 & Ht3 & Hs3). rewrite H3.
    exists st3. split; [reflexivity|]. split; [rewrite Ht3, Ht2; reflexivity|].
    rewrite Hs3, Hs2. unfold st1. cbn [world emit out]. rewrite sleeps_app. cbn. lia.
Qed.

(** With a negative [duration] the first turn raises, before anything is
    done. *)
Lemma simple_loop_raises (n : nat) (duration : Float.float) (total : Z) (st : PState) :
  0 < total -> (duration < 0)%Q ->
  simple_loop (S n) duration total st = (Raise ValueError, st).
Proof.
  intros Ht Hd. destruct (float_div_int_sign duration total Ht) as (d & Hdiv & _ & Hneg).
  cbn [simple_loop]. unfold mbind, M_bind. rewrite Hdiv.
  rewrite sleep_neg by (apply Hneg; exact Hd). reflexivity.
Qed.


Lemma ceil_step (rem chunk : Z) :
  1 <= chunk -> 0 < rem ->
  (rem + chunk - 1) / chunk = 1 + (rem - Z.min chunk rem + chunk - 1) / chunk.
Proof.
  intros Hc Hr. destruct (Z_le_gt_dec rem chunk) as [Hle | Hgt].
  - replace (Z.min chunk rem) with rem by lia.
    replace (rem - rem + chunk - 1) with (chunk - 1) by lia.
    rewrite (Z.div_small (chunk - 1) chunk) by lia.
    symmetry. apply Z.div_unique with (r := rem - 1); lia.
  - replace (Z.min chunk rem) with chunk by lia.
    replace (rem + chunk - 1) with (rem - chunk + chunk - 1 + 1 * chunk) by lia.
    rewrite Z.div_add by lia. lia.
Qed.

(** X8: the download loop of the installation wizard, on a bar whose
    [total] is the size, with a chunk of at least 1, ends: after
    [ceil((size - current) / chunk)] turns, one sleep each, with
    [current] equal to the size. *)
Theorem X8_download_loop_ends_at_size
    (fuel : nat) (chunk_size size_mb : Z) (st : PState) :
  1 <= chunk_size ->
  total (pbar st) = size_mb -> 0 <= current (pbar st) <= size_mb ->
  (Z.to_nat (size_mb - current (pbar st)) <= fuel)%nat ->
  exists st',
    download_loop fuel chunk_size size_mb st = (Ok true, st') /\
    current (pbar st') = size_mb /\
    sleeps (out (world st'))
    = (sleeps (out (world st))
       + Z.to_nat ((size_mb - current (pbar st) + chunk_size - 1) / chunk_size))%nat.
Proof.
  intros Hc. revert st. induction fuel as [|fuel IH]; intros st Ht Hcur Hfuel.
  - assert (E : current (pbar st) = size_mb) by lia.
    exists st. cbn [download_loop].
    assert (El : (current (pbar st) <? size_mb) = false) by (apply Z.ltb_ge; lia).
    rewrite El. split; [reflexivity|]. split; [exact E|].
    rewrite E. replace (size_mb - size_mb + chunk_size - 1) with (chunk_size - 1) by lia.
    rewrite Z.div_small by lia. cbn. lia.
  - cbn [download_loop]. destruct (current (pbar st) <? size_mb) eqn:El.
    + apply Z.ltb_lt in El. unfold mbind, M_bind.
      rewrite sleep_nonneg by (apply FloatFacts.round_nonneg; discriminate).
      set (st1 := mkP _ _).
      set (a := Z.min chunk_size (size_mb - current (pbar st))).
      destruct (call_update a st1) as (st2 & H2 & Ht2 & Hc2 & Hs2). rewrite H2.
      unfold st1 in Ht2, Hc2, Hs2. cbn [pbar world emit out] in Ht2, Hc2, Hs2.
      assert (Hcur2 : current (pbar st2) = current (pbar st) + a) by (unfold a in *; lia).
      destruct (IH st2) as (st3 & H3 & Hc3 & Hs3); [congruence | unfold a in *; lia |
                                                     unfold a in *; lia |].
      exists st3. split; [exact H3|]. split; [exact Hc3|].
      rewrite Hs3, Hs2, sleeps_app. cbn [sleeps].
      rewrite (ceil_step (size_mb - current (pbar st)) chunk_size Hc) by lia.
      fold a. rewrite Hcur2.
      replace (size_mb - (current (pbar st) + a) + chunk_size - 1)
        with (size_mb - current (pbar st) - a + chunk_size - 1) by lia.
      assert (0 <= (size_mb - current (pbar st) - a + chunk_size - 1) / chunk_size).
      { apply Z.div_pos; unfold a; lia. }
      lia.
    + apply Z.ltb_ge in El. assert (E : current (pbar st) = size_mb) by lia.
      exists st. split; [reflexivity|]. split; [exact E|].
      rewrite E. replace (size_mb - size_mb + chunk_size - 1) with (chunk_size - 1) by lia.
      rewrite Z.div_small by lia. cbn. lia.
Qed.

(** A download of 10 in chunks of 4 takes three turns. *)
Lemma X8_download_loop_ends_at_size_witness :
  1 <= 4 /\
  total (pbar (mkP (Sample.bar 10 10) Sample.world)) = 10 /\
  0 <= current (pbar (mkP (Sample.bar 10 10) Sample.world)) <= 10 /\
  (Z.to_nat (10 - current (pbar (mkP (Sample.bar 10 10) Sample.world))) <= 10)%nat /\
  exists st',
    download_loop 10 4 10 (mkP (Sample.bar 10 10) Sample.world) = (Ok true, st') /\
    current (pbar st') = 10.
Proof.
  assert (H1 : 1 <= 4) by lia.
  assert (H2 : total (pbar (mkP (Sample.bar 10 10) Sample.world)) = 10) by reflexivity.
  assert (H3 : 0 <= current (pbar (mkP (Sample.bar 10 10) Sample.world)) <= 10)
    by (cbn; lia).
  assert (H4 : (Z.to_nat (10 - current (pbar (mkP (Sample.bar 10 10) Sample.world)))
                <= 10)%nat) by (cbn; lia).
  split; [exact H1|]. split; [exact H2|]. split; [exact H3|]. split; [exact H4|].
  destruct (X8_download_loop_ends_at_size 10 4 10 (mkP (Sample.bar 10 10) Sample.world)
              H1 H2 H3 H4) as (st' & H & Hc & _).
  exists st'. split; [exact H | exact Hc].
Defined.

End ProgressScopeMore.

(** ** Interrupts *)

Section CleanupMore.
Import Scoped Cleanup.

Lemma stop_all_spec (refs : list nat) (p : Proc) :
  Forall (fun r => (r < length (spinners p))%nat) refs ->
  exists p',
    stop_all refs p = (Ok tt, p') /\
    length (spinners p') = length (spinners p) /\
    _active_spinners p' = _active_spinners p /\ calls p' = calls p /\
    (forall r, In r refs ->
       exists s, spinners p' !! r = Some s /\ Spinner.running s = false) /\
    (forall r, ~ In r refs -> spinners p' !! r = spinners p !! r) /\
    (forall r s, spinners p !! r = Some s -> Spinner.running s = false ->
       spinners p' !! r = Some s).
Proof.
  revert p. induction refs as [|r0 rest IH]; intros p Hv.
  - exists p. cbn. repeat split; try tauto.
  - apply Forall_cons in Hv as [Hr0 Hrest].
    destruct (on_spinner_ok r0 Spinner._stop p Hr0) as (p1 & s0 & Ho & Hs0 & Hsp & Hl & Ha & Hc).
    assert (Hrest1 : Forall (fun r => (r < length (spinners p1))%nat) rest).
    { rewrite Hl. exact Hrest. }
    destruct (IH p1 Hrest1) as (p2 & H2 & Hl2 & Ha2 & Hc2 & Hin & Hout & Hkeep).
    pose proof (stop_not_running s0 (world p)) as (Hnr & _).
    assert (H10 : spinners p1 !! r0 = Some (fst (Spinner._stop s0 (world p)))).
    { rewrite Hsp. apply list_lookup_insert_eq. exact Hr0. }
    exists p2. cbn [stop_all]. unfold mbind, M_bind. rewrite Ho, H2.
    split; [reflexivity|]. split; [congruence|]. split; [congruence|]. split; [congruence|].
    split; [|split].
    + intros r [-> | Hr]; [|apply Hin; exact Hr].
      exists (fst (Spinner._stop s0 (world p))). split; [|exact Hnr].
      apply Hkeep; [exact H10 | exact Hnr].
    + intros r Hr. rewrite Hout by (intros H; apply Hr; right; exact H).
      rewrite Hsp. apply list_lookup_insert_ne. intros ->. apply Hr. left. reflexivity.
    + intros r s Hs Hrun. apply Hkeep; [|exact Hrun].
      destruct (Nat.eq_dec r0 r) as [-> | Hne].
      * rewrite H10. rewrite Hs in Hs0. inversion Hs0; subst s0.
        unfold Spinner._stop. rewrite Hrun. reflexivity.
      * rewrite Hsp, list_lookup_insert_ne by exact Hne. exact Hs.
Qed.

(** X15: [_cleanup] stops every spinner of the active list and touches no
    other; it leaves the cursor showing, whatever the terminal was like,
    and the list as it was.  A [stop()] that comes after it on one of
    these spinners, as the one of a spinner block that the interrupt
    unwinds, writes nothing and changes no spinner: the line is not
    cleared twice. *)
Theorem X15_cleanup_stops_the_active_spinners (ui : TerminalUI.t) (p : Proc) :
  Forall (fun r => (r < length (spinners p))%nat) (_active_spinners p) ->
  exists p',
    _cleanup ui p = (Ok tt, p') /\
    _active_spinners p' = _active_spinners p /\
    cursor_visible (out (world p')) = true /\
    (forall r, In r (_active_spinners p) ->
       exists s, spinners p' !! r = Some s /\ Spinner.running s = false) /\
    (forall r, ~ In r (_active_spinners p) -> spinners p' !! r = spinners p !! r) /\
    (forall r, In r (_active_spinners p) ->
       stop r p' = (Ok tt, mkProc (spinners p') (_active_spinners p') (world p')
                             (calls p' ++ [CallStop r]))).
Proof.
  intros Hv.
  destruct (stop_all_spec (_active_spinners p) p Hv)
    as (p1 & H1 & Hl & Ha & Hc & Hin & Hout & _).
  unfold _cleanup, mbind, M_bind. rewrite H1. unfold show_cursor.
  eexists. split; [reflexivity|]. cbn [_active_spinners world spinners calls].
  split; [exact Ha|]. split.
  - unfold TerminalUI.show_cursor. cbn [emit out]. rewrite cursor_visible_app. reflexivity.
  - split; [exact Hin|]. split; [exact Hout|].
    intros r Hr. destruct (Hin r Hr) as (s & Hs & Hrun).
    unfold stop, log, mbind, M_bind, on_spinner. cbn [spinners world _active_spinners calls].
    rewrite Hs. unfold Spinner.stop, Spinner._stop. rewrite Hrun. cbn [negb].
    rewrite list_insert_id by exact Hs. reflexivity.
Qed.

(** One spinner is running and active; [_cleanup] stops it. *)
Lemma X15_cleanup_stops_the_active_spinners_witness :
  Forall (fun r => (r < length [Spinner.set_running true (Sample.spinner DOTS)])%nat) [0%nat] /\
  exists p',
    _cleanup Sample.ui
      (mkProc [Spinner.set_running true (Sample.spinner DOTS)] [0%nat] Sample.world [])
    = (Ok tt, p').
Proof.
  assert (H : Forall (fun r => (r < length [Spinner.set_running true (Sample.spinner DOTS)])%nat)
                [0%nat]) by (constructor; [cbn; lia | constructor]).
  split; [exact H|].
  destruct (X15_cleanup_stops_the_active_spinners Sample.ui
              (mkProc [Spinner.set_running true (Sample.spinner DOTS)] [0%nat] Sample.world [])
              H) as (p' & Hc & _).
  exists p'. exact Hc.
Defined.

End CleanupMore.

(** ** Boxes and tables *)

Section LayoutMore.
Import Layout.

Lemma len_app (a b : text) : len (a ++ b) = len a + len b.
Proof. unfold len. rewrite length_app. lia. Qed.

Lemma len_times (c : string) (n : Z) : len (times c n) = Z.max 0 n.
Proof. unfold len, times. rewrite length_replicate. lia. Qed.

Lemma len_nonneg (s : text) : 0 <= len s.
Proof. unfold len. lia. Qed.

Lemma len_ljust (s : text) (w : Z) : len (ljust s w) = Z.max (len s) w.
Proof. unfold ljust. rewrite len_app, len_times. lia. Qed.

Lemma len_cons (c : string) (s : text) : len (c :: s) = 1 + len s.
Proof. unfold len. cbn [length]. lia. Qed.

Lemma len_nil : len [] = 0.
Proof. reflexivity. Qed.

Ltac len_simpl :=
  repeat (rewrite ?len_app, ?len_times, ?len_ljust, ?len_cons, ?len_nil).

Lemma max_content_width_ge (content : list text) (line : text) :
  In line content -> len line <= max_content_width content.
Proof.
  induction content as [|l rest IH]; [intros []|]. cbn [In max_content_width fold_right].
  intros [-> | H]; [lia|]. specialize (IH H). unfold max_content_width in IH. lia.
Qed.

Lemma max_content_width_nonneg (content : list text) : 0 <= max_content_width content.
Proof. induction content as [|l rest IH]; cbn; [lia|]. unfold max_content_width in IH. lia. Qed.



Lemma widened_refl (ws : list Z) : widened ws ws.
Proof. split; [reflexivity|]. intros i w H. exists w. split; [exact H | lia]. Qed.

Lemma widened_trans (a b c : list Z) : widened a b -> widened b c -> widened a c.
Proof.
  intros [L1 H1] [L2 H2]. split; [congruence|]. intros i w Hi.
  destruct (H1 i w Hi) as (w1 & Hw1 & Hle1). destruct (H2 i w1 Hw1) as (w2 & Hw2 & Hle2).
  exists w2. split; [exact Hw2 | lia].
Qed.

Lemma widen_row_spec (row : list text) (ws : list Z) (i : nat) :
  widened ws (widen_row ws i row) /\
  forall j cell w', row !! j = Some cell -> widen_row ws i row !! (i + j)%nat = Some w' ->
    len cell <= w'.
Proof.
  revert ws i. induction row as [|cell rest IH]; intros ws i; cbn [widen_row].
  - split; [apply widened_refl|]. intros j c w' H. discriminate.
  - set (ws1 := match ws !! i with
                | Some w => <[i := Z.max w (len cell)]> ws
                | None => ws
                end).
    assert (H1 : widened ws ws1 /\ forall w1, ws1 !! i = Some w1 -> len cell <= w1).
    { unfold ws1. destruct (ws !! i) as [w|] eqn:E.
      - split; [split; [apply length_insert|]|].
        + intros k wk Hk. destruct (Nat.eq_dec i k) as [-> | Hne].
          * exists (Z.max w (len cell)). split.
            -- apply list_lookup_insert_eq. apply lookup_lt_Some in Hk. exact Hk.
            -- rewrite E in Hk. inversion Hk. lia.
          * exists wk. split; [|lia]. rewrite list_lookup_insert_ne by exact Hne. exact Hk.
        + intros w1 Hw1. apply lookup_lt_Some in E.
          rewrite list_lookup_insert_eq in Hw1 by exact E. inversion Hw1. lia.
      - split; [apply widened_refl|]. intros w1 Hw1. congruence. }
    destruct H1 as [Hwid1 Hcell1]. destruct (IH ws1 (S i)) as [Hwid2 Hcells2].
    split; [exact (widened_trans _ _ _ Hwid1 Hwid2)|].
    intros j c w' Hj Hw'. destruct j as [|j].
    + cbn in Hj. inversion Hj; subst c. rewrite Nat.add_0_r in Hw'.
      destruct (ws1 !! i) as [w1|] eqn:E1.
      * destruct Hwid2 as [_ Hwid2]. destruct (Hwid2 i w1 E1) as (w2 & Hw2 & Hle).
        rewrite Hw' in Hw2. inversion Hw2; subst w2. specialize (Hcell1 w1 eq_refl). lia.
      * apply lookup_ge_None in E1. apply lookup_lt_Some in Hw'.
        destruct Hwid2 as [L _]. lia.
    + cbn in Hj. apply (Hcells2 j c w' Hj). rewrite <- Hw'. f_equal. lia.
Qed.

Lemma col_widths_spec (rows : list (list text)) (ws : list Z) :
  let ws' := fold_left (fun ws row => widen_row ws 0 row) rows ws in
  widened ws ws' /\
  forall row j cell w', In row rows -> row !! j = Some cell -> ws' !! j = Some w' ->
    len cell <= w'.
Proof.
  revert ws. induction rows as [|row rest IH]; intros ws; cbn [fold_left].
  - split; [apply widened_refl|]. intros row j cell w' [].
  - destruct (widen_row_spec row ws 0) as [Hw1 Hc1].
    destruct (IH (widen_row ws 0 row)) as [Hw2 Hc2].
    split; [exact (widened_trans _ _ _ Hw1 Hw2)|].
    intros r j cell w' [<- | Hin] Hj Hw'; [|exact (Hc2 r j cell w' Hin Hj Hw')].
    destruct (widen_row ws 0 row !! j) as [w1|] eqn:E1.
    + destruct Hw2 as [_ Hw2]. destruct (Hw2 j w1 E1) as (w2 & Hw2' & Hle).
      rewrite Hw' in Hw2'. inversion Hw2'; subst w2.
      specialize (Hc1 j cell w1 Hj E1). lia.
    + apply lookup_ge_None in E1. apply lookup_lt_Some in Hw'. destruct Hw2 as [L _]. lia.
Qed.

Lemma len_join (sep : text) (cells : list text) :
  cells <> [] ->
  len (join sep cells)
  = total_width (map len cells) + len sep * (Z.of_nat (length cells) - 1).
Proof.
  induction cells as [|x rest IH]; [contradiction|]. intros _.
  destruct rest as [|y rest'].
  - cbn [join map total_width fold_right length]. lia.
  - change (join sep (x :: y :: rest')) with (x ++ sep ++ join sep (y :: rest')).
    rewrite !len_app, IH by discriminate.
    cbn [map total_width fold_right length] in *. lia.
Qed.

(** Cells no wider than their columns are padded to the widths of the
    columns. *)
Lemma padded_row_spec (ws : list Z) (row : list text) (i : nat) :
  (i + length row = length ws)%nat ->
  (forall j cell w, row !! j = Some cell -> ws !! (i + j)%nat = Some w -> len cell <= w) ->
  exists cells, padded_row ws i row = Ok cells /\ map len cells = drop i ws.
Proof.
  revert i. induction row as [|cell rest IH]; intros i Hlen Hfit; cbn [padded_row].
  - exists []. split; [reflexivity|]. cbn in Hlen. rewrite drop_ge by lia. reflexivity.
  - cbn [length] in Hlen.
    destruct (ws !! i) as [w|] eqn:E; [|apply lookup_ge_None in E; lia].
    destruct (IH (S i)) as (cells & Hc & Hl); [lia | |].
    { intros j c w0 Hj Hw0. apply (Hfit (S j) c w0 Hj).
      rewrite <- Hw0. f_equal. lia. }
    rewrite Hc. cbn [mbind result_bind]. eexists. split; [reflexivity|].
    cbn [map]. rewrite Hl, len_ljust.
    assert (Hcw : len cell <= w).
    { apply (Hfit O cell w eq_refl). rewrite Nat.add_0_r. exact E. }
    rewrite (drop_S ws w i E). f_equal. lia.
Qed.

Lemma padded_row_long (ws : list Z) (row : list text) (i : nat) :
  (i <= length ws)%nat -> (length ws < i + length row)%nat ->
  padded_row ws i row = Raise IndexError.
Proof.
  revert i. induction row as [|cell rest IH]; intros i Hi Hlen; cbn [padded_row].
  - cbn [length] in Hlen. lia.
  - cbn [length] in Hlen. destruct (ws !! i) as [w|] eqn:E; [|reflexivity].
    apply lookup_lt_Some in E. rewrite IH by lia. reflexivity.
Qed.

Lemma padded_row_short (ws : list Z) (row : list text) (i : nat) :
  (i + length row <= length ws)%nat -> exists cells, padded_row ws i row = Ok cells.
Proof.
  revert i. induction row as [|cell rest IH]; intros i Hlen; cbn [padded_row]; [eauto|].
  cbn [length] in Hlen.
  destruct (ws !! i) as [w|] eqn:E; [|apply lookup_ge_None in E; lia].
  destruct (IH (S i)) as (cells & Hc); [lia|]. rewrite Hc. cbn. eauto.
Qed.

Lemma len_rule (left mid right : string) (ws : list Z) :
  ws <> [] -> Forall (fun w => 0 <= w) ws ->
  len (rule left mid right ws) = total_width ws + 3 * Z.of_nat (length ws) + 1.
Proof.
  intros Hne Hpos. unfold rule. rewrite !len_app, len_join.
  - rewrite length_map, !len_cons, len_nil.
    assert (E : total_width (map len (map (fun w => times "─" (w + 2)) ws))
                = total_width ws + 2 * Z.of_nat (length ws)).
    { clear Hne. induction ws as [|w rest IH]; [reflexivity|].
      apply Forall_cons in Hpos as [Hw Hrest]. cbn [map total_width fold_right length].
      unfold total_width in IH. rewrite IH by exact Hrest. rewrite len_times. lia. }
    rewrite E. lia.
  - destruct ws; [contradiction | discriminate].
Qed.



End LayoutMore.
